(** * ros2_control_doosan: the loopback hardware backend, its mode gate and
      the double-buffered controller list

    A shallow embedding of [fake_components::GenericSystem]
    (hardware_interface/src/fake_components/generic_system.cpp): its
    [configure], [export_state_interfaces], [export_command_interfaces],
    [prepare_command_mode_switch], [perform_command_mode_switch] and
    [read], and of the class
    [RTControllerListWrapper] declared in
    controller_manager/include/controller_manager/controller_manager.hpp.

    Values are IEEE-754 binary64 numbers ([PrimFloat.float], the C++
    [double]); [std::isnan] is [PrimFloat.is_nan] and the arithmetic is
    the rounded one.  Vectors are lists, read with stdpp's total lookup and
    written in place with [alter] and insert; the source indexes with
    [operator[]], which is undefined out of range, so the properties are
    stated for storage of the shape that [configure] allocates.  Parameter
    maps ([std::unordered_map<std::string, std::string>]) are
    [gmap string string].  What [configure] throws is an explicit result
    type.  The clock is an argument of the operations that read it.

    The definitions come first: the data, the operations of the backend,
    the protocol of the controller list; the properties follow, and the
    evaluation of the model on scenarios ends the development. *)

From Stdlib Require Import ZArith PrimFloat Uint63 Lia.
From stdpp Require Import base option list strings gmap sorting relations.

Set Default Proof Using "Type".
Local Open Scope float_scope.

(** * Data and the mode gate *)

(** ** Values and matrices *)

#[global] Instance float_inhabited : Inhabited float := populate 0%float.

(** [std::numeric_limits<double>::quiet_NaN()] *)
Definition quiet_NaN : float := nan.

(** [std::vector<std::vector<double>>]: one row per interface name, one
    column per joint. *)
Abbreviation matrix := (list (list float)).

(** [m[i][j]] *)
Definition cell (m : matrix) (i j : nat) : float := (m !!! i) !!! j.

(** [m[i][j] = v] *)
Definition set_cell (m : matrix) (i j : nat) (v : float) : matrix :=
  alter (fun row => <[j := v]> row) i m.

(** [m] has [rows] rows of [cols] cells each. *)
Definition rect (rows cols : nat) (m : matrix) : Prop :=
  length m = rows ∧ Forall (fun row => length row = cols) m.

#[global] Instance rect_dec (rows cols : nat) (m : matrix) : Decision (rect rows cols m).
Proof. unfold rect. apply _. Defined.

(** Two matrices of the same shape: same number of rows, and rows of the
    same lengths. *)
Definition same_shape (m1 m2 : matrix) : Prop :=
  length m1 = length m2 ∧ ∀ i, length (m1 !!! i) = length (m2 !!! i).

(** ** Loops *)

(** [for (size_t k = 0; k < n; ++k) body(k)] over a loop state [S]. *)
Definition for_loop {S : Type} (n : nat) (body : nat → S → S) (s : S) : S :=
  fold_left (fun acc k => body k acc) (seq 0 n) s.

(** [for (size_t k = from; k < n; ++k) body(k)] *)
Definition for_loop_from {S : Type} (from n : nat) (body : nat → S → S) (s : S) : S :=
  fold_left (fun acc k => body k acc) (seq from (n - from)) s.

(** [for (const auto & x : xs) body(x)] *)
Definition for_each {A S : Type} (xs : list A) (body : A → S → S) (s : S) : S :=
  fold_left (fun acc x => body x acc) xs s.

(** ** Exceptions

    [configure] either returns or throws: [std::stod] throws
    [std::invalid_argument] (or [std::out_of_range]) on a text it cannot
    convert, and a dangling mimic reference throws [std::runtime_error]. *)

Inductive exception :=
  | invalid_argument (what : string)
  | runtime_error (what : string).

Inductive result (A : Type) :=
  | Returns (a : A)
  | Throws (e : exception).

Arguments Returns {A} a.
Arguments Throws {A} e.

#[global] Instance result_ret : MRet result := fun A a => Returns a.
#[global] Instance result_bind : MBind result := fun A B f r =>
  match r with
  | Returns a => f a
  | Throws e => Throws e
  end.

(** A counted loop whose body may throw. *)
Definition for_loop_M {S : Type} (n : nat) (body : nat → S → result S) (s : S)
    : result S :=
  fold_left (fun acc k => acc ≫= body k) (seq 0 n) (Returns s).

(** ** Resource description (hardware_interface::HardwareInfo) *)

(** Only the name of an interface description is read by this backend. *)
Record InterfaceInfo := { interface_name : string }.

Record ComponentInfo := {
  name : string;
  command_interfaces : list InterfaceInfo;
  state_interfaces : list InterfaceInfo;
  parameters : gmap string string
}.

#[global] Instance ComponentInfo_inhabited : Inhabited ComponentInfo :=
  populate {| name := ""; command_interfaces := []; state_interfaces := [];
              parameters := ∅ |}.

Record HardwareInfo := {
  hardware_parameters : gmap string string;
  joints : list ComponentInfo;
  sensors : list ComponentInfo
}.

(** The names a component declares. *)
Definition declared_commands (component : ComponentInfo) : list string :=
  interface_name <$> command_interfaces component.
Definition declared_states (component : ComponentInfo) : list string :=
  interface_name <$> state_interfaces component.

Inductive return_type := OK | ERROR.

#[global] Instance return_type_eq_dec : EqDecision return_type.
Proof. solve_decision. Defined.

(** Modelled from the spec: the header fake_components/generic_system.hpp
    is not part of the sources at hand; it declares the enumeration of
    stopping modes used by [prepare_command_mode_switch]. *)
Inductive StoppingInterface := NONE | STOP_POSITION | STOP_VELOCITY.

#[global] Instance StoppingInterface_eq_dec : EqDecision StoppingInterface.
Proof. solve_decision. Defined.

(** Modelled from the spec: the struct [MimicJoint] is declared in the same
    missing header; a relation is (follower index, leader index, multiplier)
    and the multiplier defaults to 1.0. *)
Record MimicJoint := {
  joint_index : nat;
  mimicked_joint_index : nat;
  multiplier : float
}.

(** Modelled from the spec: the names of the standard interfaces come from
    hardware_interface/types/hardware_interface_type_values.hpp, which is
    not part of the sources at hand. *)
Definition HW_IF_POSITION : string := "position".
Definition HW_IF_VELOCITY : string := "velocity".

(** Modelled from the spec: the two row indices are constants of the missing
    header; the source's own comment ("0 index is position interface"), the
    guard [standard_interfaces_.size() > 1] before the velocity row is
    written and the loopback loop starting at row 2 fix their values. *)
Definition POSITION_INTERFACE_INDEX : nat := 0.
Definition VELOCITY_INTERFACE_INDEX : nat := 1.

(** [std::numeric_limits<size_t>::max()] for a 64-bit [size_t]. *)
Definition SIZE_MAX : Z := 2 ^ 64 - 1.

(** ** The backend's members *)

Record GenericSystem := {
  info_ : HardwareInfo;
  fake_sensor_command_interfaces_ : bool;
  command_propagation_disabled_ : bool;
  position_state_following_offset_ : float;
  custom_interface_with_following_offset_ : string;
  index_custom_interface_with_following_offset_ : Z;
  joint_commands_ : matrix;
  joint_states_ : matrix;
  joint_pos_commands_old_ : list float;
  other_interfaces_ : list string;
  other_commands_ : matrix;
  other_states_ : matrix;
  sensor_interfaces_ : list string;
  sensor_fake_commands_ : matrix;
  sensor_states_ : matrix;
  mimic_joints_ : list MimicJoint;
  start_modes_ : list string;
  stop_modes_ : list StoppingInterface;
  position_controller_running_ : bool;
  velocity_controller_running_ : bool;
  (** [std::chrono::system_clock::time_point], as its tick count in
      nanoseconds *)
  begin : Z;
  period_ : float
}.

(** A backend as its constructor leaves it: every vector empty.  The
    members that the constructor does not initialise are never read before
    [configure] writes them. *)
Definition fresh_system (info : HardwareInfo) : GenericSystem :=
  {| info_ := info;
     fake_sensor_command_interfaces_ := false;
     command_propagation_disabled_ := false;
     position_state_following_offset_ := 0.0;
     custom_interface_with_following_offset_ := "";
     index_custom_interface_with_following_offset_ := SIZE_MAX;
     joint_commands_ := [];
     joint_states_ := [];
     joint_pos_commands_old_ := [];
     other_interfaces_ := [];
     other_commands_ := [];
     other_states_ := [];
     sensor_interfaces_ := [];
     sensor_fake_commands_ := [];
     sensor_states_ := [];
     mimic_joints_ := [];
     start_modes_ := [];
     stop_modes_ := [];
     position_controller_running_ := false;
     velocity_controller_running_ := false;
     begin := 0;
     period_ := 0.0 |}.

(** The backend with its joint command matrix replaced. *)
Definition set_joint_commands (commands : matrix) (s : GenericSystem) : GenericSystem :=
  {| info_ := info_ s;
     fake_sensor_command_interfaces_ := fake_sensor_command_interfaces_ s;
     command_propagation_disabled_ := command_propagation_disabled_ s;
     position_state_following_offset_ := position_state_following_offset_ s;
     custom_interface_with_following_offset_ :=
       custom_interface_with_following_offset_ s;
     index_custom_interface_with_following_offset_ :=
       index_custom_interface_with_following_offset_ s;
     joint_commands_ := commands;
     joint_states_ := joint_states_ s;
     joint_pos_commands_old_ := joint_pos_commands_old_ s;
     other_interfaces_ := other_interfaces_ s;
     other_commands_ := other_commands_ s;
     other_states_ := other_states_ s;
     sensor_interfaces_ := sensor_interfaces_ s;
     sensor_fake_commands_ := sensor_fake_commands_ s;
     sensor_states_ := sensor_states_ s;
     mimic_joints_ := mimic_joints_ s;
     start_modes_ := start_modes_ s;
     stop_modes_ := stop_modes_ s;
     position_controller_running_ := position_controller_running_ s;
     velocity_controller_running_ := velocity_controller_running_ s;
     begin := begin s;
     period_ := period_ s |}.

(** The backend with its matrix of other commands replaced. *)
Definition set_other_commands (commands : matrix) (s : GenericSystem) : GenericSystem :=
  {| info_ := info_ s;
     fake_sensor_command_interfaces_ := fake_sensor_command_interfaces_ s;
     command_propagation_disabled_ := command_propagation_disabled_ s;
     position_state_following_offset_ := position_state_following_offset_ s;
     custom_interface_with_following_offset_ :=
       custom_interface_with_following_offset_ s;
     index_custom_interface_with_following_offset_ :=
       index_custom_interface_with_following_offset_ s;
     joint_commands_ := joint_commands_ s;
     joint_states_ := joint_states_ s;
     joint_pos_commands_old_ := joint_pos_commands_old_ s;
     other_interfaces_ := other_interfaces_ s;
     other_commands_ := commands;
     other_states_ := other_states_ s;
     sensor_interfaces_ := sensor_interfaces_ s;
     sensor_fake_commands_ := sensor_fake_commands_ s;
     sensor_states_ := sensor_states_ s;
     mimic_joints_ := mimic_joints_ s;
     start_modes_ := start_modes_ s;
     stop_modes_ := stop_modes_ s;
     position_controller_running_ := position_controller_running_ s;
     velocity_controller_running_ := velocity_controller_running_ s;
     begin := begin s;
     period_ := period_ s |}.

(** The backend with its matrix of fake sensor commands replaced. *)
Definition set_sensor_fake_commands (commands : matrix) (s : GenericSystem)
    : GenericSystem :=
  {| info_ := info_ s;
     fake_sensor_command_interfaces_ := fake_sensor_command_interfaces_ s;
     command_propagation_disabled_ := command_propagation_disabled_ s;
     position_state_following_offset_ := position_state_following_offset_ s;
     custom_interface_with_following_offset_ :=
       custom_interface_with_following_offset_ s;
     index_custom_interface_with_following_offset_ :=
       index_custom_interface_with_following_offset_ s;
     joint_commands_ := joint_commands_ s;
     joint_states_ := joint_states_ s;
     joint_pos_commands_old_ := joint_pos_commands_old_ s;
     other_interfaces_ := other_interfaces_ s;
     other_commands_ := other_commands_ s;
     other_states_ := other_states_ s;
     sensor_interfaces_ := sensor_interfaces_ s;
     sensor_fake_commands_ := commands;
     sensor_states_ := sensor_states_ s;
     mimic_joints_ := mimic_joints_ s;
     start_modes_ := start_modes_ s;
     stop_modes_ := stop_modes_ s;
     position_controller_running_ := position_controller_running_ s;
     velocity_controller_running_ := velocity_controller_running_ s;
     begin := begin s;
     period_ := period_ s |}.

(** ** Library functions *)

(** [std::equal(first1, last1, first2)]: the elements of the first range
    against the second range, position by position.  The second range of
    every call below is longer than the first, so the last case is never
    reached (it is undefined in the source). *)
Fixpoint std_equal {A : Type} `{EqDecision A} (r1 r2 : list A) : bool :=
  match r1, r2 with
  | [], _ => true
  | x :: r1', y :: r2' => bool_decide (x = y) && std_equal r1' r2'
  | _ :: _, [] => false
  end.

(** [std::find(v.begin(), v.end(), x) != v.end()] *)
Definition contains {A : Type} `{EqDecision A} (v : list A) (x : A) : bool :=
  bool_decide (x ∈ v).

(** [std::distance(v.begin(), std::find(v.begin(), v.end(), x))], when the
    element is found. *)
Definition index_of (v : list string) (x : string) : option nat :=
  fst <$> list_find (fun y => y = x) v.

(** [it->second == "true" || it->second == "True"] *)
Definition is_true_text (text : string) : bool :=
  bool_decide (text = "true") || bool_decide (text = "True").

(** [std::chrono::duration_cast<std::chrono::milliseconds>(d).count()] of a
    nanosecond duration: integer division truncating toward zero. *)
Definition to_milliseconds (ns : Z) : Z := Z.quot ns 1000000.

(** The implicit conversion of the signed 64-bit millisecond count to
    [double] in [count() / 1000.0]. *)
Definition double_of_count (c : Z) : float :=
  if (0 <=? c)%Z then of_uint63 (Uint63.of_Z c)
  else - of_uint63 (Uint63.of_Z (- c)).

(** ** CommandModeGate *)

(** The two [if]s in the body of the inner loop over the joints: each one
    that matches pushes one mode. *)
Definition push_modes {M : Type} (pos vel : M) (key : string)
    (joint : ComponentInfo) (modes : list M) : list M :=
  let modes :=
    if bool_decide (key = (name joint +:+ "/") +:+ HW_IF_POSITION)
    then modes ++ [pos] else modes in
  if bool_decide (key = (name joint +:+ "/") +:+ HW_IF_VELOCITY)
  then modes ++ [vel] else modes.

(** The nested loops that fill [start_modes_] (and [stop_modes_]) after
    they were cleared. *)
Definition collect_modes {M : Type} (pos vel : M) (joints : list ComponentInfo)
    (keys : list string) : list M :=
  for_each keys (fun key modes =>
    for_each joints (push_modes pos vel key) modes) [].

Definition prepare_command_mode_switch
    (start_interfaces stop_interfaces : list string) (s : GenericSystem)
    : return_type * GenericSystem :=
  let ret_val := OK in
  let n := length (joints (info_ s)) in
  let start_modes :=
    collect_modes HW_IF_POSITION HW_IF_VELOCITY (joints (info_ s)) start_interfaces in
  let ret_val :=
    if negb (length start_modes =? 0)%nat && negb (length start_modes =? n)%nat
    then ERROR else ret_val in
  let ret_val :=
    if negb (length start_modes =? 0)%nat
       && negb (std_equal (tail start_modes) start_modes)
    then ERROR else ret_val in
  let stop_modes :=
    collect_modes STOP_POSITION STOP_VELOCITY (joints (info_ s)) stop_interfaces in
  let ret_val :=
    if negb (length stop_modes =? 0)%nat
       && (negb (length stop_modes =? n)%nat
           || negb (std_equal (tail stop_modes) stop_modes))
    then ERROR else ret_val in
  (ret_val,
   {| info_ := info_ s;
      fake_sensor_command_interfaces_ := fake_sensor_command_interfaces_ s;
      command_propagation_disabled_ := command_propagation_disabled_ s;
      position_state_following_offset_ := position_state_following_offset_ s;
      custom_interface_with_following_offset_ :=
        custom_interface_with_following_offset_ s;
      index_custom_interface_with_following_offset_ :=
        index_custom_interface_with_following_offset_ s;
      joint_commands_ := joint_commands_ s;
      joint_states_ := joint_states_ s;
      joint_pos_commands_old_ := joint_pos_commands_old_ s;
      other_interfaces_ := other_interfaces_ s;
      other_commands_ := other_commands_ s;
      other_states_ := other_states_ s;
      sensor_interfaces_ := sensor_interfaces_ s;
      sensor_fake_commands_ := sensor_fake_commands_ s;
      sensor_states_ := sensor_states_ s;
      mimic_joints_ := mimic_joints_ s;
      start_modes_ := start_modes;
      stop_modes_ := stop_modes;
      position_controller_running_ := position_controller_running_ s;
      velocity_controller_running_ := velocity_controller_running_ s;
      begin := begin s;
      period_ := period_ s |}).

Definition perform_command_mode_switch
    (start_interfaces stop_interfaces : list string) (s : GenericSystem)
    : return_type * GenericSystem :=
  let ret_val := OK in
  let position_controller_running := false in
  let velocity_controller_running := false in
  let '(commands, position_controller_running, velocity_controller_running) :=
    if negb (length (start_modes_ s) =? 0)%nat
       && contains (start_modes_ s) HW_IF_POSITION
    then
      (for_loop (length (joint_commands_ s !!! POSITION_INTERFACE_INDEX))
         (fun i commands =>
            set_cell commands POSITION_INTERFACE_INDEX i
              (cell (joint_states_ s) POSITION_INTERFACE_INDEX i))
         (joint_commands_ s),
       true, velocity_controller_running)
    else if negb (length (start_modes_ s) =? 0)%nat
            && contains (start_modes_ s) HW_IF_VELOCITY
    then
      (for_loop (length (joint_commands_ s !!! VELOCITY_INTERFACE_INDEX))
         (fun i commands => set_cell commands VELOCITY_INTERFACE_INDEX i 0.0)
         (joint_commands_ s),
       position_controller_running, true)
    else (joint_commands_ s, position_controller_running,
          velocity_controller_running) in
  (ret_val,
   {| info_ := info_ s;
      fake_sensor_command_interfaces_ := fake_sensor_command_interfaces_ s;
      command_propagation_disabled_ := command_propagation_disabled_ s;
      position_state_following_offset_ := position_state_following_offset_ s;
      custom_interface_with_following_offset_ :=
        custom_interface_with_following_offset_ s;
      index_custom_interface_with_following_offset_ :=
        index_custom_interface_with_following_offset_ s;
      joint_commands_ := commands;
      joint_states_ := joint_states_ s;
      joint_pos_commands_old_ := joint_pos_commands_old_ s;
      other_interfaces_ := other_interfaces_ s;
      other_commands_ := other_commands_ s;
      other_states_ := other_states_ s;
      sensor_interfaces_ := sensor_interfaces_ s;
      sensor_fake_commands_ := sensor_fake_commands_ s;
      sensor_states_ := sensor_states_ s;
      mimic_joints_ := mimic_joints_ s;
      start_modes_ := start_modes_ s;
      stop_modes_ := stop_modes_ s;
      position_controller_running_ := position_controller_running;
      velocity_controller_running_ := velocity_controller_running;
      begin := begin s;
      period_ := period_ s |}).

(** ** Requests to the mode gate *)

(** [key] is the position (resp. velocity) command interface of [joint]. *)
Definition position_key (joint : ComponentInfo) : string :=
  (name joint +:+ "/") +:+ HW_IF_POSITION.
Definition velocity_key (joint : ComponentInfo) : string :=
  (name joint +:+ "/") +:+ HW_IF_VELOCITY.

(** A request names a joint when it holds the joint's position or velocity
    interface. *)
Definition joint_named (keys : list string) (joint : ComponentInfo) : Prop :=
  position_key joint ∈ keys ∨ velocity_key joint ∈ keys.

(** A request that mixes the two control modes among the joint group. *)
Definition mixes_modes (joints : list ComponentInfo) (keys : list string) : Prop :=
  (∃ joint, joint ∈ joints ∧ position_key joint ∈ keys)
  ∧ (∃ joint, joint ∈ joints ∧ velocity_key joint ∈ keys).

(** A request that names some joint of the group and leaves another out. *)
Definition names_partial_group (joints : list ComponentInfo) (keys : list string) : Prop :=
  (∃ joint, joint ∈ joints ∧ joint_named keys joint)
  ∧ (∃ joint, joint ∈ joints ∧ ¬ joint_named keys joint).

(** What one joint contributes for one key. *)
Definition key_modes {M : Type} (pos vel : M) (key : string)
    (joint : ComponentInfo) : list M :=
  (if bool_decide (key = position_key joint) then [pos] else [])
  ++ (if bool_decide (key = velocity_key joint) then [vel] else []).

(** ** Well-formed storage

    What [configure] establishes and every operation preserves: the index
    expressions of [read] and of the mode gate are within bounds. *)

(** The joint matrices have at least the position and the velocity row, and
    one cell per joint in every row. *)
Definition wf_joint_storage (s : GenericSystem) : Prop :=
  (2 ≤ length (joint_states_ s))%nat
  ∧ rect (length (joint_states_ s)) (length (joints (info_ s))) (joint_states_ s)
  ∧ rect (length (joint_states_ s)) (length (joints (info_ s))) (joint_commands_ s)
  ∧ length (joint_pos_commands_old_ s) = length (joints (info_ s)).

#[global] Instance wf_joint_storage_dec (s : GenericSystem) :
  Decision (wf_joint_storage s).
Proof. unfold wf_joint_storage. apply _. Defined.

(** The other storage has one row per discovered name and one cell per
    joint in every row. *)
Definition wf_other_storage (s : GenericSystem) : Prop :=
  rect (length (other_interfaces_ s)) (length (joints (info_ s))) (other_commands_ s)
  ∧ rect (length (other_interfaces_ s)) (length (joints (info_ s))) (other_states_ s).

(** The follower columns of the mimic relations. *)
Definition followers (s : GenericSystem) : list nat :=
  joint_index <$> mimic_joints_ s.

(** Every mimic relation refers to joints that exist. *)
Definition wf_mimic (s : GenericSystem) : Prop :=
  Forall (fun r => (joint_index r < length (joints (info_ s)))%nat
                   ∧ (mimicked_joint_index r < length (joints (info_ s)))%nat)
    (mimic_joints_ s).

#[global] Instance wf_mimic_dec (s : GenericSystem) : Decision (wf_mimic s).
Proof. unfold wf_mimic. apply _. Defined.

(** The members that only [configure] writes. *)
Definition same_configuration (s s' : GenericSystem) : Prop :=
  info_ s' = info_ s
  ∧ fake_sensor_command_interfaces_ s' = fake_sensor_command_interfaces_ s
  ∧ command_propagation_disabled_ s' = command_propagation_disabled_ s
  ∧ position_state_following_offset_ s' = position_state_following_offset_ s
  ∧ custom_interface_with_following_offset_ s'
    = custom_interface_with_following_offset_ s
  ∧ index_custom_interface_with_following_offset_ s'
    = index_custom_interface_with_following_offset_ s
  ∧ other_interfaces_ s' = other_interfaces_ s
  ∧ sensor_interfaces_ s' = sensor_interfaces_ s
  ∧ mimic_joints_ s' = mimic_joints_ s.

(** ** Exported handles *)

(** A range-based loop whose body may throw. *)
Definition for_each_M {A S : Type} (xs : list A) (body : A → S → result S) (s : S)
    : result S :=
  fold_left (fun acc x => acc ≫= body x) xs (Returns s).

(** The six value matrices of the backend. *)
Inductive storage :=
  | joint_states_storage
  | joint_commands_storage
  | other_states_storage
  | other_commands_storage
  | sensor_states_storage
  | sensor_fake_commands_storage.

(** A [hardware_interface::StateInterface] or [CommandInterface] as the
    backend builds it: the name of the component, the name of the
    interface, and the pointer [&values[j][vector_index]], kept as the
    matrix it points into, the row and the column. *)
Record Handle := {
  handle_name : string;
  handle_interface_name : string;
  handle_values : storage;
  handle_row : nat;
  handle_column : nat
}.

(** The matrix that a handle points into. *)
Definition values_of (s : GenericSystem) (values : storage) : matrix :=
  match values with
  | joint_states_storage => joint_states_ s
  | joint_commands_storage => joint_commands_ s
  | other_states_storage => other_states_ s
  | other_commands_storage => other_commands_ s
  | sensor_states_storage => sensor_states_ s
  | sensor_fake_commands_storage => sensor_fake_commands_ s
  end.

(** Reading through a handle; [None] when it points outside its matrix. *)
Definition dereference (s : GenericSystem) (h : Handle) : option float :=
  values_of s (handle_values h) !! handle_row h ≫= (fun row => row !! handle_column h).

(** What identifies an exported interface to its user: component, interface
    name, and the column of the component. *)
Definition handle_key (h : Handle) : string * string * nat :=
  (handle_name h, handle_interface_name h, handle_column h).

(** The interfaces that the components of a list declare, in order, each
    with the index of its component. *)
Definition declared_keys (components : list ComponentInfo)
    (declared : ComponentInfo → list string) : list (string * string * nat) :=
  flat_map (fun i =>
      (fun interface => (name (components !!! i), interface, i))
        <$> declared (components !!! i))
    (seq 0 (length components)).

(** ** Scenario inputs

    Resource descriptions and a conversion table on which the model is
    evaluated. *)

(** The standard interface names. *)
Definition scenario_standard_interfaces : list string :=
  ["position"; "velocity"; "acceleration"; "effort"].

(** A conversion of the numerals that the scenarios use; every other text
    is rejected. *)
Definition scenario_stod (text : string) : option float :=
  (fun found : nat * (string * float) => found.2.2)
    <$> list_find (fun entry : string * float => entry.1 = text)
          [("-1.0", -1.0); ("0.5", 0.5); ("3.0", 3.0); ("5.0", 5.0)].

Definition scenario_joint (joint_name : string) (commands states : list string)
    (params : list (string * string)) : ComponentInfo :=
  {| name := joint_name;
     command_interfaces := (fun n => {| interface_name := n |}) <$> commands;
     state_interfaces := (fun n => {| interface_name := n |}) <$> states;
     parameters := list_to_map params |}.

(** Two joints, J2 mimicking J1 with multiplier -1.0; both declare the
    position and velocity interfaces and a non-standard "gain". *)
Definition scenario_mimic : HardwareInfo :=
  {| hardware_parameters := ∅;
     joints :=
       [ scenario_joint "J1" ["position"; "velocity"; "gain"]
           ["position"; "velocity"; "gain"]
           [("initial_position", "3.0"); ("initial_gain", "3.0")];
         scenario_joint "J2" ["position"; "velocity"; "gain"]
           ["position"; "velocity"; "gain"]
           [("mimic", "J1"); ("multiplier", "-1.0");
            ("initial_position", "5.0"); ("initial_gain", "5.0")] ];
     sensors := [] |}.

(** One joint that declares only its position interfaces. *)
Definition scenario_single : HardwareInfo :=
  {| hardware_parameters := ∅;
     joints := [ scenario_joint "J1" ["position"] ["position"] [] ];
     sensors := [] |}.

(** One joint with a following offset of 0.5 and a custom interface name
    that no joint declares. *)
Definition scenario_absent_custom : HardwareInfo :=
  {| hardware_parameters :=
       list_to_map [("position_state_following_offset", "0.5");
                    ("custom_interface_with_following_offset", "actual_position")];
     joints :=
       [ scenario_joint "J1" ["position"; "velocity"; "gain"]
           ["position"; "velocity"; "gain"] [("initial_position", "3.0")] ];
     sensors := [] |}.

(** The same joint, the custom interface being one that it declares. *)
Definition scenario_bound_custom : HardwareInfo :=
  {| hardware_parameters :=
       list_to_map [("position_state_following_offset", "0.5");
                    ("custom_interface_with_following_offset", "gain")];
     joints :=
       [ scenario_joint "J1" ["position"; "velocity"; "gain"]
           ["position"; "velocity"; "gain"] [("initial_position", "3.0")] ];
     sensors := [] |}.

(** Two joints and two sensors with fake sensor commands; J1 carries an
    initial value under the name of a sensor interface. *)
Definition scenario_sensors : HardwareInfo :=
  {| hardware_parameters := list_to_map [("fake_sensor_commands", "true")];
     joints :=
       [ scenario_joint "J1" ["position"; "velocity"; "effort"; "gain"]
           ["position"; "velocity"; "effort"; "gain"] [("initial_force", "3.0")];
         scenario_joint "J2" ["position"; "velocity"] ["position"; "velocity"] [] ];
     sensors :=
       [ scenario_joint "S1" [] ["force"; "torque"] [];
         scenario_joint "S2" [] ["torque"] [] ] |}.

(** One joint and two sensors, without fake sensor commands. *)
Definition scenario_two_sensors : HardwareInfo :=
  {| hardware_parameters := ∅;
     joints := [ scenario_joint "J1" ["position"] ["position"; "velocity"] [] ];
     sensors :=
       [ scenario_joint "S1" [] ["force"] [];
         scenario_joint "S2" [] ["force"] [] ] |}.

(** * The controller list *)

(** ** ControllerListDoubleBuffer *)

Module RTControllerListWrapper.

(** Modelled from the spec: the header controller_manager.hpp declares the
    class [RTControllerListWrapper], its two lists and its two indices
    (plain [int]s with the initial values 0 and -1), and documents its
    methods, but the bodies of the methods are not part of the sources at
    hand.  The operations follow section 4.5 of the specification and the
    comments of the declarations:

    - [update_and_get_used_by_rt_list] "makes the updated list the used by
      rt list" and returns it.  The real-time thread takes no lock and the
      indices are plain integers, so the call is three steps of its own:
      it reads [updated_controllers_index_] (the "single atomic-like index
      read" of section 5), it writes what it read to
      [used_by_realtime_controllers_index_], and it returns the list of
      that index.  The writer may take any number of steps in between.
      The thread reads no list while it is inside the call; the model lets
      it hold (and read) the list of its previous call until the index
      write, from which on the list in use is the one the index names.
    - [get_unused_list] "waits until the outdated and unused by rt lists
      match": it takes the list that is not the updated one and waits,
      sleeping between checks, until [used_by_realtime_controllers_index_]
      is not its index.
    - [switch_updated_list] "switches the updated and outdated lists, and
      waits until the RT thread is using the new updated list" (the
      comment of its declaration; the specification's [publish] names the
      flip only): it flips [updated_controllers_index_] and waits, sleeping
      between checks, until [used_by_realtime_controllers_index_] is the
      new value.

    Each read and each write of an index is one step; what a controller
    record is does not matter here. *)
Section Wrapper.

Variable ControllerSpec : Type.

Record t := {
  controllers_lists_ : list (list ControllerSpec);
  updated_controllers_index_ : Z;
  used_by_realtime_controllers_index_ : Z
}.

(** [get_other_list]: "get the list not pointed by index" *)
Definition get_other_list (index : Z) : Z := ((index + 1) mod 2)%Z.

(** Where the real-time thread is. *)
Inductive reader_phase :=
  (** outside [update_and_get_used_by_rt_list] *)
  | reader_outside
  (** inside it, having read this value from [updated_controllers_index_] *)
  | reader_loaded (index : Z)
  (** inside it, having written [used_by_realtime_controllers_index_] *)
  | reader_stored.

(** What the writer thread is doing; it holds the structural lock
    throughout. *)
Inductive writer_phase :=
  | writer_idle
  (** inside [get_unused_list], waiting for the list of this index *)
  | writer_waiting (index : Z)
  (** [get_unused_list] returned the list of this index, which the writer
      may modify until it calls [switch_updated_list] *)
  | writer_editing (index : Z)
  (** inside [switch_updated_list], after the flip, waiting for the
      real-time thread *)
  | writer_switching.

(** The wrapper together with the two threads. *)
Record system := {
  wrapper : t;
  reader : reader_phase;
  (** the list the real-time thread got from its last call and still uses *)
  rt_uses : option Z;
  writer : writer_phase
}.

Definition initial : system :=
  {| wrapper := {| controllers_lists_ := [[]; []];
                   updated_controllers_index_ := 0;
                   used_by_realtime_controllers_index_ := -1 |};
     reader := reader_outside;
     rt_uses := None;
     writer := writer_idle |}.

(** What a step does to the lists. *)
Inductive event :=
  | rt_observes (index : Z)
  | writer_mutates (index : Z)
  | silent.

(** The steps of the two threads, in any order. *)
Inductive step : system → event → system → Prop :=
  (** the real-time thread enters [update_and_get_used_by_rt_list] and
      reads [updated_controllers_index_] *)
  | step_rt_load st :
      reader st = reader_outside →
      step st silent
        {| wrapper := wrapper st;
           reader := reader_loaded (updated_controllers_index_ (wrapper st));
           rt_uses := rt_uses st;
           writer := writer st |}
  (** it writes what it read to [used_by_realtime_controllers_index_] *)
  | step_rt_store st index :
      reader st = reader_loaded index →
      step st silent
        {| wrapper :=
             {| controllers_lists_ := controllers_lists_ (wrapper st);
                updated_controllers_index_ := updated_controllers_index_ (wrapper st);
                used_by_realtime_controllers_index_ := index |};
           reader := reader_stored;
           rt_uses := None;
           writer := writer st |}
  (** it returns [controllers_lists_[used_by_realtime_controllers_index_]] *)
  | step_rt_return st :
      reader st = reader_stored →
      step st silent
        {| wrapper := wrapper st;
           reader := reader_outside;
           rt_uses := Some (used_by_realtime_controllers_index_ (wrapper st));
           writer := writer st |}
  (** the real-time thread reads the list it got *)
  | step_rt_read st index :
      rt_uses st = Some index →
      step st (rt_observes index) st
  (** the writer calls [get_unused_list] *)
  | step_get_unused_list_call st :
      writer st = writer_idle →
      step st silent
        {| wrapper := wrapper st;
           reader := reader st;
           rt_uses := rt_uses st;
           writer := writer_waiting
                       (get_other_list (updated_controllers_index_ (wrapper st))) |}
  (** [wait_until_rt_not_using]: the list is in use, sleep and check again *)
  | step_wait_until_rt_not_using st index :
      writer st = writer_waiting index →
      used_by_realtime_controllers_index_ (wrapper st) = index →
      step st silent st
  (** [wait_until_rt_not_using] is over and [get_unused_list] returns *)
  | step_get_unused_list_return st index :
      writer st = writer_waiting index →
      used_by_realtime_controllers_index_ (wrapper st) ≠ index →
      step st silent
        {| wrapper := wrapper st;
           reader := reader st;
           rt_uses := rt_uses st;
           writer := writer_editing index |}
  (** the writer modifies the list it got *)
  | step_writer_edit st index controllers :
      writer st = writer_editing index →
      step st (writer_mutates index)
        {| wrapper :=
             {| controllers_lists_ :=
                  <[Z.to_nat index := controllers]> (controllers_lists_ (wrapper st));
                updated_controllers_index_ := updated_controllers_index_ (wrapper st);
                used_by_realtime_controllers_index_ :=
                  used_by_realtime_controllers_index_ (wrapper st) |};
           reader := reader st;
           rt_uses := rt_uses st;
           writer := writer st |}
  (** the writer calls [switch_updated_list], which flips the updated
      index *)
  | step_switch_updated_list st :
      writer st = writer_idle ∨ (∃ index, writer st = writer_editing index) →
      step st silent
        {| wrapper :=
             {| controllers_lists_ := controllers_lists_ (wrapper st);
                updated_controllers_index_ :=
                  get_other_list (updated_controllers_index_ (wrapper st));
                used_by_realtime_controllers_index_ :=
                  used_by_realtime_controllers_index_ (wrapper st) |};
           reader := reader st;
           rt_uses := rt_uses st;
           writer := writer_switching |}
  (** the real-time thread is not yet using the new updated list: sleep and
      check again *)
  | step_switch_updated_list_wait st :
      writer st = writer_switching →
      used_by_realtime_controllers_index_ (wrapper st)
      ≠ updated_controllers_index_ (wrapper st) →
      step st silent st
  (** the real-time thread is using the new updated list:
      [switch_updated_list] returns *)
  | step_switch_updated_list_return st :
      writer st = writer_switching →
      used_by_realtime_controllers_index_ (wrapper st)
      = updated_controllers_index_ (wrapper st) →
      step st silent
        {| wrapper := wrapper st;
           reader := reader st;
           rt_uses := rt_uses st;
           writer := writer_idle |}.

(** The states that some interleaving of the two threads reaches. *)
Inductive reachable : system → Prop :=
  | reachable_initial : reachable initial
  | reachable_step st e st' : reachable st → step st e st' → reachable st'.

(** What relates the indices to what the threads hold.  Outside
    [switch_updated_list] the used index is still unset or is the updated
    one, and an index that the real-time thread has read and not yet
    written is the updated one; inside [switch_updated_list] the latter
    holds as soon as the used index is the new updated one. *)
Definition consistent (st : system) : Prop :=
  (updated_controllers_index_ (wrapper st) = 0
   ∨ updated_controllers_index_ (wrapper st) = 1)%Z
  ∧ (∀ index, rt_uses st = Some index →
       used_by_realtime_controllers_index_ (wrapper st) = index)
  ∧ (∀ index, writer st = writer_waiting index ∨ writer st = writer_editing index →
       index = get_other_list (updated_controllers_index_ (wrapper st)))
  ∧ (writer st ≠ writer_switching →
       used_by_realtime_controllers_index_ (wrapper st) = (-1)%Z
       ∨ used_by_realtime_controllers_index_ (wrapper st)
         = updated_controllers_index_ (wrapper st))
  ∧ (writer st ≠ writer_switching
     ∨ used_by_realtime_controllers_index_ (wrapper st)
       = updated_controllers_index_ (wrapper st) →
     ∀ index, reader st = reader_loaded index →
       index = updated_controllers_index_ (wrapper st)).

End Wrapper.

Arguments Build_t {ControllerSpec}.
Arguments controllers_lists_ {ControllerSpec}.
Arguments updated_controllers_index_ {ControllerSpec}.
Arguments used_by_realtime_controllers_index_ {ControllerSpec}.
Arguments Build_system {ControllerSpec}.
Arguments wrapper {ControllerSpec}.
Arguments reader {ControllerSpec}.
Arguments rt_uses {ControllerSpec}.
Arguments writer {ControllerSpec}.
Arguments initial {ControllerSpec}.
Arguments step {ControllerSpec}.
Arguments reachable {ControllerSpec}.
Arguments consistent {ControllerSpec}.
Arguments reachable_initial {ControllerSpec}.
Arguments reachable_step {ControllerSpec}.
Arguments step_rt_load {ControllerSpec}.
Arguments step_rt_store {ControllerSpec}.
Arguments step_rt_return {ControllerSpec}.
Arguments step_rt_read {ControllerSpec}.
Arguments step_get_unused_list_call {ControllerSpec}.
Arguments step_wait_until_rt_not_using {ControllerSpec}.
Arguments step_get_unused_list_return {ControllerSpec}.
Arguments step_writer_edit {ControllerSpec}.
Arguments step_switch_updated_list {ControllerSpec}.
Arguments step_switch_updated_list_wait {ControllerSpec}.
Arguments step_switch_updated_list_return {ControllerSpec}.

End RTControllerListWrapper.
(** * The backend *)

Section Backend.

(** The fixed list of standard interface names is a constant of the header
    fake_components/generic_system.hpp, which is not part of the sources at
    hand: it is a parameter of the development. *)
Variable standard_interfaces_ : list string.

(** ** SimulationStepper *)

(** The first loop of [read]: position-controlled joints. *)
Definition read_position_body (s : GenericSystem) (period : float)
    (j : nat) (states : matrix) : matrix :=
  if negb (is_nan (cell (joint_commands_ s) POSITION_INTERFACE_INDEX j))
     && negb (command_propagation_disabled_ s)
     && position_controller_running_ s
  then
    let states :=
      set_cell states POSITION_INTERFACE_INDEX j
        (cell (joint_commands_ s) POSITION_INTERFACE_INDEX j
         + (if bool_decide (custom_interface_with_following_offset_ s = "")
            then position_state_following_offset_ s else 0.0)) in
    if (1 <? length standard_interfaces_)%nat
    then
      set_cell states VELOCITY_INTERFACE_INDEX j
        ((cell (joint_commands_ s) POSITION_INTERFACE_INDEX j
          - joint_pos_commands_old_ s !!! j) / period)
    else states
  else states.

(** The second loop of [read]: velocity-controlled joints.  The loop state
    is the pair (joint_states_, joint_commands_). *)
Definition read_velocity_body (s : GenericSystem) (period : float)
    (j : nat) (sc : matrix * matrix) : matrix * matrix :=
  let '(states, commands) := sc in
  if negb (is_nan (cell commands VELOCITY_INTERFACE_INDEX j))
     && negb (command_propagation_disabled_ s)
     && velocity_controller_running_ s
  then
    let states :=
      set_cell states POSITION_INTERFACE_INDEX j
        (cell states POSITION_INTERFACE_INDEX j
         + cell commands VELOCITY_INTERFACE_INDEX j * period) in
    let states :=
      set_cell states VELOCITY_INTERFACE_INDEX j
        (cell commands VELOCITY_INTERFACE_INDEX j) in
    let commands :=
      set_cell commands POSITION_INTERFACE_INDEX j
        (cell states POSITION_INTERFACE_INDEX j) in
    (states, commands)
  else (states, commands).

(** The body shared by the loopback loops: [if (!isnan(c[i][j])) s[i][j] = c[i][j]]. *)
Definition loopback_body (commands : matrix) (i j : nat) (states : matrix) : matrix :=
  if negb (is_nan (cell commands i j))
  then set_cell states i j (cell commands i j) else states.

(** Loopback of the remaining standard rows, from row 2 on. *)
Definition read_loopback (commands states : matrix) : matrix :=
  for_loop_from 2 (length states) (fun i states =>
    for_loop (length (states !!! i)) (loopback_body commands i) states) states.

(** One mimic relation: every row of the follower's column. *)
Definition read_mimic_body (mimic_joint : MimicJoint) (states : matrix) : matrix :=
  for_loop (length states) (fun i states =>
    set_cell states i (joint_index mimic_joint)
      (multiplier mimic_joint * cell states i (mimicked_joint_index mimic_joint)))
    states.

Definition read_mimic (mimic_joints : list MimicJoint) (states : matrix) : matrix :=
  for_each mimic_joints read_mimic_body states.

(** The loop over the non-standard ("other") interfaces. *)
Definition read_other_body (s : GenericSystem) (commands : matrix)
    (i j : nat) (other_states : matrix) : matrix :=
  if (Z.of_nat i =? index_custom_interface_with_following_offset_ s)%Z
     && negb (is_nan (cell commands POSITION_INTERFACE_INDEX j))
  then
    set_cell other_states i j
      (cell commands POSITION_INTERFACE_INDEX j + position_state_following_offset_ s)
  else if negb (is_nan (cell (other_commands_ s) i j))
  then set_cell other_states i j (cell (other_commands_ s) i j)
  else other_states.

Definition read_other (s : GenericSystem) (commands : matrix)
    (other_states : matrix) : matrix :=
  for_loop (length other_states) (fun i other_states =>
    for_loop (length (other_states !!! i)) (read_other_body s commands i)
      other_states) other_states.

(** The loop over the sensor rows, run when fake sensor commands are on. *)
Definition read_sensors (fake_commands sensor_states : matrix) : matrix :=
  for_loop (length sensor_states) (fun i sensor_states =>
    for_loop (length (sensor_states !!! i)) (loopback_body fake_commands i)
      sensor_states) sensor_states.

(** The joint rows after the position, velocity and loopback loops, before
    mimic coupling; with the position commands as the velocity loop left
    them. *)
Definition read_propagate (s : GenericSystem) (period : float) : matrix * matrix :=
  let states :=
    for_loop (length (joint_states_ s !!! POSITION_INTERFACE_INDEX))
      (read_position_body s period) (joint_states_ s) in
  let '(states, commands) :=
    for_loop (length (joint_commands_ s !!! VELOCITY_INTERFACE_INDEX))
      (read_velocity_body s period) (states, joint_commands_ s) in
  (read_loopback commands states, commands).

(** [GenericSystem::read()]; [now] is what [system_clock::now()] returns. *)
Definition read (now : Z) (s : GenericSystem) : return_type * GenericSystem :=
  let begin_last := begin s in
  let begin' := now in
  let period := double_of_count (to_milliseconds (begin' - begin_last)) / 1000.0 in
  let '(states, commands) := read_propagate s period in
  let joint_pos_commands_old := commands !!! POSITION_INTERFACE_INDEX in
  let states := read_mimic (mimic_joints_ s) states in
  let other_states := read_other s commands (other_states_ s) in
  let sensor_states :=
    if fake_sensor_command_interfaces_ s
    then read_sensors (sensor_fake_commands_ s) (sensor_states_ s)
    else sensor_states_ s in
  (OK,
   {| info_ := info_ s;
      fake_sensor_command_interfaces_ := fake_sensor_command_interfaces_ s;
      command_propagation_disabled_ := command_propagation_disabled_ s;
      position_state_following_offset_ := position_state_following_offset_ s;
      custom_interface_with_following_offset_ :=
        custom_interface_with_following_offset_ s;
      index_custom_interface_with_following_offset_ :=
        index_custom_interface_with_following_offset_ s;
      joint_commands_ := commands;
      joint_states_ := states;
      joint_pos_commands_old_ := joint_pos_commands_old;
      other_interfaces_ := other_interfaces_ s;
      other_commands_ := other_commands_ s;
      other_states_ := other_states;
      sensor_interfaces_ := sensor_interfaces_ s;
      sensor_fake_commands_ := sensor_fake_commands_ s;
      sensor_states_ := sensor_states;
      mimic_joints_ := mimic_joints_ s;
      start_modes_ := start_modes_ s;
      stop_modes_ := stop_modes_ s;
      position_controller_running_ := position_controller_running_ s;
      velocity_controller_running_ := velocity_controller_running_ s;
      begin := begin';
      period_ := period |}).


(** The guards of the first two loops of [read], for joint [j] and the
    commands the loop sees. *)
Definition position_active (s : GenericSystem) (j : nat) : bool :=
  negb (is_nan (cell (joint_commands_ s) POSITION_INTERFACE_INDEX j))
  && negb (command_propagation_disabled_ s)
  && position_controller_running_ s.

Definition velocity_active (s : GenericSystem) (j : nat) : bool :=
  negb (is_nan (cell (joint_commands_ s) VELOCITY_INTERFACE_INDEX j))
  && negb (command_propagation_disabled_ s)
  && velocity_controller_running_ s.

(** The offset the position loop adds. *)
Definition position_offset (s : GenericSystem) : float :=
  if bool_decide (custom_interface_with_following_offset_ s = "")
  then position_state_following_offset_ s else 0.0.

(** The joint states after the position, velocity and loopback loops of one
    cycle, before mimic coupling, written cell by cell. *)
Definition propagated_position (s : GenericSystem) (period : float) (j : nat) : float :=
  let p :=
    if position_active s j
    then cell (joint_commands_ s) POSITION_INTERFACE_INDEX j + position_offset s
    else cell (joint_states_ s) POSITION_INTERFACE_INDEX j in
  if velocity_active s j
  then p + cell (joint_commands_ s) VELOCITY_INTERFACE_INDEX j * period
  else p.

Definition propagated_velocity (s : GenericSystem) (period : float) (j : nat) : float :=
  if velocity_active s j
  then cell (joint_commands_ s) VELOCITY_INTERFACE_INDEX j
  else if position_active s j && (1 <? length standard_interfaces_)%nat
  then (cell (joint_commands_ s) POSITION_INTERFACE_INDEX j
        - joint_pos_commands_old_ s !!! j) / period
  else cell (joint_states_ s) VELOCITY_INTERFACE_INDEX j.

Definition propagated_cell (s : GenericSystem) (period : float) (i j : nat) : float :=
  if bool_decide (i = POSITION_INTERFACE_INDEX) then propagated_position s period j
  else if bool_decide (i = VELOCITY_INTERFACE_INDEX) then propagated_velocity s period j
  else if negb (is_nan (cell (joint_commands_ s) i j)) then cell (joint_commands_ s) i j
  else cell (joint_states_ s) i j.

(** The elapsed time that [read] computes when the clock shows [now]. *)
Definition elapsed (now : Z) (s : GenericSystem) : float :=
  double_of_count (to_milliseconds (now - begin s)) / 1000.0.

(** ** Configuration *)

(** [std::stod]: [None] when it throws. *)
Variable stod : string → option float.

Definition stod_or_throw (text : string) : result float :=
  match stod text with
  | Some x => Returns x
  | None => Throws (invalid_argument "stod")
  end.

(** [GenericSystem::initialize_storage_vectors]; [joints] is [info_.joints]. *)
Definition initialize_storage_vectors (joints : list ComponentInfo)
    (commands states : matrix) (interfaces : list string)
    : result (matrix * matrix) :=
  let commands := resize (length interfaces) [] commands in
  let states := resize (length interfaces) [] states in
  let '(commands, states) :=
    for_loop (length interfaces) (fun i '(commands, states) =>
      (alter (resize (length joints) quiet_NaN) i commands,
       alter (resize (length joints) quiet_NaN) i states))
      (commands, states) in
  states ← for_loop_M (length joints) (fun i states =>
    let joint := joints !!! i in
    for_loop_M (length interfaces) (fun j states =>
      match parameters joint !! ("initial_" +:+ interfaces !!! j) with
      | Some text => x ← stod_or_throw text; mret (set_cell states j i x)
      | None => mret states
      end) states) states;
  mret (commands, states).

(** "set all values without initial values to 0" *)
Definition zero_unset_states (joints : list ComponentInfo) (states : matrix) : matrix :=
  for_loop (length joints) (fun i states =>
    for_loop (length standard_interfaces_) (fun j states =>
      if is_nan (cell states j i) then set_cell states j i 0.0 else states)
      states) states.

(** "joint velocity commands to zero" *)
Definition zero_velocity_commands (commands : matrix) : matrix :=
  for_loop (length (commands !!! VELOCITY_INTERFACE_INDEX)) (fun i commands =>
    set_cell commands VELOCITY_INTERFACE_INDEX i 0.0) commands.

(** "Search for mimic joints".  The multiplier of a relation without a
    "multiplier" parameter is the default of the struct, 1.0. *)
Definition find_mimic_joints (joints : list ComponentInfo)
    (mimic_joints : list MimicJoint) : result (list MimicJoint) :=
  for_loop_M (length joints) (fun i mimic_joints =>
    let joint := joints !!! i in
    match parameters joint !! "mimic" with
    | Some mimicked_joint =>
        match list_find (fun joint_info => name joint_info = mimicked_joint) joints with
        | None =>
            Throws (runtime_error (("Mimicked joint '" +:+ mimicked_joint) +:+ "' not found"))
        | Some (mimicked_index, _) =>
            multiplier ←
              match parameters joint !! "multiplier" with
              | Some text => stod_or_throw text
              | None => mret 1.0
              end;
            mret (mimic_joints ++ [ {| joint_index := i;
                                       mimicked_joint_index := mimicked_index;
                                       multiplier := multiplier |} ])
        end
    | None => mret mimic_joints
    end) mimic_joints.

(** "add to list if non-standard interface" *)
Definition add_other_interface (interface : InterfaceInfo)
    (other_interfaces : list string) : list string :=
  if negb (contains standard_interfaces_ (interface_name interface))
  then
    if negb (contains other_interfaces (interface_name interface))
    then other_interfaces ++ [interface_name interface]
    else other_interfaces
  else other_interfaces.

(** "search for non-standard joint interfaces" *)
Definition find_other_interfaces (joints : list ComponentInfo)
    (other_interfaces : list string) : list string :=
  for_each joints (fun joint other_interfaces =>
    let other_interfaces :=
      for_each (command_interfaces joint) add_other_interface other_interfaces in
    for_each (state_interfaces joint) add_other_interface other_interfaces)
    other_interfaces.

Definition find_sensor_interfaces (sensors : list ComponentInfo)
    (sensor_interfaces : list string) : list string :=
  for_each sensors (fun sensor sensor_interfaces =>
    for_each (state_interfaces sensor) (fun interface sensor_interfaces =>
      if negb (contains sensor_interfaces (interface_name interface))
      then sensor_interfaces ++ [interface_name interface]
      else sensor_interfaces) sensor_interfaces) sensor_interfaces.

(** Modelled from the spec: [configure_default] belongs to the base class
    of the backend, which is not part of the sources at hand; it stores the
    resource description in [info_] and returns OK. *)
Definition configure_default (info : HardwareInfo) : return_type * HardwareInfo :=
  (OK, info).

(** [GenericSystem::configure] on a freshly constructed backend (all its
    vectors empty); [now] is what [system_clock::now()] returns.  The
    lookup of "disable_commands" compares against [info.hardware_parameters.end()]
    where the other lookups use [info_]; both are the end of equal maps.
    [configure] does not write [period_], which [read] writes before
    reading it: the value given here is never used. *)
Definition configure (now : Z) (info : HardwareInfo)
    : result (return_type * GenericSystem) :=
  let '(default, info_) := configure_default info in
  if bool_decide (default ≠ OK) then mret (ERROR, fresh_system info_) else
  let fake_sensor_command_interfaces :=
    match hardware_parameters info_ !! "fake_sensor_commands" with
    | Some text => is_true_text text
    | None => false
    end in
  let command_propagation_disabled :=
    match hardware_parameters info_ !! "disable_commands" with
    | Some text => is_true_text text
    | None => false
    end in
  let position_state_following_offset := 0.0 in
  let custom_interface_with_following_offset := "" in
  '(position_state_following_offset, custom_interface_with_following_offset) ←
    match hardware_parameters info_ !! "position_state_following_offset" with
    | Some text =>
        offset ← stod_or_throw text;
        match hardware_parameters info_ !! "custom_interface_with_following_offset" with
        | Some custom => mret (offset, custom)
        | None => mret (offset, custom_interface_with_following_offset)
        end
    | None =>
        mret (position_state_following_offset, custom_interface_with_following_offset)
    end;
  let index_custom_interface_with_following_offset := SIZE_MAX in
  '(joint_commands, joint_states) ←
    initialize_storage_vectors (joints info_) [] [] standard_interfaces_;
  let joint_states := zero_unset_states (joints info_) joint_states in
  let joint_pos_commands_old := joint_commands !!! POSITION_INTERFACE_INDEX in
  let joint_commands := zero_velocity_commands joint_commands in
  mimic_joints ← find_mimic_joints (joints info_) [];
  let other_interfaces := find_other_interfaces (joints info_) [] in
  '(other_commands, other_states) ←
    initialize_storage_vectors (joints info_) [] [] other_interfaces;
  let index_custom_interface_with_following_offset :=
    if negb (bool_decide (custom_interface_with_following_offset = ""))
    then
      match index_of other_interfaces custom_interface_with_following_offset with
      | Some index => Z.of_nat index
      | None => index_custom_interface_with_following_offset
      end
    else index_custom_interface_with_following_offset in
  let sensor_interfaces := find_sensor_interfaces (sensors info_) [] in
  '(sensor_fake_commands, sensor_states) ←
    initialize_storage_vectors (joints info_) [] [] sensor_interfaces;
  mret (OK,
   {| info_ := info_;
      fake_sensor_command_interfaces_ := fake_sensor_command_interfaces;
      command_propagation_disabled_ := command_propagation_disabled;
      position_state_following_offset_ := position_state_following_offset;
      custom_interface_with_following_offset_ :=
        custom_interface_with_following_offset;
      index_custom_interface_with_following_offset_ :=
        index_custom_interface_with_following_offset;
      joint_commands_ := joint_commands;
      joint_states_ := joint_states;
      joint_pos_commands_old_ := joint_pos_commands_old;
      other_interfaces_ := other_interfaces;
      other_commands_ := other_commands;
      other_states_ := other_states;
      sensor_interfaces_ := sensor_interfaces;
      sensor_fake_commands_ := sensor_fake_commands;
      sensor_states_ := sensor_states;
      mimic_joints_ := mimic_joints;
      start_modes_ := replicate 6 HW_IF_POSITION;
      stop_modes_ := replicate 6 NONE;
      position_controller_running_ := false;
      velocity_controller_running_ := false;
      begin := now;
      period_ := 0.0 |}).

(** The value that the parameter "initial_<interface>" of a joint gives to
    a state cell: the converted text, or the unset sentinel when the
    parameter is absent. *)
Definition initial_value (joint : ComponentInfo) (interface : string) : float :=
  match parameters joint !! ("initial_" +:+ interface) with
  | Some text => default quiet_NaN (stod text)
  | None => quiet_NaN
  end.

(** The offset and the name of the custom interface, as [configure] reads
    them from the hardware parameters. *)
Definition following_parameters (info : HardwareInfo) : result (float * string) :=
  match hardware_parameters info !! "position_state_following_offset" with
  | Some text =>
      offset ← stod_or_throw text;
      match hardware_parameters info !! "custom_interface_with_following_offset" with
      | Some custom => mret (offset, custom)
      | None => mret (offset, "")
      end
  | None => mret (0.0, "")
  end.

(** The binding index that [configure] computes. *)
Definition custom_index (other_interfaces : list string) (custom : string) : Z :=
  if negb (bool_decide (custom = ""))
  then
    match index_of other_interfaces custom with
    | Some index => Z.of_nat index
    | None => SIZE_MAX
    end
  else SIZE_MAX.

(** ** Storage slots and the operations of a running backend *)

(** [GenericSystem::get_interface], as the cell its handle points to: the
    row of [interface_name] in [interface_list], the column [vector_index].
    [None] when the name is not in the list (the method returns false). *)
Definition get_interface (interface_list : list string) (interface_name : string)
    (vector_index : nat) : option (nat * nat) :=
  j ← index_of interface_list interface_name; Some (j, vector_index).

(** The cell that [export_state_interfaces] and [export_command_interfaces]
    hand out for an interface of joint [i]: looked up in the standard list
    first, in the other list next; the value is read from the matrices
    given.  [None] when the cell does not exist. *)
Definition joint_slot (s : GenericSystem) (standard_values other_values : matrix)
    (i : nat) (interface : string) : option float :=
  match get_interface standard_interfaces_ interface i with
  | Some (j, i) => standard_values !! j ≫= (fun row => row !! i)
  | None =>
      match get_interface (other_interfaces_ s) interface i with
      | Some (j, i) => other_values !! j ≫= (fun row => row !! i)
      | None => None
      end
  end.

Definition state_slot (s : GenericSystem) (i : nat) (interface : string) : option float :=
  joint_slot s (joint_states_ s) (other_states_ s) i interface.
Definition command_slot (s : GenericSystem) (i : nat) (interface : string) : option float :=
  joint_slot s (joint_commands_ s) (other_commands_ s) i interface.

(** A controller writes [v] through the handle exported for the command
    interface [interface] of joint [i]. *)
Definition write_command (i : nat) (interface : string) (v : float)
    (s : GenericSystem) : GenericSystem :=
  match get_interface standard_interfaces_ interface i with
  | Some (j, i) => set_joint_commands (set_cell (joint_commands_ s) j i v) s
  | None =>
      match get_interface (other_interfaces_ s) interface i with
      | Some (j, i) => set_other_commands (set_cell (other_commands_ s) j i v) s
      | None => s
      end
  end.

(** A controller writes [v] through the handle exported for the fake
    command of the state interface [interface] of sensor [i]. *)
Definition write_fake_sensor_command (i : nat) (interface : string) (v : float)
    (s : GenericSystem) : GenericSystem :=
  match get_interface (sensor_interfaces_ s) interface i with
  | Some (j, i) => set_sensor_fake_commands (set_cell (sensor_fake_commands_ s) j i v) s
  | None => s
  end.

(** One operation on a configured backend: a cycle, a call of the mode gate,
    or a write through an exported command handle. *)
Inductive operation : GenericSystem → GenericSystem → Prop :=
  | op_read now s :
      operation s (read now s).2
  | op_prepare start_interfaces stop_interfaces s :
      operation s (prepare_command_mode_switch start_interfaces stop_interfaces s).2
  | op_perform start_interfaces stop_interfaces s :
      operation s (perform_command_mode_switch start_interfaces stop_interfaces s).2
  | op_write_command i joint interface v s :
      joints (info_ s) !! i = Some joint →
      interface ∈ declared_commands joint →
      operation s (write_command i interface v s)
  | op_write_fake_sensor_command i sensor interface v s :
      fake_sensor_command_interfaces_ s = true →
      sensors (info_ s) !! i = Some sensor →
      interface ∈ declared_states sensor →
      operation s (write_fake_sensor_command i interface v s).

(** The states a backend goes through after [configure] returned [s0]. *)
Definition operates (s0 s : GenericSystem) : Prop := rtc operation s0 s.

(** What holds of a backend from [configure] on. *)
Definition backend_invariant (s : GenericSystem) : Prop :=
  length (joint_states_ s) = length standard_interfaces_
  ∧ wf_joint_storage s
  ∧ wf_other_storage s
  ∧ wf_mimic s
  ∧ StronglySorted lt (followers s)
  ∧ (position_controller_running_ s && velocity_controller_running_ s = false)
  ∧ index_custom_interface_with_following_offset_ s
    = custom_index (other_interfaces_ s) (custom_interface_with_following_offset_ s).

(** A running backend: the standard list holds at least the position and
    the velocity name, [configure] returned OK on [info], and any number of
    operations followed. *)
Definition running (info : HardwareInfo) (s : GenericSystem) : Prop :=
  (2 ≤ length standard_interfaces_)%nat
  ∧ ∃ now s0, configure now info = Returns (OK, s0) ∧ operates s0 s.

(** The resource description without the parameter that names the custom
    interface. *)
Definition without_custom_interface (info : HardwareInfo) : HardwareInfo :=
  {| hardware_parameters :=
       delete "custom_interface_with_following_offset" (hardware_parameters info);
     joints := joints info;
     sensors := sensors info |}.


(** ** Scripts of calls

    A sequence of calls on a configured backend, for evaluating the model
    on a scenario. *)

Inductive call :=
  | call_read (now : Z)
  | call_prepare (start_interfaces stop_interfaces : list string)
  | call_perform (start_interfaces stop_interfaces : list string)
  | call_write_command (i : nat) (interface : string) (v : float).

(** One call; a write goes through only when joint [i] declares the command
    interface (no handle is exported otherwise). *)
Definition run_call (c : call) (s : GenericSystem) : GenericSystem :=
  match c with
  | call_read now => (read now s).2
  | call_prepare start_interfaces stop_interfaces =>
      (prepare_command_mode_switch start_interfaces stop_interfaces s).2
  | call_perform start_interfaces stop_interfaces =>
      (perform_command_mode_switch start_interfaces stop_interfaces s).2
  | call_write_command i interface v =>
      match joints (info_ s) !! i with
      | Some joint =>
          if bool_decide (interface ∈ declared_commands joint)
          then write_command i interface v s else s
      | None => s
      end
  end.

Definition run (calls : list call) (s : GenericSystem) : GenericSystem :=
  for_each calls run_call s.

(** The backend that [configure] leaves; a fresh one when it throws. *)
Definition configured (now : Z) (info : HardwareInfo) : GenericSystem :=
  match configure now info with
  | Returns (_, s) => s
  | Throws _ => fresh_system info
  end.

(** ** Export *)

(** [GenericSystem::get_interface] as the source has it: when
    [interface_name] is in [interface_list], a handle on
    [values[j][vector_index]] is appended to [interfaces] and the method
    returns true; otherwise it returns false. *)
Definition get_interface_handle (name : string) (interface_list : list string)
    (interface_name : string) (vector_index : nat) (values : storage)
    (interfaces : list Handle) : bool * list Handle :=
  match index_of interface_list interface_name with
  | Some j =>
      (true,
       interfaces ++ [ {| handle_name := name;
                          handle_interface_name := interface_name;
                          handle_values := values;
                          handle_row := j;
                          handle_column := vector_index |} ])
  | None => (false, interfaces)
  end.

(** The body of the loops over the interfaces of a joint: "if not in the
    standard list than use other interface list", and throw when it is in
    neither. *)
Definition export_joint_interface (s : GenericSystem) (joint : ComponentInfo)
    (i : nat) (standard_values other_values : storage) (interface : InterfaceInfo)
    (interfaces : list Handle) : result (list Handle) :=
  let '(found, interfaces) :=
    get_interface_handle (name joint) standard_interfaces_ (interface_name interface)
      i standard_values interfaces in
  if negb found then
    let '(found, interfaces) :=
      get_interface_handle (name joint) (other_interfaces_ s) (interface_name interface)
        i other_values interfaces in
    if negb found then
      Throws (runtime_error
        "Interface is not found in the standard nor other list. This should never happen!")
    else mret interfaces
  else mret interfaces.

(** The body of the loops over the state interfaces of a sensor. *)
Definition export_sensor_interface (s : GenericSystem) (sensor : ComponentInfo)
    (i : nat) (values : storage) (interface : InterfaceInfo)
    (interfaces : list Handle) : result (list Handle) :=
  let '(found, interfaces) :=
    get_interface_handle (name sensor) (sensor_interfaces_ s) (interface_name interface)
      i values interfaces in
  if negb found then
    Throws (runtime_error
      "Interface is not found in the standard nor other list. This should never happen!")
  else mret interfaces.

(** [GenericSystem::export_state_interfaces] *)
Definition export_state_interfaces (s : GenericSystem) : result (list Handle) :=
  let state_interfaces_ := [] in
  state_interfaces_ ←
    for_loop_M (length (joints (info_ s))) (fun i state_interfaces_ =>
      let joint := joints (info_ s) !!! i in
      for_each_M (state_interfaces joint)
        (export_joint_interface s joint i joint_states_storage other_states_storage)
        state_interfaces_) state_interfaces_;
  state_interfaces_ ←
    for_loop_M (length (sensors (info_ s))) (fun i state_interfaces_ =>
      let sensor := sensors (info_ s) !!! i in
      for_each_M (state_interfaces sensor)
        (export_sensor_interface s sensor i sensor_states_storage)
        state_interfaces_) state_interfaces_;
  mret state_interfaces_.

(** [GenericSystem::export_command_interfaces] *)
Definition export_command_interfaces (s : GenericSystem) : result (list Handle) :=
  let command_interfaces_ := [] in
  command_interfaces_ ←
    for_loop_M (length (joints (info_ s))) (fun i command_interfaces_ =>
      let joint := joints (info_ s) !!! i in
      for_each_M (command_interfaces joint)
        (export_joint_interface s joint i joint_commands_storage other_commands_storage)
        command_interfaces_) command_interfaces_;
  command_interfaces_ ←
    (if fake_sensor_command_interfaces_ s then
       for_loop_M (length (sensors (info_ s))) (fun i command_interfaces_ =>
         let sensor := sensors (info_ s) !!! i in
         for_each_M (state_interfaces sensor)
           (export_sensor_interface s sensor i sensor_fake_commands_storage)
           command_interfaces_) command_interfaces_
     else mret command_interfaces_);
  mret command_interfaces_.

(** The list of names in which the row of a handle was looked up. *)
Definition names_of (s : GenericSystem) (values : storage) : list string :=
  match values with
  | joint_states_storage | joint_commands_storage => standard_interfaces_
  | other_states_storage | other_commands_storage => other_interfaces_ s
  | sensor_states_storage | sensor_fake_commands_storage => sensor_interfaces_ s
  end.

(** A handle whose row is the row of its interface name. *)
Definition handle_resolved (s : GenericSystem) (h : Handle) : Prop :=
  index_of (names_of s (handle_values h)) (handle_interface_name h)
  = Some (handle_row h).

(** The sensor storage has one row per discovered name; its rows are sized
    like every other storage, with [info_.joints.size()]. *)
Definition wf_sensor_storage (s : GenericSystem) : Prop :=
  rect (length (sensor_interfaces_ s)) (length (joints (info_ s))) (sensor_fake_commands_ s)
  ∧ rect (length (sensor_interfaces_ s)) (length (joints (info_ s))) (sensor_states_ s).
(** * Properties *)

(** ** Loops and matrices *)

Lemma for_loop_S {S : Type} (n : nat) (body : nat → S → S) (s : S) :
  for_loop (Datatypes.S n) body s = body n (for_loop n body s).
Proof.
  unfold for_loop. rewrite seq_S, fold_left_app. reflexivity.
Qed.

(** The invariant rule of a counted loop. *)
Lemma for_loop_ind {S : Type} (P : nat → S → Prop) (n : nat)
    (body : nat → S → S) (s : S) :
  P 0%nat s →
  (∀ k acc, (k < n)%nat → P k acc → P (Datatypes.S k) (body k acc)) →
  P n (for_loop n body s).
Proof.
  intros H0 Hstep. induction n as [|n IH]; [exact H0|].
  rewrite for_loop_S. apply Hstep; [lia|]. apply IH.
  intros k acc Hk. apply Hstep. lia.
Qed.

(** The same rule for a loop that starts at [from]. *)
Lemma for_loop_from_ind {S : Type} (P : nat → S → Prop) (from n : nat)
    (body : nat → S → S) (s : S) :
  P from s →
  (∀ k acc, (from ≤ k < n)%nat → P k acc → P (Datatypes.S k) (body k acc)) →
  P (Nat.max from n) (for_loop_from from n body s).
Proof.
  intros H0 Hstep. unfold for_loop_from.
  assert (Hgen : ∀ d, (from + d ≤ Nat.max from n)%nat →
    P (from + d)%nat (fold_left (fun acc k => body k acc) (seq from d) s)).
  { induction d as [|d IH]; intros Hd.
    - rewrite Nat.add_0_r. exact H0.
    - rewrite seq_S, fold_left_app. simpl.
      replace (from + Datatypes.S d)%nat with (Datatypes.S (from + d)) by lia.
      apply Hstep; [lia|]. apply IH. lia. }
  replace (Nat.max from n) with (from + (n - from))%nat by lia.
  apply Hgen. lia.
Qed.

(** The invariant rule of a range-based loop. *)
Lemma for_each_ind {A S : Type} (P : list A → S → Prop) (xs : list A)
    (body : A → S → S) (s : S) :
  P [] s →
  (∀ done x acc, P done acc → P (done ++ [x]) (body x acc)) →
  P xs (for_each xs body s).
Proof.
  intros H0 Hstep. unfold for_each.
  induction xs as [|x xs IH] using rev_ind; [exact H0|].
  rewrite fold_left_app. simpl. apply Hstep, IH.
Qed.

Lemma length_set_cell (m : matrix) (i j : nat) (v : float) :
  length (set_cell m i j v) = length m.
Proof. unfold set_cell. apply length_alter. Qed.

Lemma row_length_set_cell (m : matrix) (i j : nat) (v : float) (i' : nat) :
  length (set_cell m i j v !!! i') = length (m !!! i').
Proof.
  unfold set_cell. rewrite list_lookup_total_alter.
  case_decide as H; [|reflexivity].
  destruct H as [-> _]. apply length_insert.
Qed.

Lemma cell_set_cell_eq (m : matrix) (i j : nat) (v : float) :
  (i < length m)%nat → (j < length (m !!! i))%nat →
  cell (set_cell m i j v) i j = v.
Proof.
  intros Hi Hj. unfold cell, set_cell.
  rewrite list_lookup_total_alter_eq by exact Hi.
  apply list_lookup_total_insert_eq, Hj.
Qed.

Lemma cell_set_cell_ne (m : matrix) (i j : nat) (v : float) (i' j' : nat) :
  ¬ (i = i' ∧ j = j') →
  cell (set_cell m i j v) i' j' = cell m i' j'.
Proof.
  intros Hne. unfold cell, set_cell.
  rewrite list_lookup_total_alter.
  case_decide as H; [|reflexivity].
  destruct H as [-> _].
  apply list_lookup_total_insert_ne. intros ->. apply Hne. split; reflexivity.
Qed.

Lemma cell_set_cell (m : matrix) (i j : nat) (v : float) (i' j' : nat) :
  (i < length m)%nat → (j < length (m !!! i))%nat →
  cell (set_cell m i j v) i' j'
  = if decide (i = i' ∧ j = j') then v else cell m i' j'.
Proof.
  intros Hi Hj. case_decide as H.
  - destruct H as [<- <-]. apply cell_set_cell_eq; assumption.
  - apply cell_set_cell_ne, H.
Qed.

Lemma same_shape_refl (m : matrix) : same_shape m m.
Proof. split; reflexivity. Qed.

Lemma same_shape_trans (m1 m2 m3 : matrix) :
  same_shape m1 m2 → same_shape m2 m3 → same_shape m1 m3.
Proof.
  intros [H1 H1'] [H2 H2']. split; [congruence|].
  intros i. rewrite H1'. apply H2'.
Qed.

Lemma same_shape_set_cell (m : matrix) (i j : nat) (v : float) :
  same_shape (set_cell m i j v) m.
Proof.
  split; [apply length_set_cell|]. intros i'. apply row_length_set_cell.
Qed.

Lemma rect_row_length (rows cols : nat) (m : matrix) (i : nat) :
  rect rows cols m → (i < rows)%nat → length (m !!! i) = cols.
Proof.
  intros [Hlen Hall] Hi. rewrite Forall_lookup in Hall.
  apply (Hall i). apply list_lookup_lookup_total_lt. lia.
Qed.

Lemma rect_same_shape (rows cols : nat) (m m' : matrix) :
  same_shape m' m → rect rows cols m → rect rows cols m'.
Proof.
  intros [Hlen Hrows] [Hr Hall]. split; [congruence|].
  rewrite Forall_lookup. intros i row Hrow.
  pose proof (lookup_lt_Some _ _ _ Hrow) as Hi.
  apply list_lookup_total_correct in Hrow. rewrite <- Hrow, Hrows.
  rewrite Forall_lookup in Hall. apply (Hall i).
  apply list_lookup_lookup_total_lt. lia.
Qed.

(** A loop that writes [f j] into cell [j] of row [r], for [j] below [n]. *)
Lemma for_loop_write_row (m : matrix) (r n : nat) (f : nat → float) :
  (r < length m)%nat → (n ≤ length (m !!! r))%nat →
  same_shape (for_loop n (fun j acc => set_cell acc r j (f j)) m) m
  ∧ ∀ i j, cell (for_loop n (fun j acc => set_cell acc r j (f j)) m) i j
           = if decide (i = r ∧ (j < n)%nat) then f j else cell m i j.
Proof.
  intros Hr Hn.
  set (P := fun (k : nat) (acc : matrix) =>
    same_shape acc m
    ∧ ∀ i j, cell acc i j = if decide (i = r ∧ (j < k)%nat) then f j else cell m i j).
  apply (for_loop_ind P); unfold P; clear P.
  - split; [apply same_shape_refl|]. intros i j.
    case_decide as H; [lia|reflexivity].
  - intros k acc Hk [Hshape Hcells]. split.
    + eapply same_shape_trans; [apply same_shape_set_cell|exact Hshape].
    + intros i j. destruct Hshape as [Hlen Hrows].
      rewrite cell_set_cell by (rewrite ?Hrows; lia).
      rewrite Hcells. repeat case_decide; try reflexivity; try lia.
      destruct H as [-> ->]. reflexivity.
Qed.

(** ** CommandModeGate: perform *)

Lemma contains_nonempty {A : Type} `{EqDecision A} (v : list A) (x : A) :
  (negb (length v =? 0)%nat && contains v x) = contains v x.
Proof.
  destruct v as [|y v]; [|reflexivity].
  unfold contains.
  rewrite (bool_decide_eq_false_2 (x ∈ [])) by apply not_elem_of_nil.
  reflexivity.
Qed.

(** What [perform] does, on storage of the right shape. *)
Lemma perform_command_mode_switch_cells
    (start_interfaces stop_interfaces : list string) (s : GenericSystem) :
  wf_joint_storage s →
  let r := perform_command_mode_switch start_interfaces stop_interfaces s in
  r.1 = OK
  ∧ joint_states_ r.2 = joint_states_ s
  ∧ same_shape (joint_commands_ r.2) (joint_commands_ s)
  ∧ if contains (start_modes_ s) HW_IF_POSITION then
      position_controller_running_ r.2 = true
      ∧ velocity_controller_running_ r.2 = false
      ∧ ∀ j, (j < length (joints (info_ s)))%nat →
          cell (joint_commands_ r.2) POSITION_INTERFACE_INDEX j
          = cell (joint_states_ s) POSITION_INTERFACE_INDEX j
    else if contains (start_modes_ s) HW_IF_VELOCITY then
      position_controller_running_ r.2 = false
      ∧ velocity_controller_running_ r.2 = true
      ∧ ∀ j, (j < length (joints (info_ s)))%nat →
          cell (joint_commands_ r.2) VELOCITY_INTERFACE_INDEX j = 0.0
    else
      position_controller_running_ r.2 = false
      ∧ velocity_controller_running_ r.2 = false
      ∧ joint_commands_ r.2 = joint_commands_ s.
Proof.
  intros (Hrows & Hst & Hcmd & Hold). cbv zeta.
  unfold perform_command_mode_switch.
  rewrite !contains_nonempty.
  pose proof (proj1 Hcmd) as Hlen.
  destruct (contains (start_modes_ s) HW_IF_POSITION) eqn:Hpos;
    [|destruct (contains (start_modes_ s) HW_IF_VELOCITY) eqn:Hvel]; simpl.
  - destruct (for_loop_write_row (joint_commands_ s) POSITION_INTERFACE_INDEX
      (length (joint_commands_ s !!! POSITION_INTERFACE_INDEX))
      (fun i => cell (joint_states_ s) POSITION_INTERFACE_INDEX i)) as [Hshape Hcells];
      [unfold POSITION_INTERFACE_INDEX; lia|lia|].
    repeat split; try apply Hshape.
    intros j Hj. rewrite Hcells.
    rewrite (rect_row_length _ _ _ _ Hcmd) by (unfold POSITION_INTERFACE_INDEX; lia).
    case_decide as H; [reflexivity|]. exfalso. apply H. split; [reflexivity|lia].
  - destruct (for_loop_write_row (joint_commands_ s) VELOCITY_INTERFACE_INDEX
      (length (joint_commands_ s !!! VELOCITY_INTERFACE_INDEX))
      (fun _ => 0.0)) as [Hshape Hcells];
      [unfold VELOCITY_INTERFACE_INDEX; lia|lia|].
    repeat split; try apply Hshape.
    intros j Hj. rewrite Hcells.
    rewrite (rect_row_length _ _ _ _ Hcmd) by (unfold VELOCITY_INTERFACE_INDEX; lia).
    case_decide as H; [reflexivity|]. exfalso. apply H. split; [reflexivity|lia].
  - repeat split.
Qed.

(** ** CommandModeGate: prepare *)

Lemma push_modes_app {M : Type} (pos vel : M) (key : string)
    (joint : ComponentInfo) (modes : list M) :
  push_modes pos vel key joint modes = modes ++ key_modes pos vel key joint.
Proof.
  unfold push_modes, key_modes, position_key, velocity_key.
  repeat case_bool_decide; simpl; rewrite <- ?app_assoc, ?app_nil_r; reflexivity.
Qed.

Lemma for_each_push {A M : Type} (xs : list A) (body : A → list M → list M)
    (f : A → list M) (init : list M) :
  (∀ x acc, body x acc = acc ++ f x) →
  for_each xs body init = init ++ flat_map f xs.
Proof.
  intros Hbody. unfold for_each. revert init.
  induction xs as [|x xs IH]; intros init; simpl.
  - rewrite app_nil_r. reflexivity.
  - rewrite IH, Hbody, <- app_assoc. reflexivity.
Qed.

(** The nested loops of [prepare], as the list they build. *)
Lemma collect_modes_flat_map {M : Type} (pos vel : M)
    (joints : list ComponentInfo) (keys : list string) :
  collect_modes pos vel joints keys
  = flat_map (fun key => flat_map (key_modes pos vel key) joints) keys.
Proof.
  unfold collect_modes.
  rewrite (for_each_push keys _ (fun key => flat_map (key_modes pos vel key) joints)).
  - reflexivity.
  - intros key acc. apply for_each_push. intros joint acc'. apply push_modes_app.
Qed.

Lemma elem_of_collect_modes {M : Type} (pos vel : M)
    (joints : list ComponentInfo) (keys : list string) (x : M) :
  x ∈ collect_modes pos vel joints keys
  ↔ ∃ joint, joint ∈ joints
      ∧ ((x = pos ∧ position_key joint ∈ keys) ∨ (x = vel ∧ velocity_key joint ∈ keys)).
Proof.
  rewrite collect_modes_flat_map, list_elem_of_In, in_flat_map. split.
  - intros (key & Hkey & Hin). apply in_flat_map in Hin as (joint & Hjoint & Hx).
    exists joint. rewrite list_elem_of_In. split; [exact Hjoint|].
    unfold key_modes in Hx. apply in_app_or in Hx.
    rewrite <- !list_elem_of_In in *.
    destruct Hx as [Hx|Hx]; case_bool_decide; subst;
      try (apply elem_of_nil in Hx; contradiction);
      apply list_elem_of_singleton in Hx; subst; auto.
  - intros (joint & Hjoint & Hx).
    destruct Hx as [[-> Hk]|[-> Hk]].
    + exists (position_key joint). rewrite <- list_elem_of_In. split; [exact Hk|].
      apply in_flat_map. exists joint. rewrite <- !list_elem_of_In.
      split; [exact Hjoint|]. unfold key_modes.
      rewrite bool_decide_eq_true_2 by reflexivity. set_solver.
    + exists (velocity_key joint). rewrite <- list_elem_of_In. split; [exact Hk|].
      apply in_flat_map. exists joint. rewrite <- !list_elem_of_In.
      split; [exact Hjoint|]. unfold key_modes.
      rewrite (bool_decide_eq_true_2 (velocity_key joint = velocity_key joint))
        by reflexivity.
      set_solver.
Qed.

(** [std::equal(v.begin() + 1, v.end(), v.begin())] holds exactly when all
    the elements of [v] are the same. *)
Lemma std_equal_shifted {A : Type} `{EqDecision A} (x : A) (v : list A) :
  std_equal v (x :: v) = true ↔ ∀ y, y ∈ v → y = x.
Proof.
  revert x. induction v as [|z v IH]; intros x; simpl.
  - split; [|reflexivity]. intros _ y Hy. apply elem_of_nil in Hy. contradiction.
  - rewrite andb_true_iff, bool_decide_eq_true, IH. split.
    + intros [-> Hall] y Hy. apply elem_of_cons in Hy as [->|Hy]; [reflexivity|].
      apply Hall, Hy.
    + intros Hall. assert (z = x) as -> by (apply Hall; left).
      split; [reflexivity|]. intros y Hy. apply Hall. right. exact Hy.
Qed.

Lemma std_equal_tail {A : Type} `{EqDecision A} (v : list A) :
  std_equal (tail v) v = true ↔ ∀ x y, x ∈ v → y ∈ v → x = y.
Proof.
  destruct v as [|z v]; simpl.
  - split; [|reflexivity]. intros _ x y Hx. apply elem_of_nil in Hx. contradiction.
  - rewrite std_equal_shifted. split.
    + intros Hall x y Hx Hy.
      assert (Hz : ∀ w, w ∈ z :: v → w = z).
      { intros w Hw. apply elem_of_cons in Hw as [->|Hw]; [reflexivity|]. apply Hall, Hw. }
      rewrite (Hz x Hx), (Hz y Hy). reflexivity.
    + intros Hall y Hy. apply Hall; [right; exact Hy|left].
Qed.

(** A request that mixes the two modes yields a non-empty list of modes that
    are not all the same. *)
Lemma collect_modes_mixed {M : Type} `{EqDecision M} (pos vel : M)
    (joints : list ComponentInfo) (keys : list string) :
  pos ≠ vel → mixes_modes joints keys →
  length (collect_modes pos vel joints keys) ≠ 0%nat
  ∧ std_equal (tail (collect_modes pos vel joints keys))
      (collect_modes pos vel joints keys) = false.
Proof.
  intros Hne [(j1 & Hj1 & Hk1) (j2 & Hj2 & Hk2)].
  assert (Hpos : pos ∈ collect_modes pos vel joints keys).
  { apply elem_of_collect_modes. exists j1. auto. }
  assert (Hvel : vel ∈ collect_modes pos vel joints keys).
  { apply elem_of_collect_modes. exists j2. auto. }
  split.
  - intros Hlen. apply nil_length_inv in Hlen. rewrite Hlen in Hpos.
    apply elem_of_nil in Hpos. contradiction.
  - apply not_true_is_false. intros Heq. apply Hne.
    apply (proj1 (std_equal_tail _) Heq); assumption.
Qed.

(** Counting: the modes collected over [joint :: joints] are those of
    [joint] plus those of [joints]. *)
Lemma length_collect_modes_cons {M : Type} (pos vel : M) (joint : ComponentInfo)
    (joints : list ComponentInfo) (keys : list string) :
  length (collect_modes pos vel (joint :: joints) keys)
  = (length (collect_modes pos vel [joint] keys)
     + length (collect_modes pos vel joints keys))%nat.
Proof.
  rewrite !collect_modes_flat_map.
  induction keys as [|key keys IH]; simpl in *; [reflexivity|].
  rewrite ?length_app, IH, ?length_app. simpl. lia.
Qed.

(** A duplicate-free request holds a given key at most once. *)
Lemma length_flat_map_key {M : Type} (x : M) (target : string) (keys : list string) :
  NoDup keys →
  length (flat_map (fun key => if bool_decide (key = target) then [x] else []) keys)
  = if bool_decide (target ∈ keys) then 1%nat else 0%nat.
Proof.
  induction 1 as [|key keys Hnotin Hnodup IH]; simpl.
  - reflexivity.
  - rewrite length_app, IH. clear IH.
    destruct (decide (key = target)) as [->|Hk].
    + rewrite (bool_decide_eq_false_2 (target ∈ keys)) by exact Hnotin.
      rewrite !bool_decide_eq_true_2 by (reflexivity || left). reflexivity.
    + rewrite (bool_decide_eq_false_2 (key = target)) by exact Hk. simpl.
      rewrite (bool_decide_ext (target ∈ keys) (target ∈ key :: keys));
        [reflexivity|].
      rewrite elem_of_cons. split;
        [intros ?; right; assumption|intros [Heq|?]; [congruence|assumption]].
Qed.

Lemma length_collect_modes_one {M : Type} (pos vel : M) (joint : ComponentInfo)
    (keys : list string) :
  NoDup keys →
  length (collect_modes pos vel [joint] keys)
  = ((if bool_decide (position_key joint ∈ keys) then 1 else 0)
     + (if bool_decide (velocity_key joint ∈ keys) then 1 else 0))%nat.
Proof.
  intros Hnodup. rewrite collect_modes_flat_map.
  rewrite <- (length_flat_map_key pos _ keys Hnodup),
          <- (length_flat_map_key vel _ keys Hnodup).
  clear Hnodup. induction keys as [|key keys IH]; simpl in *; [reflexivity|].
  rewrite !length_app, IH. unfold key_modes. rewrite length_app. simpl. lia.
Qed.

(** When the request does not mix the modes and has no duplicate, the
    number of collected modes is bounded by the number of joints, strictly
    when some joint of the group is not named. *)
Lemma length_collect_modes_bound {M : Type} (pos vel : M)
    (joints : list ComponentInfo) (keys : list string) :
  NoDup keys →
  (∀ joint, joint ∈ joints →
     ¬ (position_key joint ∈ keys ∧ velocity_key joint ∈ keys)) →
  (length (collect_modes pos vel joints keys) ≤ length joints)%nat
  ∧ ((∃ joint, joint ∈ joints ∧ ¬ joint_named keys joint) →
     (length (collect_modes pos vel joints keys) < length joints)%nat).
Proof.
  intros Hnodup. induction joints as [|joint joints IH]; intros Hmix.
  - assert (Hnil : collect_modes pos vel [] keys = []).
    { rewrite collect_modes_flat_map. clear.
      induction keys as [|k ks IHk]; simpl; [reflexivity|exact IHk]. }
    rewrite Hnil. split; [simpl; lia|].
    intros (joint & Hin & _). apply elem_of_nil in Hin. contradiction.
  - rewrite length_collect_modes_cons, length_collect_modes_one by exact Hnodup.
    destruct IH as [IHle IHlt].
    { intros j Hj. apply Hmix. right. exact Hj. }
    pose proof (Hmix joint ltac:(left)) as Hone.
    simpl length. split.
    + repeat case_bool_decide; try lia. exfalso. apply Hone. split; assumption.
    + intros (j0 & Hj0 & Hunnamed). apply elem_of_cons in Hj0 as [->|Hj0].
      * unfold joint_named in Hunnamed.
        rewrite !bool_decide_eq_false_2 by tauto. simpl. lia.
      * specialize (IHlt (ex_intro _ j0 (conj Hj0 Hunnamed))).
        repeat case_bool_decide; try lia. exfalso. apply Hone. split; assumption.
Qed.

(** A duplicate-free request that names only part of the joint group yields
    a non-empty list of modes that is rejected: too short, or mixed. *)
Lemma collect_modes_partial {M : Type} `{EqDecision M} (pos vel : M)
    (joints : list ComponentInfo) (keys : list string) :
  pos ≠ vel → NoDup keys → names_partial_group joints keys →
  length (collect_modes pos vel joints keys) ≠ 0%nat
  ∧ (length (collect_modes pos vel joints keys) ≠ length joints
     ∨ std_equal (tail (collect_modes pos vel joints keys))
         (collect_modes pos vel joints keys) = false).
Proof.
  intros Hne Hnodup [(j1 & Hj1 & Hnamed) Hout]. split.
  - intros Hlen. apply nil_length_inv in Hlen.
    assert (Hin : (∃ x : M, x ∈ collect_modes pos vel joints keys)).
    { destruct Hnamed as [Hk|Hk].
      - exists pos. apply elem_of_collect_modes. exists j1. auto.
      - exists vel. apply elem_of_collect_modes. exists j1. auto. }
    destruct Hin as [x Hx]. rewrite Hlen in Hx. apply elem_of_nil in Hx. contradiction.
  - destruct (std_equal (tail (collect_modes pos vel joints keys))
                (collect_modes pos vel joints keys)) eqn:Heq; [left|right; reflexivity].
    pose proof (proj1 (std_equal_tail _) Heq) as Hall.
    destruct (length_collect_modes_bound pos vel joints keys Hnodup) as [_ Hlt].
    + intros joint Hjoint [Hp Hv]. apply Hne. apply Hall.
      * apply elem_of_collect_modes. exists joint. auto.
      * apply elem_of_collect_modes. exists joint. auto.
    + specialize (Hlt Hout). lia.
Qed.

Lemma HW_IF_modes_differ : HW_IF_POSITION ≠ HW_IF_VELOCITY.
Proof. discriminate. Qed.

(** C6 (amended): for every prepare call, (a) it returns ERROR when the
    start request mixes the two control modes among the joint group, that
    is, holds the position interface of some joint and the velocity
    interface of some joint, whatever else the request holds; (b) it
    returns ERROR when the start request, or the stop request, holds no
    interface name twice and names some joint of the group but not all of
    them, a joint being named by its position or its velocity interface
    ("<joint>/position", "<joint>/velocity": every other name in a request
    is ignored and names no joint); and (c) whatever it returns, and for
    every request, it leaves the mode flags and every command and state
    value as they were (it rewrites only the scratch lists [start_modes_]
    and [stop_modes_]). *)
Theorem prepare_command_mode_switch_validates
    (start_interfaces stop_interfaces : list string) (s : GenericSystem) :
  let r := prepare_command_mode_switch start_interfaces stop_interfaces s in
  (mixes_modes (joints (info_ s)) start_interfaces → r.1 = ERROR)
  ∧ (NoDup start_interfaces →
     names_partial_group (joints (info_ s)) start_interfaces → r.1 = ERROR)
  ∧ (NoDup stop_interfaces →
     names_partial_group (joints (info_ s)) stop_interfaces → r.1 = ERROR)
  ∧ position_controller_running_ r.2 = position_controller_running_ s
  ∧ velocity_controller_running_ r.2 = velocity_controller_running_ s
  ∧ joint_commands_ r.2 = joint_commands_ s
  ∧ joint_states_ r.2 = joint_states_ s
  ∧ joint_pos_commands_old_ r.2 = joint_pos_commands_old_ s
  ∧ other_commands_ r.2 = other_commands_ s
  ∧ other_states_ r.2 = other_states_ s
  ∧ sensor_fake_commands_ r.2 = sensor_fake_commands_ s
  ∧ sensor_states_ r.2 = sensor_states_ s.
Proof.
  cbv zeta. unfold prepare_command_mode_switch. cbn [fst snd].
  set (start_modes := collect_modes HW_IF_POSITION HW_IF_VELOCITY _ _).
  set (stop_modes := collect_modes STOP_POSITION STOP_VELOCITY _ _).
  split; [|split; [|split; [|repeat split]]].
  - intros Hmix.
    destruct (collect_modes_mixed HW_IF_POSITION HW_IF_VELOCITY _ _
                HW_IF_modes_differ Hmix) as [Hlen Heq].
    fold start_modes in Hlen, Heq. rewrite Heq.
    apply Nat.eqb_neq in Hlen. rewrite Hlen. simpl.
    repeat (match goal with |- context [if ?b then _ else _] => destruct b end);
      reflexivity.
  - intros Hstart Hpart.
    destruct (collect_modes_partial HW_IF_POSITION HW_IF_VELOCITY _ _
                HW_IF_modes_differ Hstart Hpart) as [Hlen Hrej].
    fold start_modes in Hlen, Hrej.
    apply Nat.eqb_neq in Hlen. rewrite Hlen. simpl.
    destruct Hrej as [Hn|Heq].
    + apply Nat.eqb_neq in Hn. rewrite Hn. simpl.
      repeat (match goal with |- context [if ?b then _ else _] => destruct b end);
        reflexivity.
    + rewrite Heq. simpl.
      repeat (match goal with |- context [if ?b then _ else _] => destruct b end);
        reflexivity.
  - intros Hstop Hpart.
    destruct (collect_modes_partial STOP_POSITION STOP_VELOCITY _ _
                ltac:(discriminate) Hstop Hpart) as [Hlen Hrej].
    fold stop_modes in Hlen, Hrej.
    apply Nat.eqb_neq in Hlen. rewrite Hlen.
    destruct Hrej as [Hn|Heq].
    + apply Nat.eqb_neq in Hn. rewrite Hn. reflexivity.
    + rewrite Heq. rewrite orb_true_r. reflexivity.
Qed.

(** ** SimulationStepper: the loops of read, cell by cell *)

Ltac cell_cases :=
  repeat (case_decide || case_bool_decide);
  destruct_and?; subst;
  try reflexivity; try lia; try congruence; try tauto.

(** The position loop writes the position row (and the velocity row when
    there is more than one standard interface) of the active joints. *)
Lemma read_position_loop (s : GenericSystem) (period : float) (n : nat)
    (states : matrix) :
  (2 ≤ length states)%nat →
  (n ≤ length (states !!! POSITION_INTERFACE_INDEX))%nat →
  (n ≤ length (states !!! VELOCITY_INTERFACE_INDEX))%nat →
  same_shape (for_loop n (read_position_body s period) states) states
  ∧ ∀ i j, cell (for_loop n (read_position_body s period) states) i j
      = if bool_decide (j < n)%nat && position_active s j then
          if bool_decide (i = POSITION_INTERFACE_INDEX) then
            cell (joint_commands_ s) POSITION_INTERFACE_INDEX j + position_offset s
          else if bool_decide (i = VELOCITY_INTERFACE_INDEX)
                  && (1 <? length standard_interfaces_)%nat then
            (cell (joint_commands_ s) POSITION_INTERFACE_INDEX j
             - joint_pos_commands_old_ s !!! j) / period
          else cell states i j
        else cell states i j.
Proof.
  intros Hrows Hpos Hvel.
  set (P := fun (k : nat) (acc : matrix) =>
    same_shape acc states
    ∧ ∀ i j, cell acc i j
      = if bool_decide (j < k)%nat && position_active s j then
          if bool_decide (i = POSITION_INTERFACE_INDEX) then
            cell (joint_commands_ s) POSITION_INTERFACE_INDEX j + position_offset s
          else if bool_decide (i = VELOCITY_INTERFACE_INDEX)
                  && (1 <? length standard_interfaces_)%nat then
            (cell (joint_commands_ s) POSITION_INTERFACE_INDEX j
             - joint_pos_commands_old_ s !!! j) / period
          else cell states i j
        else cell states i j).
  apply (for_loop_ind P); unfold P; clear P.
  - split; [apply same_shape_refl|]. intros i j.
    rewrite bool_decide_eq_false_2 by lia. reflexivity.
  - intros k acc Hk [Hshape Hcells].
    unfold read_position_body. fold (position_active s k). fold (position_offset s).
    destruct Hshape as [Hlen Hrow].
    destruct (position_active s k) eqn:Hact;
      [destruct (1 <? length standard_interfaces_)%nat eqn:Hstd|].
    + split.
      { eapply same_shape_trans; [apply same_shape_set_cell|].
        eapply same_shape_trans; [apply same_shape_set_cell|]. split; assumption. }
      intros i j.
      rewrite cell_set_cell
        by (rewrite ?length_set_cell, ?row_length_set_cell, ?Hrow;
            unfold VELOCITY_INTERFACE_INDEX in *; lia).
      rewrite cell_set_cell
        by (rewrite ?Hrow; unfold POSITION_INTERFACE_INDEX in *; lia).
      rewrite Hcells. unfold POSITION_INTERFACE_INDEX, VELOCITY_INTERFACE_INDEX in *.
      destruct (decide (j = k)) as [->|Hjk].
      * rewrite Hact. cell_cases.
      * destruct (position_active s j); rewrite ?andb_true_r, ?andb_false_r;
          cell_cases.
    + split.
      { eapply same_shape_trans; [apply same_shape_set_cell|]. split; assumption. }
      intros i j.
      rewrite cell_set_cell
        by (rewrite ?Hrow; unfold POSITION_INTERFACE_INDEX in *; lia).
      rewrite Hcells. unfold POSITION_INTERFACE_INDEX, VELOCITY_INTERFACE_INDEX in *.
      destruct (decide (j = k)) as [->|Hjk].
      * rewrite Hact. rewrite !andb_false_r. cell_cases.
      * destruct (position_active s j); rewrite ?andb_true_r, ?andb_false_r;
          cell_cases.
    + split; [split; assumption|].
      intros i j. rewrite Hcells.
      destruct (decide (j = k)) as [->|Hjk].
      * rewrite Hact, !andb_false_r.
        destruct (bool_decide (k < k)%nat); reflexivity.
      * destruct (position_active s j); rewrite ?andb_true_r, ?andb_false_r;
          cell_cases.
Qed.

(** The velocity loop integrates the active joints, copies the velocity
    command into the velocity state and the new position state into the
    position command. *)
Lemma read_velocity_loop (s : GenericSystem) (period : float) (n : nat)
    (states : matrix) :
  (2 ≤ length states)%nat →
  (2 ≤ length (joint_commands_ s))%nat →
  (n ≤ length (states !!! POSITION_INTERFACE_INDEX))%nat →
  (n ≤ length (states !!! VELOCITY_INTERFACE_INDEX))%nat →
  (n ≤ length (joint_commands_ s !!! POSITION_INTERFACE_INDEX))%nat →
  let r := for_loop n (read_velocity_body s period) (states, joint_commands_ s) in
  same_shape r.1 states
  ∧ same_shape r.2 (joint_commands_ s)
  ∧ (∀ i j, cell r.1 i j
      = if bool_decide (j < n)%nat && velocity_active s j then
          if bool_decide (i = POSITION_INTERFACE_INDEX) then
            cell states POSITION_INTERFACE_INDEX j
            + cell (joint_commands_ s) VELOCITY_INTERFACE_INDEX j * period
          else if bool_decide (i = VELOCITY_INTERFACE_INDEX) then
            cell (joint_commands_ s) VELOCITY_INTERFACE_INDEX j
          else cell states i j
        else cell states i j)
  ∧ (∀ i j, cell r.2 i j
      = if bool_decide (j < n)%nat && velocity_active s j
           && bool_decide (i = POSITION_INTERFACE_INDEX) then
          cell states POSITION_INTERFACE_INDEX j
          + cell (joint_commands_ s) VELOCITY_INTERFACE_INDEX j * period
        else cell (joint_commands_ s) i j).
Proof.
  intros Hrows Hcrows Hpos Hvel Hcpos. cbv zeta.
  set (P := fun (k : nat) (acc : matrix * matrix) =>
    same_shape acc.1 states
    ∧ same_shape acc.2 (joint_commands_ s)
    ∧ (∀ i j, cell acc.1 i j
        = if bool_decide (j < k)%nat && velocity_active s j then
            if bool_decide (i = POSITION_INTERFACE_INDEX) then
              cell states POSITION_INTERFACE_INDEX j
              + cell (joint_commands_ s) VELOCITY_INTERFACE_INDEX j * period
            else if bool_decide (i = VELOCITY_INTERFACE_INDEX) then
              cell (joint_commands_ s) VELOCITY_INTERFACE_INDEX j
            else cell states i j
          else cell states i j)
    ∧ (∀ i j, cell acc.2 i j
        = if bool_decide (j < k)%nat && velocity_active s j
             && bool_decide (i = POSITION_INTERFACE_INDEX) then
            cell states POSITION_INTERFACE_INDEX j
            + cell (joint_commands_ s) VELOCITY_INTERFACE_INDEX j * period
          else cell (joint_commands_ s) i j)).
  apply (for_loop_ind P); unfold P; clear P.
  - repeat split; intros; rewrite ?bool_decide_eq_false_2 by lia; reflexivity.
  - intros k [st cm] Hk ([Hlen Hrow] & [Hclen Hcrow] & Hst & Hcm). simpl in *.
    assert (Hguard : cell cm VELOCITY_INTERFACE_INDEX k
                     = cell (joint_commands_ s) VELOCITY_INTERFACE_INDEX k).
    { rewrite Hcm. unfold POSITION_INTERFACE_INDEX, VELOCITY_INTERFACE_INDEX.
      rewrite (bool_decide_eq_false_2 (1 = 0)%nat) by lia.
      rewrite andb_false_r. reflexivity. }
    assert (Hold : cell st POSITION_INTERFACE_INDEX k = cell states POSITION_INTERFACE_INDEX k).
    { rewrite Hst. rewrite bool_decide_eq_false_2 by lia. reflexivity. }
    rewrite Hguard. fold (velocity_active s k).
    destruct (velocity_active s k) eqn:Hact; simpl.
    + split; [|split; [|split]].
      { eapply same_shape_trans; [apply same_shape_set_cell|].
        eapply same_shape_trans; [apply same_shape_set_cell|]. split; assumption. }
      { eapply same_shape_trans; [apply same_shape_set_cell|]. split; assumption. }
      * intros i j.
        rewrite cell_set_cell
          by (rewrite ?length_set_cell, ?row_length_set_cell, ?Hrow;
              unfold VELOCITY_INTERFACE_INDEX in *; lia).
        rewrite cell_set_cell
          by (rewrite ?Hrow; unfold POSITION_INTERFACE_INDEX in *; lia).
        rewrite ?Hold, Hst.
        unfold POSITION_INTERFACE_INDEX, VELOCITY_INTERFACE_INDEX in *.
        destruct (decide (j = k)) as [->|Hjk].
        -- rewrite Hact. cell_cases.
        -- destruct (velocity_active s j); rewrite ?andb_true_r, ?andb_false_r;
             cell_cases.
      * intros i j.
        rewrite cell_set_cell
          by (rewrite ?Hcrow; unfold POSITION_INTERFACE_INDEX in *; lia).
        rewrite (cell_set_cell_ne _ VELOCITY_INTERFACE_INDEX)
          by (unfold POSITION_INTERFACE_INDEX, VELOCITY_INTERFACE_INDEX; lia).
        rewrite cell_set_cell_eq
          by (rewrite ?Hrow; unfold POSITION_INTERFACE_INDEX in *; lia).
        rewrite ?Hold, Hcm.
        unfold POSITION_INTERFACE_INDEX, VELOCITY_INTERFACE_INDEX in *.
        destruct (decide (j = k)) as [->|Hjk].
        -- rewrite Hact. cell_cases.
        -- destruct (velocity_active s j); rewrite ?andb_true_r, ?andb_false_r;
             cell_cases.
    + split; [|split; [|split]]; try (split; assumption).
      * intros i j. rewrite Hst.
        destruct (decide (j = k)) as [->|Hjk].
        -- rewrite Hact, !andb_false_r.
           destruct (bool_decide (k < k)%nat); reflexivity.
        -- destruct (velocity_active s j); rewrite ?andb_true_r, ?andb_false_r;
             cell_cases.
      * intros i j. rewrite Hcm.
        destruct (decide (j = k)) as [->|Hjk].
        -- rewrite Hact, !andb_false_r.
           destruct (bool_decide (k < k)%nat); reflexivity.
        -- destruct (velocity_active s j); rewrite ?andb_true_r, ?andb_false_r;
             cell_cases.
Qed.

Lemma for_loop_ext {S : Type} (n : nat) (body body' : nat → S → S) (s : S) :
  (∀ k acc, body k acc = body' k acc) →
  for_loop n body s = for_loop n body' s.
Proof.
  intros Hext. induction n as [|n IH]; [reflexivity|].
  rewrite !for_loop_S, IH. apply Hext.
Qed.

Lemma for_loop_from_0 {S : Type} (n : nat) (body : nat → S → S) (s : S) :
  for_loop n body s = for_loop_from 0 n body s.
Proof. unfold for_loop, for_loop_from. rewrite Nat.sub_0_r. reflexivity. Qed.

(** A loop over the cells of one row, each cell written from data that the
    loop does not change. *)
Lemma cellwise_row (c : nat → bool) (v : nat → float) (i n : nat) (m : matrix) :
  (i < length m)%nat → (n ≤ length (m !!! i))%nat →
  same_shape
    (for_loop n (fun j acc => if c j then set_cell acc i j (v j) else acc) m) m
  ∧ ∀ i' j,
      cell (for_loop n (fun j acc => if c j then set_cell acc i j (v j) else acc) m) i' j
      = if bool_decide (i' = i ∧ (j < n)%nat) && c j then v j else cell m i' j.
Proof.
  intros Hi Hn.
  set (P := fun (k : nat) (acc : matrix) =>
    same_shape acc m
    ∧ ∀ i' j, cell acc i' j
        = if bool_decide (i' = i ∧ (j < k)%nat) && c j then v j else cell m i' j).
  apply (for_loop_ind P); unfold P; clear P.
  - split; [apply same_shape_refl|]. intros i' j.
    rewrite bool_decide_eq_false_2 by lia. reflexivity.
  - intros k acc Hk [[Hlen Hrow] Hcells].
    destruct (c k) eqn:Hc.
    + split.
      { eapply same_shape_trans; [apply same_shape_set_cell|]. split; assumption. }
      intros i' j. rewrite cell_set_cell by (rewrite ?Hrow; lia).
      rewrite Hcells. destruct (decide (j = k)) as [->|Hjk].
      * rewrite Hc. cell_cases.
      * destruct (c j); rewrite ?andb_true_r, ?andb_false_r; cell_cases.
    + split; [split; assumption|]. intros i' j. rewrite Hcells.
      destruct (decide (j = k)) as [->|Hjk].
      * rewrite Hc, !andb_false_r. reflexivity.
      * destruct (c j); rewrite ?andb_true_r, ?andb_false_r; cell_cases.
Qed.

(** The nested loops over the rows from [from] on and over the cells of
    each row. *)
Lemma cellwise_loop (c : nat → nat → bool) (v : nat → nat → float)
    (from : nat) (m : matrix) :
  same_shape
    (for_loop_from from (length m) (fun i acc =>
       for_loop (length (acc !!! i))
         (fun j acc => if c i j then set_cell acc i j (v i j) else acc) acc) m) m
  ∧ ∀ i j,
      cell (for_loop_from from (length m) (fun i acc =>
              for_loop (length (acc !!! i))
                (fun j acc => if c i j then set_cell acc i j (v i j) else acc) acc) m) i j
      = if bool_decide ((from ≤ i < length m)%nat ∧ (j < length (m !!! i))%nat) && c i j
        then v i j else cell m i j.
Proof.
  set (P := fun (k : nat) (acc : matrix) =>
    same_shape acc m
    ∧ ∀ i j, cell acc i j
        = if bool_decide ((from ≤ i < k)%nat ∧ (j < length (m !!! i))%nat) && c i j
          then v i j else cell m i j).
  assert (HP : P (Nat.max from (length m))
                 (for_loop_from from (length m) (fun i acc =>
                    for_loop (length (acc !!! i))
                      (fun j acc => if c i j then set_cell acc i j (v i j) else acc) acc) m)).
  { apply (for_loop_from_ind P); unfold P; clear P.
    - split; [apply same_shape_refl|]. intros i j.
      rewrite bool_decide_eq_false_2 by lia. reflexivity.
    - intros k acc Hk [[Hlen Hrow] Hcells].
      destruct (cellwise_row (c k) (v k) k (length (acc !!! k)) acc) as [Hsh Hc];
        [lia|lia|].
      split.
      { eapply same_shape_trans; [exact Hsh|]. split; assumption. }
      intros i j. rewrite Hc, Hcells, Hrow.
      destruct (decide (i = k)) as [->|Hik].
      + destruct (c k j); rewrite ?andb_true_r, ?andb_false_r; cell_cases.
      + rewrite (bool_decide_eq_false_2 (i = k ∧ _)) by tauto. simpl.
        destruct (c i j); rewrite ?andb_true_r, ?andb_false_r; cell_cases. }
  unfold P in HP. destruct HP as [Hsh Hcells]. split; [exact Hsh|].
  intros i j. rewrite Hcells.
  destruct (c i j); rewrite ?andb_true_r, ?andb_false_r; cell_cases.
Qed.

(** ** Mimic coupling *)

(** One relation overwrites the follower's column, row by row, with the
    multiplier times the leader's column as it was when the relation is
    applied. *)
Lemma read_mimic_body_cells (r : MimicJoint) (m : matrix) :
  (∀ i, (i < length m)%nat → (joint_index r < length (m !!! i))%nat) →
  same_shape (read_mimic_body r m) m
  ∧ ∀ i j, cell (read_mimic_body r m) i j
      = if bool_decide ((i < length m)%nat ∧ j = joint_index r)
        then multiplier r * cell m i (mimicked_joint_index r)
        else cell m i j.
Proof.
  intros Hcol. unfold read_mimic_body.
  set (P := fun (k : nat) (acc : matrix) =>
    same_shape acc m
    ∧ ∀ i j, cell acc i j
        = if bool_decide ((i < k)%nat ∧ j = joint_index r)
          then multiplier r * cell m i (mimicked_joint_index r)
          else cell m i j).
  apply (for_loop_ind P); unfold P; clear P.
  - split; [apply same_shape_refl|]. intros i j.
    rewrite bool_decide_eq_false_2 by lia. reflexivity.
  - intros k acc Hk [[Hlen Hrow] Hcells]. split.
    { eapply same_shape_trans; [apply same_shape_set_cell|]. split; assumption. }
    intros i j.
    rewrite cell_set_cell by (rewrite ?Hrow; try lia; apply Hcol; lia).
    rewrite !Hcells.
    rewrite (bool_decide_eq_false_2 ((k < k)%nat ∧ _)) by lia.
    cell_cases.
Qed.

Lemma read_mimic_app (before after : list MimicJoint) (m : matrix) :
  read_mimic (before ++ after) m = read_mimic after (read_mimic before m).
Proof. unfold read_mimic, for_each. apply fold_left_app. Qed.

Lemma read_mimic_shape (rels : list MimicJoint) (m : matrix) (cols : nat) :
  rect (length m) cols m →
  Forall (fun r => (joint_index r < cols)%nat) rels →
  same_shape (read_mimic rels m) m.
Proof.
  intros Hrect Hrels. revert m Hrect.
  induction Hrels as [|r rels Hr Hrels IH]; intros m Hrect.
  - apply same_shape_refl.
  - change (read_mimic (r :: rels) m) with (read_mimic rels (read_mimic_body r m)).
    destruct (read_mimic_body_cells r m) as [Hsh _].
    { intros i Hi. rewrite (rect_row_length _ _ _ _ Hrect Hi). exact Hr. }
    eapply same_shape_trans; [|exact Hsh].
    apply IH. rewrite (proj1 Hsh). eapply rect_same_shape; eassumption.
Qed.

(** A column that no relation has as its follower keeps its values. *)
Lemma read_mimic_untouched (rels : list MimicJoint) (m : matrix) (cols : nat)
    (i j : nat) :
  rect (length m) cols m →
  Forall (fun r => (joint_index r < cols)%nat) rels →
  Forall (fun r => joint_index r ≠ j) rels →
  cell (read_mimic rels m) i j = cell m i j.
Proof.
  intros Hrect Hrels Hj. revert m Hrect.
  induction Hrels as [|r rels Hr Hrels IH]; intros m Hrect; [reflexivity|].
  change (read_mimic (r :: rels) m) with (read_mimic rels (read_mimic_body r m)).
  inversion Hj as [|? ? Hne Hj']; subst.
  destruct (read_mimic_body_cells r m) as [Hsh Hcells].
  { intros i' Hi'. rewrite (rect_row_length _ _ _ _ Hrect Hi'). exact Hr. }
  rewrite IH; [|exact Hj'|].
  - rewrite Hcells. rewrite bool_decide_eq_false_2; [reflexivity|].
    intros [_ ->]. apply Hne. reflexivity.
  - rewrite (proj1 Hsh). eapply rect_same_shape; eassumption.
Qed.

(** The follower of a relation that no later relation overwrites ends with
    the multiplier times the leader's value at the moment the relation is
    applied. *)
Lemma read_mimic_follower (before after : list MimicJoint) (r : MimicJoint)
    (m : matrix) (cols : nat) (i : nat) :
  rect (length m) cols m →
  Forall (fun r => (joint_index r < cols)%nat) (before ++ r :: after) →
  Forall (fun r' => joint_index r' ≠ joint_index r) after →
  (i < length m)%nat →
  cell (read_mimic (before ++ r :: after) m) i (joint_index r)
  = multiplier r * cell (read_mimic before m) i (mimicked_joint_index r).
Proof.
  intros Hrect Hrels Hafter Hi.
  apply Forall_app in Hrels as [Hbefore Hrels].
  inversion Hrels as [|? ? Hr Hafter']; subst.
  rewrite read_mimic_app.
  change (read_mimic (r :: after) (read_mimic before m))
    with (read_mimic after (read_mimic_body r (read_mimic before m))).
  pose proof (read_mimic_shape before m cols Hrect Hbefore) as Hsh1.
  assert (Hrect1 : rect (length (read_mimic before m)) cols (read_mimic before m)).
  { rewrite (proj1 Hsh1). eapply rect_same_shape; eassumption. }
  destruct (read_mimic_body_cells r (read_mimic before m)) as [Hsh2 Hcells].
  { intros i' Hi'. rewrite (rect_row_length _ _ _ _ Hrect1 Hi'). exact Hr. }
  rewrite (read_mimic_untouched after _ cols); [| |exact Hafter'|exact Hafter].
  - rewrite Hcells. rewrite bool_decide_eq_true_2; [reflexivity|].
    split; [|reflexivity]. rewrite (proj1 Hsh1). exact Hi.
  - rewrite (proj1 Hsh2). eapply rect_same_shape; eassumption.
Qed.

(** ** The joint rows after one cycle *)

Lemma wf_row_length (s : GenericSystem) (i : nat) :
  wf_joint_storage s → (i < length (joint_states_ s))%nat →
  length (joint_states_ s !!! i) = length (joints (info_ s))
  ∧ length (joint_commands_ s !!! i) = length (joints (info_ s))
  ∧ length (joint_commands_ s) = length (joint_states_ s).
Proof.
  intros (Hrows & Hst & Hcmd & Hold) Hi.
  rewrite (rect_row_length _ _ _ _ Hst Hi), (rect_row_length _ _ _ _ Hcmd Hi).
  repeat split. apply Hcmd.
Qed.

Lemma read_loopback_cells (commands states : matrix) :
  same_shape (read_loopback commands states) states
  ∧ ∀ i j, cell (read_loopback commands states) i j
      = if bool_decide ((2 ≤ i < length states)%nat ∧ (j < length (states !!! i))%nat)
           && negb (is_nan (cell commands i j))
        then cell commands i j else cell states i j.
Proof.
  apply (cellwise_loop (fun i j => negb (is_nan (cell commands i j)))
           (cell commands) 2 states).
Qed.

(** The three propagation loops, cell by cell. *)
Lemma read_propagate_cells (s : GenericSystem) (period : float) :
  wf_joint_storage s →
  same_shape (read_propagate s period).1 (joint_states_ s)
  ∧ same_shape (read_propagate s period).2 (joint_commands_ s)
  ∧ (∀ i j, (i < length (joint_states_ s))%nat → (j < length (joints (info_ s)))%nat →
       cell (read_propagate s period).1 i j = propagated_cell s period i j)
  ∧ (∀ i j, (j < length (joints (info_ s)))%nat →
       cell (read_propagate s period).2 i j
       = if velocity_active s j && bool_decide (i = POSITION_INTERFACE_INDEX)
         then propagated_position s period j
         else cell (joint_commands_ s) i j).
Proof.
  intros Hwf. pose proof Hwf as (Hrows & Hst & Hcmd & Hold).
  destruct (wf_row_length s POSITION_INTERFACE_INDEX Hwf) as (Hp & Hcp & Hclen);
    [unfold POSITION_INTERFACE_INDEX; lia|].
  destruct (wf_row_length s VELOCITY_INTERFACE_INDEX Hwf) as (Hv & Hcv & _);
    [unfold VELOCITY_INTERFACE_INDEX; lia|].
  unfold read_propagate. rewrite Hp, Hcv.
  set (n := length (joints (info_ s))) in *.
  destruct (read_position_loop s period n (joint_states_ s)) as [Hsh1 Hc1];
    [lia|lia|lia|].
  set (st1 := for_loop n (read_position_body s period) (joint_states_ s)) in *.
  destruct Hsh1 as [Hlen1 Hrow1].
  destruct (read_velocity_loop s period n st1) as (Hsh2 & Hsh2' & Hc2 & Hc2');
    [lia|lia|rewrite Hrow1; lia|rewrite Hrow1; lia|lia|].
  destruct (for_loop n (read_velocity_body s period) (st1, joint_commands_ s))
    as [st2 cm2] eqn:Hloop.
  cbn [fst snd] in *.
  destruct (read_loopback_cells cm2 st2) as [Hsh3 Hc3].
  assert (Hsh : same_shape (read_loopback cm2 st2) (joint_states_ s)).
  { eapply same_shape_trans; [exact Hsh3|].
    eapply same_shape_trans; [exact Hsh2|]. split; assumption. }
  split; [exact Hsh|]. split; [exact Hsh2'|]. split.
  - intros i j Hi Hj. rewrite Hc3, Hc2, Hc2', !Hc1.
    unfold propagated_cell, propagated_position, propagated_velocity.
    rewrite (proj1 Hsh2), Hlen1, (proj2 Hsh2), Hrow1.
    destruct (wf_row_length s i Hwf Hi) as (Hri & _). rewrite Hri. fold n.
    rewrite !(bool_decide_eq_true_2 (j < n)%nat) by exact Hj.
    unfold POSITION_INTERFACE_INDEX, VELOCITY_INTERFACE_INDEX in *.
    destruct (decide (i = 0%nat)) as [->|Hi0]; [|destruct (decide (i = 1%nat)) as [->|Hi1]].
    + rewrite bool_decide_eq_false_2 by lia.
      destruct (velocity_active s j), (position_active s j); reflexivity.
    + rewrite (bool_decide_eq_false_2 (_ ∧ _)) by lia.
      destruct (velocity_active s j), (position_active s j),
        (1 <? length standard_interfaces_)%nat; reflexivity.
    + rewrite !(bool_decide_eq_false_2 (i = 0)%nat) by exact Hi0.
      rewrite !(bool_decide_eq_false_2 (i = 1)%nat) by exact Hi1.
      rewrite bool_decide_eq_true_2 by lia.
      rewrite !andb_false_r. simpl.
      destruct (velocity_active s j), (position_active s j); reflexivity.
  - intros i j Hj. rewrite Hc2', Hc1.
    unfold propagated_position. fold n.
    rewrite !(bool_decide_eq_true_2 (j < n)%nat) by exact Hj.
    unfold POSITION_INTERFACE_INDEX, VELOCITY_INTERFACE_INDEX in *.
    rewrite (bool_decide_eq_true_2 (0 = 0)%nat) by reflexivity.
    destruct (velocity_active s j), (position_active s j); cell_cases.
Qed.

(** ** Loops that may throw *)

Lemma for_loop_M_S {S : Type} (n : nat) (body : nat → S → result S) (s : S) :
  for_loop_M (Datatypes.S n) body s = for_loop_M n body s ≫= body n.
Proof.
  unfold for_loop_M. rewrite seq_S, fold_left_app. reflexivity.
Qed.

(** The invariant rule of a counted loop that returns. *)
Lemma for_loop_M_ind {S : Type} (P : nat → S → Prop) (n : nat)
    (body : nat → S → result S) (s s' : S) :
  for_loop_M n body s = Returns s' →
  P 0%nat s →
  (∀ k acc acc', (k < n)%nat → P k acc → body k acc = Returns acc' →
     P (Datatypes.S k) acc') →
  P n s'.
Proof.
  revert s'. induction n as [|n IH]; intros s' Hrun H0 Hstep.
  - unfold for_loop_M in Hrun. simpl in Hrun. injection Hrun as <-. exact H0.
  - rewrite for_loop_M_S in Hrun.
    destruct (for_loop_M n body s) as [acc|e] eqn:Hn; [|discriminate].
    apply (Hstep n acc); [lia| |exact Hrun].
    apply IH; [reflexivity|exact H0|].
    intros k a a' Hk. apply Hstep. lia.
Qed.

(** ** Storage allocation *)

(** The allocation part of [initialize_storage_vectors]: every cell is the
    unset sentinel. *)
Lemma allocate_storage (rows cols : nat) :
  for_loop rows (fun i '(commands, states) =>
      (alter (resize cols quiet_NaN) i commands,
       alter (resize cols quiet_NaN) i states))
    (resize rows [] ([] : matrix), resize rows [] ([] : matrix))
  = (replicate rows (replicate cols quiet_NaN),
     replicate rows (replicate cols quiet_NaN)).
Proof.
  rewrite !resize_nil.
  set (P := fun (k : nat) (acc : matrix * matrix) =>
    acc = (replicate k (replicate cols quiet_NaN) ++ replicate (rows - k) [],
           replicate k (replicate cols quiet_NaN) ++ replicate (rows - k) [])).
  assert (HP : P rows
    (for_loop rows (fun i '(commands, states) =>
        (alter (resize cols quiet_NaN) i commands,
         alter (resize cols quiet_NaN) i states))
      (replicate rows [], replicate rows []))).
  { apply (for_loop_ind P); unfold P; clear P.
    - rewrite Nat.sub_0_r. reflexivity.
    - intros k [c st] Hk Heq. injection Heq as -> ->.
      assert (Hrow : ∀ A (x y : A) (f : A → A), f y = x →
        alter f k (replicate k x ++ replicate (rows - k) y)
        = replicate (Datatypes.S k) x ++ replicate (rows - Datatypes.S k) y).
      { intros A x y f Hf.
        replace (rows - k)%nat with (Datatypes.S (rows - Datatypes.S k)) by lia.
        rewrite (replicate_S_end k x), <- app_assoc.
        cbn [replicate app].
        pose proof (alter_app_r f (replicate k x)
                      (y :: replicate (rows - Datatypes.S k) y) 0) as Halter.
        rewrite length_replicate, Nat.add_0_r in Halter.
        rewrite Halter. simpl. rewrite Hf. reflexivity. }
      rewrite !Hrow by apply resize_nil. reflexivity. }
  unfold P in HP. rewrite HP, Nat.sub_diag, !app_nil_r. reflexivity.
Qed.

Lemma rect_replicate (rows cols : nat) (x : float) :
  rect rows cols (replicate rows (replicate cols x)).
Proof.
  split; [apply length_replicate|].
  apply Forall_replicate, length_replicate.
Qed.

Lemma cell_replicate (rows cols : nat) (x : float) (i j : nat) :
  (i < rows)%nat → (j < cols)%nat →
  cell (replicate rows (replicate cols x)) i j = x.
Proof.
  intros Hi Hj. unfold cell.
  rewrite !lookup_total_replicate_2 by assumption. reflexivity.
Qed.

(** The initial values of one column (one joint): the loop returns only
    if every text converts, and then each cell of the column holds its
    converted text, or what it held when the parameter is absent. *)
Lemma initial_column_M (d : nat → option string) (i cols rows : nat)
    (m m' : matrix) :
  rect rows cols m → (i < cols)%nat →
  for_loop_M rows (fun j acc =>
      match d j with
      | Some text => x ← stod_or_throw text; mret (set_cell acc j i x)
      | None => mret acc
      end) m = Returns m' →
  same_shape m' m
  ∧ (∀ r c, ¬ (c = i ∧ (r < rows)%nat) → cell m' r c = cell m r c)
  ∧ (∀ r, (r < rows)%nat →
       match d r with
       | Some text => ∃ x, stod text = Some x ∧ cell m' r i = x
       | None => cell m' r i = cell m r i
       end).
Proof.
  intros Hrect Hi Hrun.
  set (P := fun (k : nat) (acc : matrix) =>
    same_shape acc m
    ∧ (∀ r c, ¬ (c = i ∧ (r < k)%nat) → cell acc r c = cell m r c)
    ∧ (∀ r, (r < k)%nat →
         match d r with
         | Some text => ∃ x, stod text = Some x ∧ cell acc r i = x
         | None => cell acc r i = cell m r i
         end)).
  apply (for_loop_M_ind P _ _ _ _ Hrun); unfold P; clear P.
  - split; [apply same_shape_refl|]. split; [reflexivity|]. intros r Hr. lia.
  - intros k acc acc' Hk ([Hlen Hrow] & Hother & Hcol) Hbody.
    assert (Hin : (k < length acc)%nat ∧ (i < length (acc !!! k))%nat).
    { rewrite Hlen, Hrow, (proj1 Hrect).
      rewrite (rect_row_length _ _ _ _ Hrect Hk). lia. }
    destruct (d k) as [text|] eqn:Hd.
    + unfold stod_or_throw in Hbody.
      destruct (stod text) as [x|] eqn:Hx; [|discriminate].
      simpl in Hbody. injection Hbody as <-. split; [|split].
      * eapply same_shape_trans; [apply same_shape_set_cell|]. split; assumption.
      * intros r c Hne. rewrite cell_set_cell_ne by (intros [-> ->]; apply Hne; lia).
        apply Hother. intros [-> Hr]. apply Hne. split; [reflexivity|lia].
      * intros r Hr. destruct (decide (r = k)) as [->|Hrk].
        -- rewrite Hd. exists x. split; [exact Hx|].
           apply cell_set_cell_eq; tauto.
        -- rewrite cell_set_cell_ne by (intros [Hk' _]; lia).
           apply Hcol. lia.
    + injection Hbody as <-. split; [split; assumption|]. split.
      * intros r c Hne. apply Hother. intros [-> Hr]. apply Hne.
        split; [reflexivity|lia].
      * intros r Hr. destruct (decide (r = k)) as [->|Hrk].
        -- rewrite Hd. apply Hother. lia.
        -- apply Hcol. lia.
Qed.

(** The initial values of every column. *)
Lemma initial_cells_M (d : nat → nat → option string) (cols rows : nat)
    (m m' : matrix) :
  rect rows cols m →
  for_loop_M cols (fun i acc =>
      for_loop_M rows (fun j acc =>
        match d i j with
        | Some text => x ← stod_or_throw text; mret (set_cell acc j i x)
        | None => mret acc
        end) acc) m = Returns m' →
  same_shape m' m
  ∧ ∀ j i, (j < rows)%nat → (i < cols)%nat →
      match d i j with
      | Some text => ∃ x, stod text = Some x ∧ cell m' j i = x
      | None => cell m' j i = cell m j i
      end.
Proof.
  intros Hrect Hrun.
  set (P := fun (k : nat) (acc : matrix) =>
    same_shape acc m
    ∧ (∀ j i, (k ≤ i)%nat → cell acc j i = cell m j i)
    ∧ ∀ j i, (j < rows)%nat → (i < k)%nat →
        match d i j with
        | Some text => ∃ x, stod text = Some x ∧ cell acc j i = x
        | None => cell acc j i = cell m j i
        end).
  assert (HP : P cols m').
  { apply (for_loop_M_ind P _ _ _ _ Hrun); unfold P; clear P.
    - split; [apply same_shape_refl|]. split; [reflexivity|]. intros j i _ Hi. lia.
    - intros k acc acc' Hk (Hsh & Hrest & Hdone) Hbody.
      destruct (initial_column_M (d k) k cols rows acc acc') as (Hsh' & Hother & Hcol);
        [eapply rect_same_shape; eassumption|exact Hk|exact Hbody|].
      split; [eapply same_shape_trans; eassumption|]. split.
      + intros j i Hki. rewrite Hother by lia. apply Hrest. lia.
      + intros j i Hj Hi. destruct (decide (i = k)) as [->|Hik].
        * specialize (Hcol j Hj). destruct (d k j); [exact Hcol|].
          rewrite Hcol. apply Hrest. lia.
        * rewrite Hother by lia. apply Hdone; [exact Hj|lia]. }
  destruct HP as (Hsh & _ & Hcells). split; [exact Hsh|exact Hcells].
Qed.

(** [initialize_storage_vectors] on empty vectors returns only if every
    declared initial value converts; the matrices it returns have one row
    per interface name and one cell per joint; every command cell is the
    unset sentinel and every state cell holds the joint's initial value for
    the interface of its row. *)
Lemma initialize_storage_vectors_spec (joints : list ComponentInfo)
    (interfaces : list string) (commands states : matrix) :
  initialize_storage_vectors joints [] [] interfaces = Returns (commands, states) →
  commands = replicate (length interfaces) (replicate (length joints) quiet_NaN)
  ∧ rect (length interfaces) (length joints) states
  ∧ ∀ j i, (j < length interfaces)%nat → (i < length joints)%nat →
      cell states j i = initial_value (joints !!! i) (interfaces !!! j)
      ∧ ∀ text, parameters (joints !!! i) !! ("initial_" +:+ interfaces !!! j) = Some text →
          is_Some (stod text).
Proof.
  unfold initialize_storage_vectors. rewrite allocate_storage. intros Hrun.
  match type of Hrun with
  | (?loop ≫= _) = _ => destruct loop as [st|e] eqn:Hloop; [|discriminate]
  end.
  simpl in Hrun. injection Hrun as <- <-.
  split; [reflexivity|].
  destruct (initial_cells_M
    (fun i j => parameters (joints !!! i) !! ("initial_" +:+ interfaces !!! j))
    (length joints) (length interfaces) _ st
    (rect_replicate _ _ _) Hloop) as [Hsh Hcells].
  split; [eapply rect_same_shape; [exact Hsh|apply rect_replicate]|].
  intros j i Hj Hi. specialize (Hcells j i Hj Hi). unfold initial_value.
  destruct (parameters (joints !!! i) !! ("initial_" +:+ interfaces !!! j)) as [text|].
  - destruct Hcells as (x & Hx & Hcell). rewrite Hx. simpl. split; [exact Hcell|].
    intros text' [= <-]. rewrite Hx. eexists; reflexivity.
  - rewrite Hcells, cell_replicate by assumption. split; [reflexivity|].
    intros text' [=].
Qed.

(** "set all values without initial values to 0": every unset state of a
    standard row becomes 0.0, the others stay. *)
Lemma zero_unset_states_cells (joints : list ComponentInfo) (states : matrix) :
  rect (length standard_interfaces_) (length joints) states →
  same_shape (zero_unset_states joints states) states
  ∧ ∀ j i, (j < length standard_interfaces_)%nat → (i < length joints)%nat →
      cell (zero_unset_states joints states) j i
      = if is_nan (cell states j i) then 0.0 else cell states j i.
Proof.
  intros Hrect. unfold zero_unset_states.
  set (rows := length standard_interfaces_) in *.
  set (h := fun x : float => if is_nan x then 0.0 else x).
  assert (Hinner : ∀ i m, rect rows (length joints) m → (i < length joints)%nat →
    same_shape (for_loop rows (fun j acc =>
        if is_nan (cell acc j i) then set_cell acc j i 0.0 else acc) m) m
    ∧ ∀ r c, cell (for_loop rows (fun j acc =>
        if is_nan (cell acc j i) then set_cell acc j i 0.0 else acc) m) r c
      = if bool_decide (c = i ∧ (r < rows)%nat) then h (cell m r c) else cell m r c).
  { intros i m Hm Hi.
    set (Q := fun (k : nat) (acc : matrix) =>
      same_shape acc m
      ∧ ∀ r c, cell acc r c
          = if bool_decide (c = i ∧ (r < k)%nat) then h (cell m r c) else cell m r c).
    apply (for_loop_ind Q); unfold Q; clear Q.
    - split; [apply same_shape_refl|]. intros r c.
      rewrite bool_decide_eq_false_2 by lia. reflexivity.
    - intros k acc Hk [[Hlen Hrow] Hcells].
      assert (Hcur : cell acc k i = cell m k i).
      { rewrite Hcells. rewrite bool_decide_eq_false_2 by lia. reflexivity. }
      rewrite Hcur. destruct (is_nan (cell m k i)) eqn:Hnan.
      + split.
        { eapply same_shape_trans; [apply same_shape_set_cell|]. split; assumption. }
        intros r c. rewrite cell_set_cell.
        * rewrite Hcells. unfold h. cell_cases; rewrite ?Hnan; reflexivity.
        * rewrite Hlen, (proj1 Hm). exact Hk.
        * rewrite Hrow, (rect_row_length _ _ _ _ Hm Hk). exact Hi.
      + split; [split; assumption|]. intros r c. rewrite Hcells. unfold h.
        cell_cases; replace r with k by lia; rewrite Hnan; reflexivity. }
  set (P := fun (k : nat) (acc : matrix) =>
    same_shape acc states
    ∧ ∀ r c, cell acc r c
        = if bool_decide ((c < k)%nat ∧ (r < rows)%nat)
          then h (cell states r c) else cell states r c).
  assert (HP : P (length joints)
    (for_loop (length joints) (fun i acc =>
       for_loop rows (fun j acc =>
         if is_nan (cell acc j i) then set_cell acc j i 0.0 else acc) acc) states)).
  { apply (for_loop_ind P); unfold P; clear P.
    - split; [apply same_shape_refl|]. intros r c.
      rewrite bool_decide_eq_false_2 by lia. reflexivity.
    - intros k acc Hk [Hsh Hcells].
      destruct (Hinner k acc) as [Hsh' Hc'];
        [eapply rect_same_shape; eassumption|exact Hk|].
      split; [eapply same_shape_trans; eassumption|].
      intros r c. rewrite Hc', Hcells. cell_cases. }
  destruct HP as [Hsh Hcells]. split; [exact Hsh|].
  intros j i Hj Hi. rewrite Hcells. rewrite bool_decide_eq_true_2 by lia.
  reflexivity.
Qed.

(** "Search for mimic joints": the relations found refer to existing
    joints, and their followers are in strictly increasing order (one
    relation per joint at most). *)
Lemma find_mimic_joints_spec (joints : list ComponentInfo) (mimics : list MimicJoint) :
  find_mimic_joints joints [] = Returns mimics →
  Forall (fun r => (joint_index r < length joints)%nat
                   ∧ (mimicked_joint_index r < length joints)%nat) mimics
  ∧ StronglySorted lt (joint_index <$> mimics).
Proof.
  intros Hrun.
  set (P := fun (k : nat) (acc : list MimicJoint) =>
    Forall (fun r => (joint_index r < k)%nat
                     ∧ (mimicked_joint_index r < length joints)%nat) acc
    ∧ StronglySorted lt (joint_index <$> acc)).
  assert (HP : P (length joints) mimics).
  { apply (for_loop_M_ind P _ _ _ _ Hrun); unfold P; clear P.
    - split; [constructor|]. constructor.
    - intros k acc acc' Hk [Hall Hsorted] Hbody.
      assert (Hweak : Forall (fun r => (joint_index r < Datatypes.S k)%nat
                       ∧ (mimicked_joint_index r < length joints)%nat) acc).
      { eapply Forall_impl; [exact Hall|]. simpl. intros r [? ?]. split; lia. }
      destruct (parameters (joints !!! k) !! "mimic") as [mimicked|];
        [|injection Hbody as <-; split; assumption].
      destruct (list_find _ joints) as [[idx found]|] eqn:Hfind; [|discriminate].
      apply list_find_Some in Hfind as (Hlookup & _ & _).
      apply lookup_lt_Some in Hlookup.
      match type of Hbody with
      | (?m ≫= _) = _ => destruct m as [mult|e]; [|discriminate]
      end.
      simpl in Hbody. injection Hbody as <-. split.
      + apply Forall_app. split; [exact Hweak|].
        constructor; [|constructor]. simpl. split; lia.
      + rewrite fmap_app. simpl.
        apply StronglySorted_app_2; [|exact Hsorted|repeat constructor].
        intros x y Hx Hy. apply list_elem_of_singleton in Hy as ->.
        apply list_elem_of_fmap in Hx as (r & -> & Hr).
        rewrite Forall_forall in Hall. apply Hall in Hr. lia. }
  destruct HP as [Hall Hsorted]. split; [|exact Hsorted].
  eapply Forall_impl; [exact Hall|]. simpl. tauto.
Qed.

(** ** What configure returns *)

Lemma bind_returns {A B : Type} (r : result A) (f : A → result B) (b : B) :
  r ≫= f = Returns b → ∃ a, r = Returns a ∧ f a = Returns b.
Proof.
  destruct r as [a|e]; [|discriminate]. intros H. exists a. split; [reflexivity|exact H].
Qed.

(** [configure], step by step. *)
Lemma configure_inv (now : Z) (info : HardwareInfo) (ret : return_type)
    (s : GenericSystem) :
  configure now info = Returns (ret, s) →
  ∃ offset custom joint_commands joint_states mimics other_commands other_states
    sensor_fake_commands sensor_states,
    following_parameters info = Returns (offset, custom)
    ∧ initialize_storage_vectors (joints info) [] [] standard_interfaces_
      = Returns (joint_commands, joint_states)
    ∧ find_mimic_joints (joints info) [] = Returns mimics
    ∧ initialize_storage_vectors (joints info) [] []
        (find_other_interfaces (joints info) [])
      = Returns (other_commands, other_states)
    ∧ initialize_storage_vectors (joints info) [] []
        (find_sensor_interfaces (sensors info) [])
      = Returns (sensor_fake_commands, sensor_states)
    ∧ ret = OK
    ∧ info_ s = info
    ∧ position_state_following_offset_ s = offset
    ∧ custom_interface_with_following_offset_ s = custom
    ∧ index_custom_interface_with_following_offset_ s
      = custom_index (find_other_interfaces (joints info) []) custom
    ∧ joint_commands_ s = zero_velocity_commands joint_commands
    ∧ joint_states_ s = zero_unset_states (joints info) joint_states
    ∧ joint_pos_commands_old_ s = joint_commands !!! POSITION_INTERFACE_INDEX
    ∧ other_interfaces_ s = find_other_interfaces (joints info) []
    ∧ other_commands_ s = other_commands
    ∧ other_states_ s = other_states
    ∧ mimic_joints_ s = mimics
    ∧ position_controller_running_ s = false
    ∧ velocity_controller_running_ s = false
    ∧ begin s = now.
Proof.
  unfold configure, configure_default.
  rewrite bool_decide_eq_false_2 by (intros H; apply H; reflexivity).
  intros Hrun.
  apply bind_returns in Hrun as ([offset custom] & Hparams & Hrun).
  apply bind_returns in Hrun as ([jc js] & Hjoint & Hrun).
  apply bind_returns in Hrun as (mimics & Hmimic & Hrun).
  apply bind_returns in Hrun as ([oc os] & Hother & Hrun).
  apply bind_returns in Hrun as ([sc ss] & Hsensor & Hrun).
  injection Hrun as <- <-.
  exists offset, custom, jc, js, mimics, oc, os, sc, ss.
  repeat split; try assumption.
Qed.

(** ** The other interfaces and the sensors in a cycle *)

Lemma for_loop_from_ext {S : Type} (from n : nat) (body body' : nat → S → S) (s : S) :
  (∀ k acc, body k acc = body' k acc) →
  for_loop_from from n body s = for_loop_from from n body' s.
Proof.
  intros Hext. unfold for_loop_from. generalize (n - from)%nat as d. intros d.
  induction d as [|d IH]; [reflexivity|].
  rewrite seq_S, !fold_left_app, IH. simpl. apply Hext.
Qed.

(** The loop over the other interfaces, cell by cell: the bound row takes
    the position command plus the offset when that command is set; every
    other cell, and the bound row when the position command is unset, loops
    its own command back when that one is set. *)
Lemma read_other_cells (s : GenericSystem) (commands other_states : matrix) :
  same_shape (read_other s commands other_states) other_states
  ∧ ∀ i j, (i < length other_states)%nat → (j < length (other_states !!! i))%nat →
      cell (read_other s commands other_states) i j
      = if (Z.of_nat i =? index_custom_interface_with_following_offset_ s)%Z
           && negb (is_nan (cell commands POSITION_INTERFACE_INDEX j))
        then cell commands POSITION_INTERFACE_INDEX j + position_state_following_offset_ s
        else if negb (is_nan (cell (other_commands_ s) i j))
        then cell (other_commands_ s) i j
        else cell other_states i j.
Proof.
  set (bound := fun i j =>
    (Z.of_nat i =? index_custom_interface_with_following_offset_ s)%Z
    && negb (is_nan (cell commands POSITION_INTERFACE_INDEX j))).
  set (c := fun i j => bound i j || negb (is_nan (cell (other_commands_ s) i j))).
  set (v := fun i j =>
    if bound i j
    then cell commands POSITION_INTERFACE_INDEX j + position_state_following_offset_ s
    else cell (other_commands_ s) i j).
  assert (Heq : read_other s commands other_states
    = for_loop_from 0 (length other_states) (fun i acc =>
        for_loop (length (acc !!! i))
          (fun j acc => if c i j then set_cell acc i j (v i j) else acc) acc)
        other_states).
  { unfold read_other. rewrite for_loop_from_0. apply for_loop_from_ext.
    intros i acc. apply for_loop_ext. intros j acc'.
    unfold read_other_body, c, v. fold (bound i j).
    destruct (bound i j); [reflexivity|]. simpl.
    destruct (is_nan (cell (other_commands_ s) i j)); reflexivity. }
  rewrite Heq. destruct (cellwise_loop c v 0 other_states) as [Hsh Hcells].
  split; [exact Hsh|]. intros i j Hi Hj. rewrite Hcells.
  rewrite bool_decide_eq_true_2 by lia. unfold c, v. fold (bound i j).
  destruct (bound i j); [reflexivity|]. simpl.
  destruct (is_nan (cell (other_commands_ s) i j)); reflexivity.
Qed.

(** ** The invariant *)

Lemma zero_velocity_commands_cells (commands : matrix) (cols : nat) :
  (2 ≤ length commands)%nat → rect (length commands) cols commands →
  same_shape (zero_velocity_commands commands) commands
  ∧ ∀ i j, (j < cols)%nat →
      cell (zero_velocity_commands commands) i j
      = if bool_decide (i = VELOCITY_INTERFACE_INDEX) then 0.0 else cell commands i j.
Proof.
  intros Hrows Hrect. unfold zero_velocity_commands.
  destruct (for_loop_write_row commands VELOCITY_INTERFACE_INDEX
              (length (commands !!! VELOCITY_INTERFACE_INDEX)) (fun _ => 0.0))
    as [Hsh Hcells]; [unfold VELOCITY_INTERFACE_INDEX; lia|lia|].
  split; [exact Hsh|]. intros i j Hj. rewrite Hcells.
  rewrite (rect_row_length _ _ _ _ Hrect) by (unfold VELOCITY_INTERFACE_INDEX; lia).
  cell_cases.
Qed.

(** [configure] establishes the invariant, given that the standard list
    holds at least the position and the velocity name. *)
Lemma configure_invariant (now : Z) (info : HardwareInfo) (ret : return_type)
    (s : GenericSystem) :
  (2 ≤ length standard_interfaces_)%nat →
  configure now info = Returns (ret, s) →
  backend_invariant s.
Proof.
  intros Hstd Hrun.
  apply configure_inv in Hrun
    as (offset & custom & jc & js & mimics & oc & os & sc & ss
        & Hparams & Hjoint & Hmimic & Hother & Hsensor & -> & Hinfo & Hoff & Hcustom
        & Hindex & Hjc & Hjs & Hold & Hoi & Hoc & Hos & Hmj & Hpos & Hvel & Hbegin).
  apply initialize_storage_vectors_spec in Hjoint as (-> & Hjsrect & _).
  apply initialize_storage_vectors_spec in Hother as (-> & Hosrect & _).
  apply find_mimic_joints_spec in Hmimic as [Hmwf Hmsorted].
  destruct (zero_unset_states_cells (joints info) js Hjsrect) as [Hsh _].
  assert (Hrows : length (joint_states_ s) = length standard_interfaces_).
  { rewrite Hjs, (proj1 Hsh). apply Hjsrect. }
  unfold backend_invariant, wf_joint_storage, wf_other_storage, wf_mimic, followers.
  rewrite Hrows, Hinfo, Hjs, Hjc, Hold, Hoi, Hoc, Hos, Hmj, Hpos, Hindex, Hcustom.
  split; [reflexivity|]. split; [|split; [|split; [|split; [|split]]]].
  - split; [lia|]. split; [eapply rect_same_shape; eassumption|]. split.
    + eapply rect_same_shape; [|apply rect_replicate].
      apply (zero_velocity_commands_cells _ (length (joints info))).
      * rewrite length_replicate. exact Hstd.
      * rewrite length_replicate. apply rect_replicate.
    + rewrite lookup_total_replicate_2 by (unfold POSITION_INTERFACE_INDEX; lia).
      apply length_replicate.
  - split; [apply rect_replicate|exact Hosrect].
  - exact Hmwf.
  - exact Hmsorted.
  - reflexivity.
  - reflexivity.
Qed.

(** The members after one cycle. *)
Lemma read_joint_states (now : Z) (s : GenericSystem) :
  joint_states_ (read now s).2
  = read_mimic (mimic_joints_ s) (read_propagate s (elapsed now s)).1.
Proof. unfold read, elapsed. destruct (read_propagate _ _). reflexivity. Qed.

Lemma read_joint_commands (now : Z) (s : GenericSystem) :
  joint_commands_ (read now s).2 = (read_propagate s (elapsed now s)).2.
Proof. unfold read, elapsed. destruct (read_propagate _ _). reflexivity. Qed.

Lemma read_joint_pos_commands_old (now : Z) (s : GenericSystem) :
  joint_pos_commands_old_ (read now s).2
  = (read_propagate s (elapsed now s)).2 !!! POSITION_INTERFACE_INDEX.
Proof. unfold read, elapsed. destruct (read_propagate _ _). reflexivity. Qed.

Lemma read_other_states (now : Z) (s : GenericSystem) :
  other_states_ (read now s).2
  = read_other s (read_propagate s (elapsed now s)).2 (other_states_ s).
Proof. unfold read, elapsed. destruct (read_propagate _ _). reflexivity. Qed.

Lemma read_period (now : Z) (s : GenericSystem) :
  period_ (read now s).2 = elapsed now s ∧ begin (read now s).2 = now.
Proof. unfold read, elapsed. destruct (read_propagate _ _). split; reflexivity. Qed.

Lemma read_same_configuration (now : Z) (s : GenericSystem) :
  same_configuration s (read now s).2
  ∧ other_commands_ (read now s).2 = other_commands_ s
  ∧ position_controller_running_ (read now s).2 = position_controller_running_ s
  ∧ velocity_controller_running_ (read now s).2 = velocity_controller_running_ s
  ∧ (read now s).1 = OK.
Proof.
  unfold read, same_configuration. destruct (read_propagate _ _). repeat split.
Qed.

Lemma wf_mimic_followers (s : GenericSystem) :
  wf_mimic s →
  Forall (fun r => (joint_index r < length (joints (info_ s)))%nat) (mimic_joints_ s).
Proof.
  intros H. eapply Forall_impl; [exact H|]. simpl. tauto.
Qed.

(** The shape of the joint commands after [perform], and its mode flags. *)
Lemma perform_shape (start_interfaces stop_interfaces : list string)
    (s : GenericSystem) :
  wf_joint_storage s →
  same_shape
    (joint_commands_ (perform_command_mode_switch start_interfaces stop_interfaces s).2)
    (joint_commands_ s)
  ∧ (position_controller_running_
       (perform_command_mode_switch start_interfaces stop_interfaces s).2
     && velocity_controller_running_
          (perform_command_mode_switch start_interfaces stop_interfaces s).2 = false).
Proof.
  intros (Hrows & Hst & Hcmd & Hold).
  pose proof (proj1 Hcmd) as Hlen.
  unfold perform_command_mode_switch. rewrite !contains_nonempty.
  destruct (contains (start_modes_ s) HW_IF_POSITION);
    [|destruct (contains (start_modes_ s) HW_IF_VELOCITY)]; simpl.
  - split; [|reflexivity].
    apply (for_loop_write_row (joint_commands_ s) POSITION_INTERFACE_INDEX
             (length (joint_commands_ s !!! POSITION_INTERFACE_INDEX))
             (fun i => cell (joint_states_ s) POSITION_INTERFACE_INDEX i));
      [unfold POSITION_INTERFACE_INDEX|]; lia.
  - split; [|reflexivity].
    apply (for_loop_write_row (joint_commands_ s) VELOCITY_INTERFACE_INDEX
             (length (joint_commands_ s !!! VELOCITY_INTERFACE_INDEX))
             (fun _ => 0.0));
      [unfold VELOCITY_INTERFACE_INDEX|]; lia.
  - split; [apply same_shape_refl|reflexivity].
Qed.

(** The invariant carries over to a state of the same configuration whose
    matrices kept their shapes and whose mode flags exclude each other. *)
Lemma backend_invariant_carry (s s' : GenericSystem) :
  backend_invariant s →
  same_configuration s s' →
  same_shape (joint_states_ s') (joint_states_ s) →
  same_shape (joint_commands_ s') (joint_commands_ s) →
  length (joint_pos_commands_old_ s') = length (joint_pos_commands_old_ s) →
  same_shape (other_commands_ s') (other_commands_ s) →
  same_shape (other_states_ s') (other_states_ s) →
  position_controller_running_ s' && velocity_controller_running_ s' = false →
  backend_invariant s'.
Proof.
  intros (Hrows & (Hr2 & Hst & Hcmd & Hold) & [Hoc Hos] & Hmimic & Hsorted & _ & Hidx)
    (Hinfo & _ & _ & _ & Hcustom & Hindex & Hoi & _ & Hmj)
    Hjs Hjc Hold' Hocs Hoss Hmodes.
  unfold backend_invariant, wf_joint_storage, wf_other_storage, wf_mimic, followers
    in *.
  rewrite Hinfo, Hcustom, Hindex, Hoi, Hmj, (proj1 Hjs), Hold'.
  split; [exact Hrows|]. split; [|split; [|split; [|split; [|split]]]];
    try assumption.
  - split; [exact Hr2|]. split; [eapply rect_same_shape; eassumption|].
    split; [eapply rect_same_shape; eassumption|exact Hold].
  - split; eapply rect_same_shape; eassumption.
Qed.

Lemma prepare_same_configuration (start_interfaces stop_interfaces : list string)
    (s : GenericSystem) :
  same_configuration s (prepare_command_mode_switch start_interfaces stop_interfaces s).2.
Proof. unfold same_configuration. repeat split. Qed.

Lemma perform_same_configuration (start_interfaces stop_interfaces : list string)
    (s : GenericSystem) :
  same_configuration s (perform_command_mode_switch start_interfaces stop_interfaces s).2
  ∧ joint_states_ (perform_command_mode_switch start_interfaces stop_interfaces s).2
    = joint_states_ s
  ∧ joint_pos_commands_old_ (perform_command_mode_switch start_interfaces stop_interfaces s).2
    = joint_pos_commands_old_ s
  ∧ other_commands_ (perform_command_mode_switch start_interfaces stop_interfaces s).2
    = other_commands_ s
  ∧ other_states_ (perform_command_mode_switch start_interfaces stop_interfaces s).2
    = other_states_ s.
Proof.
  unfold same_configuration, perform_command_mode_switch.
  repeat (match goal with |- context [if ?b then _ else _] => destruct b end);
    repeat split.
Qed.

Lemma write_command_fields (i : nat) (interface : string) (v : float)
    (s : GenericSystem) :
  same_configuration s (write_command i interface v s)
  ∧ joint_states_ (write_command i interface v s) = joint_states_ s
  ∧ same_shape (joint_commands_ (write_command i interface v s)) (joint_commands_ s)
  ∧ joint_pos_commands_old_ (write_command i interface v s) = joint_pos_commands_old_ s
  ∧ same_shape (other_commands_ (write_command i interface v s)) (other_commands_ s)
  ∧ other_states_ (write_command i interface v s) = other_states_ s
  ∧ position_controller_running_ (write_command i interface v s)
    = position_controller_running_ s
  ∧ velocity_controller_running_ (write_command i interface v s)
    = velocity_controller_running_ s.
Proof.
  unfold write_command, get_interface, same_configuration.
  destruct (index_of standard_interfaces_ interface) as [j|]; simpl;
    [|destruct (index_of (other_interfaces_ s) interface) as [j|]; simpl];
    repeat split; try apply length_set_cell; try apply row_length_set_cell.
Qed.

Lemma write_fake_sensor_command_fields (i : nat) (interface : string) (v : float)
    (s : GenericSystem) :
  same_configuration s (write_fake_sensor_command i interface v s)
  ∧ joint_states_ (write_fake_sensor_command i interface v s) = joint_states_ s
  ∧ joint_commands_ (write_fake_sensor_command i interface v s) = joint_commands_ s
  ∧ joint_pos_commands_old_ (write_fake_sensor_command i interface v s)
    = joint_pos_commands_old_ s
  ∧ other_commands_ (write_fake_sensor_command i interface v s) = other_commands_ s
  ∧ other_states_ (write_fake_sensor_command i interface v s) = other_states_ s
  ∧ position_controller_running_ (write_fake_sensor_command i interface v s)
    = position_controller_running_ s
  ∧ velocity_controller_running_ (write_fake_sensor_command i interface v s)
    = velocity_controller_running_ s.
Proof.
  unfold write_fake_sensor_command, get_interface, same_configuration.
  destruct (index_of (sensor_interfaces_ s) interface) as [j|]; simpl; repeat split.
Qed.

(** Every operation keeps the invariant and the configuration. *)
Lemma operation_invariant (s s' : GenericSystem) :
  operation s s' → backend_invariant s →
  backend_invariant s' ∧ same_configuration s s'.
Proof.
  intros Hop Hinv.
  pose proof Hinv as (Hrows & Hwf & [Hoc Hos] & Hmimic & Hsorted & Hmodes & Hidx).
  pose proof Hwf as (Hr2 & Hst & Hcmd & Hold).
  destruct Hop as [now s|start stop s|start stop s|i joint interface v s Hj Hdecl
                   |i sensor interface v s Hfake Hs Hdecl].
  - destruct (read_same_configuration now s)
      as (Hconf & Hocmd & Hpos & Hvel & _).
    split; [|exact Hconf].
    destruct (read_propagate_cells s (elapsed now s) Hwf) as (Hsh1 & Hsh2 & _ & _).
    assert (Hrect1 : rect (length (read_propagate s (elapsed now s)).1)
                       (length (joints (info_ s))) (read_propagate s (elapsed now s)).1).
    { rewrite (proj1 Hsh1). eapply rect_same_shape; eassumption. }
    pose proof (read_mimic_shape (mimic_joints_ s) _ _ Hrect1
                  (wf_mimic_followers s Hmimic)) as Hsh3.
    apply (backend_invariant_carry s); try assumption.
    + rewrite read_joint_states. eapply same_shape_trans; eassumption.
    + rewrite read_joint_commands. exact Hsh2.
    + rewrite read_joint_pos_commands_old, (proj2 Hsh2), Hold.
      apply (rect_row_length _ _ _ _ Hcmd). unfold POSITION_INTERFACE_INDEX. lia.
    + rewrite Hocmd. apply same_shape_refl.
    + rewrite read_other_states. apply read_other_cells.
    + rewrite Hpos, Hvel. exact Hmodes.
  - split; [|apply prepare_same_configuration].
    apply (backend_invariant_carry s); try assumption;
      try apply same_shape_refl; try reflexivity.
    apply prepare_same_configuration.
  - destruct (perform_shape start stop s Hwf) as [Hsh Hflags].
    destruct (perform_same_configuration start stop s)
      as (Hconf & Hjs & Hold' & Hocmd & Hostate).
    split; [|exact Hconf].
    apply (backend_invariant_carry s); try assumption.
    + rewrite Hjs. apply same_shape_refl.
    + rewrite Hold'. reflexivity.
    + rewrite Hocmd. apply same_shape_refl.
    + rewrite Hostate. apply same_shape_refl.
  - destruct (write_command_fields i interface v s)
      as (Hconf & Hjs & Hjc & Hold' & Hocmd & Hostate & Hpos & Hvel).
    split; [|exact Hconf].
    apply (backend_invariant_carry s); try assumption.
    + rewrite Hjs. apply same_shape_refl.
    + rewrite Hold'. reflexivity.
    + rewrite Hostate. apply same_shape_refl.
    + rewrite Hpos, Hvel. exact Hmodes.
  - destruct (write_fake_sensor_command_fields i interface v s)
      as (Hconf & Hjs & Hjc & Hold' & Hocmd & Hostate & Hpos & Hvel).
    split; [|exact Hconf].
    apply (backend_invariant_carry s); try assumption.
    + rewrite Hjs. apply same_shape_refl.
    + rewrite Hjc. apply same_shape_refl.
    + rewrite Hold'. reflexivity.
    + rewrite Hocmd. apply same_shape_refl.
    + rewrite Hostate. apply same_shape_refl.
    + rewrite Hpos, Hvel. exact Hmodes.
Qed.

Lemma same_configuration_refl (s : GenericSystem) : same_configuration s s.
Proof. unfold same_configuration. repeat split. Qed.

Lemma same_configuration_trans (s1 s2 s3 : GenericSystem) :
  same_configuration s1 s2 → same_configuration s2 s3 → same_configuration s1 s3.
Proof.
  unfold same_configuration.
  intros (? & ? & ? & ? & ? & ? & ? & ? & ?) (? & ? & ? & ? & ? & ? & ? & ? & ?).
  repeat split; congruence.
Qed.

(** The invariant and the configuration hold of every state a configured
    backend goes through. *)
Lemma operates_invariant (s0 s : GenericSystem) :
  operates s0 s → backend_invariant s0 →
  backend_invariant s ∧ same_configuration s0 s.
Proof.
  induction 1 as [s|s1 s2 s3 Hop Hrest IH]; intros Hinv.
  - split; [exact Hinv|apply same_configuration_refl].
  - destruct (operation_invariant _ _ Hop Hinv) as [Hinv2 Hconf2].
    destruct (IH Hinv2) as [Hinv3 Hconf3].
    split; [exact Hinv3|]. eapply same_configuration_trans; eassumption.
Qed.

(** A running backend satisfies the invariant, and its resource description
    is the one it was configured with. *)
Lemma running_invariant (info : HardwareInfo) (s : GenericSystem) :
  running info s → backend_invariant s ∧ info_ s = info.
Proof.
  intros (Hstd & now & s0 & Hconf & Hops).
  pose proof (configure_invariant _ _ _ _ Hstd Hconf) as Hinv0.
  destruct (operates_invariant _ _ Hops Hinv0) as [Hinv Hsame].
  split; [exact Hinv|].
  apply configure_inv in Hconf
    as (? & ? & ? & ? & ? & ? & ? & ? & ? & _ & _ & _ & _ & _ & _ & Hinfo & _).
  rewrite (proj1 Hsame). exact Hinfo.
Qed.

(** ** One cycle of a running backend *)

Lemma not_follower_Forall (s : GenericSystem) (j : nat) :
  j ∉ followers s → Forall (fun r => joint_index r ≠ j) (mimic_joints_ s).
Proof.
  intros Hj. apply Forall_forall. intros r Hr Heq. apply Hj.
  unfold followers. apply list_elem_of_fmap. exists r. split; [symmetry; exact Heq|exact Hr].
Qed.

Lemma propagated_rect (s : GenericSystem) (period : float) :
  backend_invariant s →
  rect (length (read_propagate s period).1) (length (joints (info_ s)))
    (read_propagate s period).1
  ∧ length (read_propagate s period).1 = length standard_interfaces_.
Proof.
  intros (Hrows & Hwf & _).
  destruct (read_propagate_cells s period Hwf) as (Hsh & _).
  rewrite (proj1 Hsh). split; [|exact Hrows].
  eapply rect_same_shape; [exact Hsh|]. apply Hwf.
Qed.

(** The joint states of a joint that follows no other joint are those the
    propagation loops computed. *)
Lemma read_joint_state_cell (now : Z) (s : GenericSystem) (i j : nat) :
  backend_invariant s →
  (i < length standard_interfaces_)%nat → (j < length (joints (info_ s)))%nat →
  j ∉ followers s →
  cell (joint_states_ (read now s).2) i j = propagated_cell s (elapsed now s) i j.
Proof.
  intros Hinv Hi Hj Hnf.
  pose proof Hinv as (Hrows & Hwf & _ & Hmimic & _).
  destruct (propagated_rect s (elapsed now s) Hinv) as [Hrect _].
  rewrite read_joint_states.
  rewrite (read_mimic_untouched _ _ _ i j Hrect (wf_mimic_followers s Hmimic)
             (not_follower_Forall s j Hnf)).
  apply read_propagate_cells; [exact Hwf|lia|exact Hj].
Qed.

Lemma read_joint_command_cell (now : Z) (s : GenericSystem) (i j : nat) :
  backend_invariant s → (j < length (joints (info_ s)))%nat →
  cell (joint_commands_ (read now s).2) i j
  = if velocity_active s j && bool_decide (i = POSITION_INTERFACE_INDEX)
    then propagated_position s (elapsed now s) j
    else cell (joint_commands_ s) i j.
Proof.
  intros (_ & Hwf & _) Hj. rewrite read_joint_commands.
  apply read_propagate_cells; assumption.
Qed.

(** C1 (amended): for every joint of a running backend that is not the
    follower of a mimic relation, when the velocity controller runs,
    command propagation is not disabled and the joint's velocity command v
    is not the unset sentinel, one cycle with elapsed time dt leaves
    position state = old position state + v * dt (in binary64 arithmetic),
    velocity state = v, and position command = the new position state. *)
Theorem read_velocity_joint (info : HardwareInfo) (s : GenericSystem) (now : Z)
    (j : nat) :
  running info s →
  (j < length (joints info))%nat →
  j ∉ followers s →
  velocity_controller_running_ s = true →
  command_propagation_disabled_ s = false →
  is_nan (cell (joint_commands_ s) VELOCITY_INTERFACE_INDEX j) = false →
  period_ (read now s).2 = elapsed now s
  ∧ cell (joint_states_ (read now s).2) POSITION_INTERFACE_INDEX j
    = cell (joint_states_ s) POSITION_INTERFACE_INDEX j
      + cell (joint_commands_ s) VELOCITY_INTERFACE_INDEX j * elapsed now s
  ∧ cell (joint_states_ (read now s).2) VELOCITY_INTERFACE_INDEX j
    = cell (joint_commands_ s) VELOCITY_INTERFACE_INDEX j
  ∧ cell (joint_commands_ (read now s).2) POSITION_INTERFACE_INDEX j
    = cell (joint_states_ (read now s).2) POSITION_INTERFACE_INDEX j.
Proof.
  intros Hrun Hj Hnf Hvel Hdis Hnan.
  pose proof (proj1 Hrun) as Hstd.
  destruct (running_invariant info s Hrun) as [Hinv Hinfo]. rewrite <- Hinfo in Hj.
  pose proof Hinv as (_ & _ & _ & _ & _ & Hmodes & _).
  assert (Hpos : position_controller_running_ s = false).
  { rewrite Hvel, andb_true_r in Hmodes. exact Hmodes. }
  assert (Hva : velocity_active s j = true).
  { unfold velocity_active. rewrite Hnan, Hdis, Hvel. reflexivity. }
  assert (Hpa : position_active s j = false).
  { unfold position_active. rewrite Hpos. apply andb_false_r. }
  split; [apply read_period|].
  rewrite !read_joint_state_cell, read_joint_command_cell
    by (assumption || unfold POSITION_INTERFACE_INDEX, VELOCITY_INTERFACE_INDEX; lia).
  unfold propagated_cell, propagated_position, propagated_velocity.
  rewrite Hva, Hpa. repeat split.
Qed.

(** C2 (amended): the cycle has no guard on the elapsed time.  For every
    joint of a running backend that follows no other joint, when the
    position controller runs, propagation is not disabled and the position
    command is set, the velocity state after the cycle is
    (position command - previous position command) / dt for every clock
    reading, the position state is the command plus the offset as in any
    other cycle, and the previous command becomes the current one; a clock
    that has not advanced gives dt = 0, which is used as the divisor all the
    same. *)
Theorem read_velocity_derivation_unguarded (info : HardwareInfo)
    (s : GenericSystem) (now : Z) (j : nat) :
  running info s →
  (j < length (joints info))%nat →
  j ∉ followers s →
  position_controller_running_ s = true →
  command_propagation_disabled_ s = false →
  is_nan (cell (joint_commands_ s) POSITION_INTERFACE_INDEX j) = false →
  cell (joint_states_ (read now s).2) VELOCITY_INTERFACE_INDEX j
  = (cell (joint_commands_ s) POSITION_INTERFACE_INDEX j
     - joint_pos_commands_old_ s !!! j) / elapsed now s
  ∧ cell (joint_states_ (read now s).2) POSITION_INTERFACE_INDEX j
    = cell (joint_commands_ s) POSITION_INTERFACE_INDEX j + position_offset s
  ∧ joint_pos_commands_old_ (read now s).2 !!! j
    = cell (joint_commands_ s) POSITION_INTERFACE_INDEX j
  ∧ elapsed (begin s) s = 0.0.
Proof.
  intros Hrun Hj Hnf Hpos Hdis Hnan.
  pose proof (proj1 Hrun) as Hstd.
  destruct (running_invariant info s Hrun) as [Hinv Hinfo]. rewrite <- Hinfo in Hj.
  pose proof Hinv as (_ & _ & _ & _ & _ & Hmodes & _).
  assert (Hvel : velocity_controller_running_ s = false).
  { rewrite Hpos in Hmodes. exact Hmodes. }
  assert (Hva : velocity_active s j = false).
  { unfold velocity_active. rewrite Hvel. apply andb_false_r. }
  assert (Hpa : position_active s j = true).
  { unfold position_active. rewrite Hnan, Hdis, Hpos. reflexivity. }
  rewrite !read_joint_state_cell
    by (assumption || unfold POSITION_INTERFACE_INDEX, VELOCITY_INTERFACE_INDEX; lia).
  unfold propagated_cell, propagated_position, propagated_velocity.
  rewrite Hva, Hpa.
  rewrite (proj2 (Nat.ltb_lt 1 (length standard_interfaces_))) by lia.
  split; [reflexivity|]. split; [reflexivity|]. split.
  - rewrite read_joint_pos_commands_old.
    change (((read_propagate s (elapsed now s)).2 !!! POSITION_INTERFACE_INDEX) !!! j)
      with (cell (read_propagate s (elapsed now s)).2 POSITION_INTERFACE_INDEX j).
    rewrite <- read_joint_commands, read_joint_command_cell by assumption.
    rewrite Hva. reflexivity.
  - unfold elapsed. rewrite Z.sub_diag. reflexivity.
Qed.

(** C8 (amended): for every joint of a running backend that follows no
    other joint, when the position controller runs, propagation is not
    disabled and the position command is set, the cycle leaves position
    state = position command + offset, the offset being the configured one
    when no custom interface is named and 0.0 otherwise; a binding index
    away from its sentinel implies that a custom interface is named, so the
    position state then gets no offset; and in the bound row of the other
    interfaces the state of every joint becomes its current position
    command + the configured offset when that command is set, and loops
    back its own command (when set) otherwise. *)
Theorem read_position_joint (info : HardwareInfo) (s : GenericSystem) (now : Z)
    (j : nat) :
  running info s →
  (j < length (joints info))%nat →
  (j ∉ followers s →
   position_controller_running_ s = true →
   command_propagation_disabled_ s = false →
   is_nan (cell (joint_commands_ s) POSITION_INTERFACE_INDEX j) = false →
   cell (joint_states_ (read now s).2) POSITION_INTERFACE_INDEX j
   = cell (joint_commands_ s) POSITION_INTERFACE_INDEX j
     + (if bool_decide (custom_interface_with_following_offset_ s = "")
        then position_state_following_offset_ s else 0.0)
   ∧ cell (joint_commands_ (read now s).2) POSITION_INTERFACE_INDEX j
     = cell (joint_commands_ s) POSITION_INTERFACE_INDEX j)
  ∧ (index_custom_interface_with_following_offset_ s ≠ SIZE_MAX →
     custom_interface_with_following_offset_ s ≠ "")
  ∧ (∀ i, (i < length (other_interfaces_ s))%nat →
       Z.of_nat i = index_custom_interface_with_following_offset_ s →
       cell (other_states_ (read now s).2) i j
       = if is_nan (cell (joint_commands_ (read now s).2) POSITION_INTERFACE_INDEX j)
         then
           if is_nan (cell (other_commands_ s) i j)
           then cell (other_states_ s) i j
           else cell (other_commands_ s) i j
         else cell (joint_commands_ (read now s).2) POSITION_INTERFACE_INDEX j
              + position_state_following_offset_ s).
Proof.
  intros Hrun Hj.
  pose proof (proj1 Hrun) as Hstd.
  destruct (running_invariant info s Hrun) as [Hinv Hinfo]. rewrite <- Hinfo in Hj.
  pose proof Hinv as (_ & _ & [Hoc Hos] & _ & _ & Hmodes & Hidx).
  split; [|split].
  - intros Hnf Hpos Hdis Hnan.
    assert (Hvel : velocity_controller_running_ s = false).
    { rewrite Hpos in Hmodes. exact Hmodes. }
    assert (Hva : velocity_active s j = false).
    { unfold velocity_active. rewrite Hvel. apply andb_false_r. }
    assert (Hpa : position_active s j = true).
    { unfold position_active. rewrite Hnan, Hdis, Hpos. reflexivity. }
    rewrite read_joint_state_cell, read_joint_command_cell
      by (assumption || unfold POSITION_INTERFACE_INDEX; lia).
    unfold propagated_cell, propagated_position. rewrite Hva, Hpa.
    split; reflexivity.
  - intros Hbound Hempty. apply Hbound. rewrite Hidx, Hempty. reflexivity.
  - intros i Hi Hbound. rewrite read_other_states, <- read_joint_commands.
    destruct (read_other_cells s (joint_commands_ (read now s).2) (other_states_ s))
      as [_ Hcells].
    rewrite Hcells.
    + rewrite Hbound, Z.eqb_refl. simpl.
      destruct (is_nan (cell (joint_commands_ (read now s).2) POSITION_INTERFACE_INDEX j));
        simpl; [|reflexivity].
      destruct (is_nan (cell (other_commands_ s) i j)); reflexivity.
    + rewrite (proj1 Hos). exact Hi.
    + rewrite (rect_row_length _ _ _ _ Hos Hi). exact Hj.
Qed.

(** ** Mimic coupling in a cycle *)

(** In a list of relations sorted by follower, the relations after a given
    one have larger followers. *)
Lemma sorted_followers_after (before after : list MimicJoint) (r : MimicJoint) :
  StronglySorted lt (joint_index <$> (before ++ r :: after)) →
  Forall (fun r' => (joint_index r < joint_index r')%nat) after.
Proof.
  rewrite fmap_app, fmap_cons. intros Hsorted.
  apply StronglySorted_app_1_r in Hsorted.
  apply StronglySorted_inv in Hsorted as [_ Hall].
  rewrite Forall_fmap in Hall. exact Hall.
Qed.

(** C4 (amended): for every mimic relation of a running backend whose
    leader is not itself a follower, or is one with a smaller index than
    this relation's follower, after every cycle the follower's state in
    every standard row (the rows of the joint matrix) equals the multiplier
    times the leader's state in that row after the same cycle.  The
    overwrite is applied to the joint states that the position, velocity
    and loopback loops of this cycle produced; the rows of the other
    interfaces are computed after it and are not coupled. *)
Theorem read_mimic_law (info : HardwareInfo) (s : GenericSystem) (now : Z)
    (r : MimicJoint) :
  running info s →
  r ∈ mimic_joints_ s →
  (mimicked_joint_index r ∈ followers s →
   (mimicked_joint_index r < joint_index r)%nat) →
  (∀ i, (i < length standard_interfaces_)%nat →
     cell (joint_states_ (read now s).2) i (joint_index r)
     = multiplier r * cell (joint_states_ (read now s).2) i (mimicked_joint_index r))
  ∧ joint_states_ (read now s).2
    = read_mimic (mimic_joints_ s) (read_propagate s (elapsed now s)).1
  ∧ other_states_ (read now s).2
    = read_other s (joint_commands_ (read now s).2) (other_states_ s).
Proof.
  intros Hrun Hr Hleader.
  destruct (running_invariant info s Hrun) as [Hinv Hinfo].
  pose proof Hinv as (_ & _ & _ & Hmimic & Hsorted & _).
  destruct (propagated_rect s (elapsed now s) Hinv) as [Hrect Hlen].
  split; [|split; [apply read_joint_states|]];
    [|rewrite read_joint_commands; apply read_other_states].
  intros i Hi. rewrite read_joint_states.
  apply list_elem_of_split in Hr as (before & after & Hsplit).
  unfold followers in *. rewrite Hsplit in *.
  pose proof (sorted_followers_after _ _ _ Hsorted) as Hafter.
  pose proof (wf_mimic_followers s Hmimic) as Hcols. rewrite Hsplit in Hcols.
  rewrite (read_mimic_follower before after r _ _ i Hrect Hcols); [| |lia].
  - f_equal. rewrite read_mimic_app. symmetry.
    pose proof Hcols as Hcols'. apply Forall_app in Hcols' as [Hcb Hca].
    apply (read_mimic_untouched _ _ (length (joints (info_ s)))).
    + pose proof (read_mimic_shape before _ _ Hrect Hcb) as Hsh.
      rewrite (proj1 Hsh). eapply rect_same_shape; eassumption.
    + exact Hca.
    + assert (Hge : Forall (fun r' => (joint_index r ≤ joint_index r')%nat) (r :: after)).
      { constructor; [lia|]. eapply Forall_impl; [exact Hafter|]. simpl. lia. }
      apply Forall_forall. intros r' Hr' Heq.
      rewrite Forall_forall in Hge. specialize (Hge r' Hr').
      assert (Hin : mimicked_joint_index r ∈ joint_index <$> before ++ r :: after).
      { apply list_elem_of_fmap. exists r'. split; [symmetry; exact Heq|].
        apply elem_of_app. right. exact Hr'. }
      specialize (Hleader Hin). lia.
  - eapply Forall_impl; [exact Hafter|]. simpl. lia.
Qed.

Lemma gated_propagation (s : GenericSystem) (period : float) (i j : nat) :
  command_propagation_disabled_ s = true
  ∨ (position_controller_running_ s = false ∧ velocity_controller_running_ s = false) →
  (i < 2)%nat →
  propagated_cell s period i j = cell (joint_states_ s) i j.
Proof.
  intros Hgate Hi.
  assert (Hpa : position_active s j = false).
  { unfold position_active. destruct Hgate as [->|[-> _]];
      rewrite ?andb_false_r; reflexivity. }
  assert (Hva : velocity_active s j = false).
  { unfold velocity_active. destruct Hgate as [->|[_ ->]];
      rewrite ?andb_false_r; reflexivity. }
  unfold propagated_cell, propagated_position, propagated_velocity.
  rewrite Hpa, Hva. unfold POSITION_INTERFACE_INDEX, VELOCITY_INTERFACE_INDEX.
  destruct i as [|[|i]]; [reflexivity|reflexivity|lia].
Qed.


(** ** Interface catalog and storage slots *)

Lemma index_of_Some (v : list string) (x : string) (j : nat) :
  index_of v x = Some j → v !! j = Some x.
Proof.
  unfold index_of. intros H.
  destruct (list_find (fun y => y = x) v) as [[j' y]|] eqn:Hfind; [|discriminate].
  simpl in H. injection H as ->.
  apply list_find_Some in Hfind as (Hlookup & -> & _). exact Hlookup.
Qed.

Lemma index_of_is_Some (v : list string) (x : string) :
  is_Some (index_of v x) ↔ x ∈ v.
Proof.
  split.
  - intros [j Hj]. apply index_of_Some in Hj. eapply list_elem_of_lookup_2. exact Hj.
  - intros Hin. unfold index_of.
    destruct (list_find_elem_of (fun y => y = x) v x Hin eq_refl) as [[j y] Hfind].
    rewrite Hfind. eexists. reflexivity.
Qed.

Lemma index_of_None (v : list string) (x : string) :
  index_of v x = None ↔ x ∉ v.
Proof.
  rewrite <- index_of_is_Some. rewrite eq_None_not_Some. reflexivity.
Qed.

(** One joint's interfaces added to the list of other interfaces. *)
Lemma elem_of_add_other_interfaces (interfaces : list InterfaceInfo)
    (others : list string) (x : string) :
  x ∈ for_each interfaces add_other_interface others
  ↔ x ∈ others ∨ ((x ∉ standard_interfaces_) ∧ x ∈ (interface_name <$> interfaces)).
Proof.
  clear stod.
  set (P := fun (done : list InterfaceInfo) (acc : list string) =>
    x ∈ acc ↔ x ∈ others ∨ ((x ∉ standard_interfaces_) ∧ x ∈ (interface_name <$> done))).
  apply (for_each_ind P); unfold P; clear P.
  - simpl. split; [auto|]. intros [H|[_ H]]; [exact H|].
    apply elem_of_nil in H. contradiction.
  - intros done interface acc IH. unfold add_other_interface, contains.
    rewrite fmap_app, elem_of_app. simpl. rewrite list_elem_of_singleton.
    destruct (decide (interface_name interface ∈ standard_interfaces_)) as [Hstd|Hstd];
      [|destruct (decide (interface_name interface ∈ acc)) as [Hacc|Hacc]].
    + rewrite (bool_decide_eq_true_2 _ Hstd). simpl. rewrite IH.
      split; [tauto|]. intros [H|[Hns [H|Heq]]]; [tauto|tauto|].
      subst x. contradiction.
    + rewrite (bool_decide_eq_false_2 _ Hstd), (bool_decide_eq_true_2 _ Hacc). simpl.
      split; [rewrite IH; tauto|]. intros [H|[Hns [H|Heq]]].
      * apply IH. tauto.
      * apply IH. tauto.
      * subst x. exact Hacc.
    + rewrite (bool_decide_eq_false_2 _ Hstd), (bool_decide_eq_false_2 _ Hacc). simpl.
      rewrite elem_of_app, list_elem_of_singleton, IH.
      split; [|tauto]. intros [[H|H]|Heq]; [tauto|tauto|].
      subst x. tauto.
Qed.

(** The discovered other interfaces are the names that some joint declares
    and that are not standard. *)
Lemma elem_of_find_other_interfaces (joints : list ComponentInfo) (x : string) :
  x ∈ find_other_interfaces joints []
  ↔ (x ∉ standard_interfaces_)
    ∧ ∃ joint, joint ∈ joints
        ∧ (x ∈ declared_commands joint ∨ x ∈ declared_states joint).
Proof.
  clear stod. unfold find_other_interfaces.
  set (P := fun (done : list ComponentInfo) (acc : list string) =>
    x ∈ acc ↔ (x ∉ standard_interfaces_)
      ∧ ∃ joint, joint ∈ done
          ∧ (x ∈ declared_commands joint ∨ x ∈ declared_states joint)).
  apply (for_each_ind P); unfold P; clear P.
  - split; [intros H; apply elem_of_nil in H; contradiction|].
    intros (_ & joint & H & _). apply elem_of_nil in H. contradiction.
  - intros done joint acc IH.
    rewrite !elem_of_add_other_interfaces, IH.
    unfold declared_commands, declared_states. split.
    + intros [[(Hns & j & Hj & Hd)|[Hns Hc]]|[Hns Hst]].
      * split; [exact Hns|]. exists j. split; [apply elem_of_app; left; exact Hj|exact Hd].
      * split; [exact Hns|]. exists joint. split; [apply elem_of_app; right; left|left; exact Hc].
      * split; [exact Hns|]. exists joint. split; [apply elem_of_app; right; left|right; exact Hst].
    + intros (Hns & j & Hj & Hd). apply elem_of_app in Hj as [Hj|Hj].
      * left. left. split; [exact Hns|]. exists j. split; assumption.
      * apply list_elem_of_singleton in Hj. subst j.
        destruct Hd as [Hd|Hd]; [left; right|right]; tauto.
Qed.

(** A slot looked up in a matrix with one row per name of the list and one
    cell per joint exists exactly when the name is in the list. *)
Lemma lookup_cell_rect (interface_list : list string) (values : matrix)
    (cols i : nat) (interface : string) (j : nat) :
  rect (length interface_list) cols values → (i < cols)%nat →
  index_of interface_list interface = Some j →
  values !! j ≫= (fun row => row !! i) = Some (cell values j i)
  ∧ (j < length interface_list)%nat.
Proof.
  intros Hrect Hi Hj. apply index_of_Some in Hj. apply lookup_lt_Some in Hj.
  split; [|exact Hj]. unfold cell.
  rewrite (list_lookup_lookup_total_lt values j) by (rewrite (proj1 Hrect); exact Hj).
  simpl. apply list_lookup_lookup_total_lt.
  rewrite (rect_row_length _ _ _ _ Hrect Hj). exact Hi.
Qed.

(** The cells of the joint matrices right after [configure]. *)
Lemma configure_joint_cells (now : Z) (info : HardwareInfo) (s : GenericSystem)
    (j i : nat) :
  (2 ≤ length standard_interfaces_)%nat →
  configure now info = Returns (OK, s) →
  (j < length standard_interfaces_)%nat → (i < length (joints info))%nat →
  cell (joint_commands_ s) j i
  = (if bool_decide (j = VELOCITY_INTERFACE_INDEX) then 0.0 else quiet_NaN)
  ∧ cell (joint_states_ s) j i
    = (if is_nan (initial_value (joints info !!! i) (standard_interfaces_ !!! j))
       then 0.0
       else initial_value (joints info !!! i) (standard_interfaces_ !!! j)).
Proof.
  intros Hstd Hrun Hj Hi.
  apply configure_inv in Hrun
    as (offset & custom & jc & js & mimics & oc & os & sc & ss
        & _ & Hjoint & _ & _ & _ & _ & _ & _ & _ & _ & Hjc & Hjs & _).
  apply initialize_storage_vectors_spec in Hjoint as (-> & Hjsrect & Hcells).
  rewrite Hjc, Hjs. split.
  - destruct (zero_velocity_commands_cells
                (replicate (length standard_interfaces_)
                   (replicate (length (joints info)) quiet_NaN))
                (length (joints info))) as [_ Hc].
    + rewrite length_replicate. exact Hstd.
    + rewrite length_replicate. apply rect_replicate.
    + rewrite Hc by exact Hi. rewrite cell_replicate by assumption. reflexivity.
  - destruct (zero_unset_states_cells (joints info) js Hjsrect) as [_ Hc].
    rewrite Hc by assumption. destruct (Hcells j i Hj Hi) as [-> _]. reflexivity.
Qed.

(** The cells of the other matrices right after [configure]. *)
Lemma configure_other_cells (now : Z) (info : HardwareInfo) (s : GenericSystem)
    (j i : nat) :
  configure now info = Returns (OK, s) →
  (j < length (other_interfaces_ s))%nat → (i < length (joints info))%nat →
  cell (other_commands_ s) j i = quiet_NaN
  ∧ cell (other_states_ s) j i
    = initial_value (joints info !!! i) (other_interfaces_ s !!! j).
Proof.
  intros Hrun Hj Hi.
  apply configure_inv in Hrun
    as (offset & custom & jc & js & mimics & oc & os & sc & ss
        & _ & _ & _ & Hother & _ & _ & _ & _ & _ & _ & _ & _ & _ & Hoi & Hoc & Hos & _).
  apply initialize_storage_vectors_spec in Hother as (-> & Hosrect & Hcells).
  rewrite Hoi in *. rewrite Hoc, Hos. split.
  - apply cell_replicate; assumption.
  - apply Hcells; assumption.
Qed.


(** ** A custom interface that no joint declares *)

(** Naming a custom interface changes neither whether [configure] returns
    nor anything it computes, except the name and the binding index; the
    name is taken over only when the offset parameter is present. *)
Lemma configure_with_custom_interface (now : Z) (info : HardwareInfo) (custom : string)
    (s0 : GenericSystem) :
  hardware_parameters info !! "custom_interface_with_following_offset" = Some custom →
  configure now (without_custom_interface info) = Returns (OK, s0) →
  ∃ s, configure now info = Returns (OK, s)
    ∧ index_custom_interface_with_following_offset_ s
      = custom_index (find_other_interfaces (joints info) [])
          (custom_interface_with_following_offset_ s)
    ∧ other_interfaces_ s = find_other_interfaces (joints info) []
    ∧ ((is_Some (hardware_parameters info !! "position_state_following_offset")
        ∧ custom_interface_with_following_offset_ s = custom)
       ∨ (hardware_parameters info !! "position_state_following_offset" = None
          ∧ custom_interface_with_following_offset_ s = ""
          ∧ position_state_following_offset_ s = 0.0)).
Proof.
  intros Hcustom Hrun.
  apply configure_inv in Hrun
    as (offset & custom0 & jc & js & mimics & oc & os & sc & ss
        & Hparams & Hjoint & Hmimic & Hother & Hsensor & _).
  simpl in Hjoint, Hmimic, Hother, Hsensor.
  unfold following_parameters, without_custom_interface in Hparams. simpl in Hparams.
  rewrite lookup_delete_ne in Hparams by discriminate.
  unfold configure, configure_default.
  rewrite bool_decide_eq_false_2 by (intros H; apply H; reflexivity).
  destruct (hardware_parameters info !! "position_state_following_offset")
    as [text|] eqn:Htext.
  - apply bind_returns in Hparams as (x & Hx & _).
    rewrite Hx. simpl. rewrite Hcustom. simpl.
    rewrite Hjoint. simpl. rewrite Hmimic. simpl. rewrite Hother. simpl.
    rewrite Hsensor. simpl.
    eexists. split; [reflexivity|]. simpl. split; [reflexivity|].
    split; [reflexivity|]. left. split; [eexists; reflexivity|reflexivity].
  - simpl. rewrite Hjoint. simpl. rewrite Hmimic. simpl. rewrite Hother. simpl.
    rewrite Hsensor. simpl.
    eexists. split; [reflexivity|]. simpl. split; [reflexivity|].
    split; [reflexivity|]. right. repeat split.
Qed.

(** C10: when configuration names a custom interface for the following
    offset and no joint declares an other interface of that name,
    configure returns OK whenever it does without that parameter; the
    binding index stays at its sentinel, and from then on, in every cycle,
    no other interface receives the offset (every cell of the other rows
    loops its own command back) and the offset added to the position state
    is 0.0: the name that the backend took over (with the offset
    parameter) is non-empty. *)
Theorem configure_absent_custom_interface (now : Z) (info : HardwareInfo)
    (custom : string) (s0 : GenericSystem) :
  (2 ≤ length standard_interfaces_)%nat →
  hardware_parameters info !! "custom_interface_with_following_offset" = Some custom →
  custom ≠ "" →
  custom ∉ find_other_interfaces (joints info) [] →
  (Z.of_nat (length (find_other_interfaces (joints info) [])) ≤ SIZE_MAX)%Z →
  configure now (without_custom_interface info) = Returns (OK, s0) →
  ∃ s, configure now info = Returns (OK, s)
    ∧ index_custom_interface_with_following_offset_ s = SIZE_MAX
    ∧ (is_Some (hardware_parameters info !! "position_state_following_offset") →
       custom_interface_with_following_offset_ s = custom)
    ∧ ∀ s' now' j, operates s s' → (j < length (joints info))%nat →
        position_offset s' = 0.0
        ∧ (j ∉ followers s' →
           position_controller_running_ s' = true →
           command_propagation_disabled_ s' = false →
           is_nan (cell (joint_commands_ s') POSITION_INTERFACE_INDEX j) = false →
           cell (joint_states_ (read now' s').2) POSITION_INTERFACE_INDEX j
           = cell (joint_commands_ s') POSITION_INTERFACE_INDEX j + 0.0)
        ∧ ∀ i, (i < length (other_interfaces_ s'))%nat →
            cell (other_states_ (read now' s').2) i j
            = if is_nan (cell (other_commands_ s') i j)
              then cell (other_states_ s') i j
              else cell (other_commands_ s') i j.
Proof.
  intros Hstd Hcustom Hne Habsent Hsize Hrun.
  destruct (configure_with_custom_interface now info custom s0 Hcustom Hrun)
    as (s & Hconf & Hindex & Hothers & Hname).
  assert (Hsentinel : index_custom_interface_with_following_offset_ s = SIZE_MAX).
  { rewrite Hindex. unfold custom_index.
    destruct Hname as [[_ ->]|(_ & -> & _)]; [|reflexivity].
    rewrite bool_decide_eq_false_2 by exact Hne. simpl.
    rewrite (proj2 (index_of_None _ _) Habsent). reflexivity. }
  assert (Hoffset0 : position_offset s = 0.0).
  { unfold position_offset. destruct Hname as [[_ ->]|(_ & -> & ->)]; [|reflexivity].
    rewrite bool_decide_eq_false_2 by exact Hne. reflexivity. }
  exists s. split; [exact Hconf|]. split; [exact Hsentinel|]. split.
  { intros [text Htext]. destruct Hname as [[_ Hn]|(Hnone & _)]; [exact Hn|].
    rewrite Htext in Hnone. discriminate. }
  intros s' now' j Hops Hj.
  assert (Hrun' : running info s').
  { split; [exact Hstd|]. exists now, s. split; assumption. }
  destruct (running_invariant info s' Hrun') as [Hinv Hinfo].
  pose proof (configure_invariant _ _ _ _ Hstd Hconf) as Hinv0.
  destruct (operates_invariant _ _ Hops Hinv0)
    as [_ (_ & _ & _ & Hoff' & Hname' & Hindex' & Hothers' & _)].
  assert (Hoffset : position_offset s' = 0.0).
  { unfold position_offset in *. rewrite Hname', Hoff'. exact Hoffset0. }
  split; [exact Hoffset|]. split.
  - intros Hnf Hpos Hdis Hnan.
    pose proof Hinv as (_ & _ & _ & _ & _ & Hmodes & _).
    assert (Hvel : velocity_controller_running_ s' = false).
    { rewrite Hpos in Hmodes. exact Hmodes. }
    rewrite read_joint_state_cell
      by (rewrite ?Hinfo; assumption || unfold POSITION_INTERFACE_INDEX; lia).
    unfold propagated_cell, propagated_position, velocity_active, position_active.
    rewrite Hnan, Hdis, Hpos, Hvel, Hoffset, andb_false_r. reflexivity.
  - intros i Hi.
    pose proof Hinv as (_ & _ & [Hoc Hos] & _).
    rewrite read_other_states.
    destruct (read_other_cells s' (read_propagate s' (elapsed now' s')).2 (other_states_ s'))
      as [_ Hcells].
    rewrite Hcells.
    + rewrite Hindex', Hsentinel.
      rewrite (proj2 (Z.eqb_neq (Z.of_nat i) SIZE_MAX)).
      * simpl. destruct (is_nan (cell (other_commands_ s') i j)); reflexivity.
      * rewrite Hothers', Hothers in Hi. lia.
    + rewrite (proj1 Hos). exact Hi.
    + rewrite (rect_row_length _ _ _ _ Hos Hi), Hinfo. exact Hj.
Qed.

(** ** Scripts *)

Lemma run_operates (calls : list call) (s : GenericSystem) :
  operates s (run calls s).
Proof.
  unfold run, for_each. revert s.
  induction calls as [|c calls IH]; intros s; simpl; [apply rtc_refl|].
  assert (Hone : operates s (run_call c s)).
  { destruct c as [now|start stop|start stop|i interface v]; simpl.
    - apply rtc_once. constructor.
    - apply rtc_once. constructor.
    - apply rtc_once. constructor.
    - destruct (joints (info_ s) !! i) as [joint|] eqn:Hjoint; [|apply rtc_refl].
      case_bool_decide as Hdecl; [|apply rtc_refl].
      apply rtc_once. econstructor; eassumption. }
  eapply rtc_trans; [exact Hone|apply IH].
Qed.

(** A script run on what [configure] returned is a running backend. *)
Lemma run_running (now : Z) (info : HardwareInfo) (calls : list call) :
  (2 ≤ length standard_interfaces_)%nat →
  (∃ s, configure now info = Returns (OK, s)) →
  running info (run calls (configured now info)).
Proof.
  intros Hstd [s Hconf]. split; [exact Hstd|]. exists now, s.
  split; [exact Hconf|]. unfold configured. rewrite Hconf. apply run_operates.
Qed.

(** ** CommandModeGate: perform on a running backend *)

(** C7: every perform call on a running backend returns OK and first
    clears both mode flags; if the validated start modes contain position
    it copies every joint's position state into its position command and
    sets the position flag; otherwise, if they contain velocity, it zeroes
    every joint's velocity command and sets the velocity flag; otherwise
    both flags stay cleared and no command changes.  It never writes a
    state. *)
Theorem perform_command_mode_switch_spec (info : HardwareInfo)
    (start_interfaces stop_interfaces : list string) (s : GenericSystem) :
  running info s →
  let r := perform_command_mode_switch start_interfaces stop_interfaces s in
  r.1 = OK
  ∧ joint_states_ r.2 = joint_states_ s
  ∧ same_shape (joint_commands_ r.2) (joint_commands_ s)
  ∧ if contains (start_modes_ s) HW_IF_POSITION then
      position_controller_running_ r.2 = true
      ∧ velocity_controller_running_ r.2 = false
      ∧ ∀ j, (j < length (joints info))%nat →
          cell (joint_commands_ r.2) POSITION_INTERFACE_INDEX j
          = cell (joint_states_ s) POSITION_INTERFACE_INDEX j
    else if contains (start_modes_ s) HW_IF_VELOCITY then
      position_controller_running_ r.2 = false
      ∧ velocity_controller_running_ r.2 = true
      ∧ ∀ j, (j < length (joints info))%nat →
          cell (joint_commands_ r.2) VELOCITY_INTERFACE_INDEX j = 0.0
    else
      position_controller_running_ r.2 = false
      ∧ velocity_controller_running_ r.2 = false
      ∧ joint_commands_ r.2 = joint_commands_ s.
Proof.
  intros Hrun.
  destruct (running_invariant info s Hrun) as [(_ & Hwf & _) <-].
  apply perform_command_mode_switch_cells, Hwf.
Qed.

(** * Further properties of the backend *)

(** ** The configuration and the sensor storage over a run *)

Lemma operation_same_configuration (s s' : GenericSystem) :
  operation s s' → same_configuration s s'.
Proof.
  intros [now s0|start stop s0|start stop s0|i joint interface v s0 _ _
          |i sensor interface v s0 _ _ _].
  - apply read_same_configuration.
  - apply prepare_same_configuration.
  - apply perform_same_configuration.
  - apply write_command_fields.
  - apply write_fake_sensor_command_fields.
Qed.

Lemma operates_same_configuration (s s' : GenericSystem) :
  operates s s' → same_configuration s s'.
Proof.
  induction 1 as [s|s1 s2 s3 Hop _ IH]; [apply same_configuration_refl|].
  eapply same_configuration_trans; [apply operation_same_configuration; exact Hop|exact IH].
Qed.

(** The sensor members after one cycle. *)
Lemma read_sensor_fields (now : Z) (s : GenericSystem) :
  sensor_fake_commands_ (read now s).2 = sensor_fake_commands_ s
  ∧ sensor_states_ (read now s).2
    = if fake_sensor_command_interfaces_ s
      then read_sensors (sensor_fake_commands_ s) (sensor_states_ s)
      else sensor_states_ s.
Proof. unfold read. destruct (read_propagate _ _). split; reflexivity. Qed.

(** The loop over the sensor rows, cell by cell. *)
Lemma read_sensors_cells (fake_commands sensor_states : matrix) :
  same_shape (read_sensors fake_commands sensor_states) sensor_states
  ∧ ∀ i j, (i < length sensor_states)%nat → (j < length (sensor_states !!! i))%nat →
      cell (read_sensors fake_commands sensor_states) i j
      = if is_nan (cell fake_commands i j)
        then cell sensor_states i j else cell fake_commands i j.
Proof.
  assert (Heq : read_sensors fake_commands sensor_states
    = for_loop_from 0 (length sensor_states) (fun i acc =>
        for_loop (length (acc !!! i))
          (fun j acc => if negb (is_nan (cell fake_commands i j))
                        then set_cell acc i j (cell fake_commands i j) else acc) acc)
        sensor_states).
  { unfold read_sensors. rewrite for_loop_from_0. reflexivity. }
  rewrite Heq.
  destruct (cellwise_loop (fun i j => negb (is_nan (cell fake_commands i j)))
              (cell fake_commands) 0 sensor_states) as [Hsh Hcells].
  split; [exact Hsh|]. intros i j Hi Hj. rewrite Hcells.
  rewrite bool_decide_eq_true_2 by lia.
  destruct (is_nan (cell fake_commands i j)); reflexivity.
Qed.

(** What [configure] leaves in the members that the sensors and the
    hardware parameters decide. *)
Lemma configure_sensor_fields (now : Z) (info : HardwareInfo) (ret : return_type)
    (s : GenericSystem) :
  configure now info = Returns (ret, s) →
  sensor_interfaces_ s = find_sensor_interfaces (sensors info) []
  ∧ initialize_storage_vectors (joints info) [] []
      (find_sensor_interfaces (sensors info) [])
    = Returns (sensor_fake_commands_ s, sensor_states_ s)
  ∧ fake_sensor_command_interfaces_ s
    = match hardware_parameters info !! "fake_sensor_commands" with
      | Some text => is_true_text text
      | None => false
      end
  ∧ command_propagation_disabled_ s
    = match hardware_parameters info !! "disable_commands" with
      | Some text => is_true_text text
      | None => false
      end
  ∧ start_modes_ s = replicate 6 HW_IF_POSITION.
Proof.
  unfold configure, configure_default.
  rewrite bool_decide_eq_false_2 by (intros H; apply H; reflexivity).
  intros Hrun.
  apply bind_returns in Hrun as ([offset custom] & Hparams & Hrun).
  apply bind_returns in Hrun as ([jc js] & Hjoint & Hrun).
  apply bind_returns in Hrun as (mimics & Hmimic & Hrun).
  apply bind_returns in Hrun as ([oc os] & Hother & Hrun).
  apply bind_returns in Hrun as ([sc ss] & Hsensor & Hrun).
  injection Hrun as <- <-. simpl. repeat split. exact Hsensor.
Qed.

Lemma configure_sensor_storage (now : Z) (info : HardwareInfo) (ret : return_type)
    (s : GenericSystem) :
  configure now info = Returns (ret, s) → wf_sensor_storage s.
Proof.
  intros Hrun.
  destruct (configure_sensor_fields _ _ _ _ Hrun) as (Hsi & Hinit & _).
  apply configure_inv in Hrun
    as (? & ? & ? & ? & ? & ? & ? & ? & ? & _ & _ & _ & _ & _ & _ & Hinfo & _).
  apply initialize_storage_vectors_spec in Hinit as (Hfake & Hrect & _).
  unfold wf_sensor_storage. rewrite Hsi, Hinfo, Hfake.
  split; [apply rect_replicate|exact Hrect].
Qed.

Lemma operation_sensor_storage (s s' : GenericSystem) :
  operation s s' → wf_sensor_storage s → wf_sensor_storage s'.
Proof.
  intros Hop [Hfake Hstates].
  pose proof (operation_same_configuration _ _ Hop)
    as (Hinfo & _ & _ & _ & _ & _ & _ & Hsi & _).
  unfold wf_sensor_storage. rewrite Hinfo, Hsi.
  destruct Hop as [now s|start stop s|start stop s|i joint interface v s _ _
                   |i sensor interface v s _ _ _].
  - destruct (read_sensor_fields now s) as [-> ->]. split; [exact Hfake|].
    destruct (fake_sensor_command_interfaces_ s); [|exact Hstates].
    eapply rect_same_shape; [apply read_sensors_cells|exact Hstates].
  - split; assumption.
  - unfold perform_command_mode_switch.
    repeat (match goal with |- context [if ?b then _ else _] => destruct b end);
      split; assumption.
  - unfold write_command, get_interface.
    destruct (index_of standard_interfaces_ interface) as [j|]; simpl;
      [|destruct (index_of (other_interfaces_ s) interface) as [j|]; simpl];
      split; assumption.
  - unfold write_fake_sensor_command, get_interface.
    destruct (index_of (sensor_interfaces_ s) interface) as [j|]; simpl;
      [|split; assumption].
    split; [|exact Hstates].
    eapply rect_same_shape; [apply same_shape_set_cell|exact Hfake].
Qed.

Lemma operates_sensor_storage (s s' : GenericSystem) :
  operates s s' → wf_sensor_storage s → wf_sensor_storage s'.
Proof.
  induction 1 as [s|s1 s2 s3 Hop _ IH]; intros Hwf; [exact Hwf|].
  apply IH. eapply operation_sensor_storage; eassumption.
Qed.

(** A running backend, with what [configure] returned named. *)
Lemma running_configured (info : HardwareInfo) (s : GenericSystem) :
  running info s →
  ∃ now s0, configure now info = Returns (OK, s0)
    ∧ operates s0 s ∧ same_configuration s0 s ∧ wf_sensor_storage s.
Proof.
  intros (_ & now & s0 & Hconf & Hops). exists now, s0.
  split; [exact Hconf|]. split; [exact Hops|].
  split; [apply operates_same_configuration; exact Hops|].
  eapply operates_sensor_storage; [exact Hops|].
  eapply configure_sensor_storage; exact Hconf.
Qed.

(** ** Cycles without propagation *)

(** X10: With command propagation disabled, or with no controller running, a
    cycle of a running backend leaves every command of a joint as it was
    and, unless the joint follows another joint, leaves its position and
    its velocity state as they were. *)
Theorem read_without_propagation (info : HardwareInfo) (s : GenericSystem)
    (now : Z) (j : nat) :
  running info s →
  (j < length (joints info))%nat →
  command_propagation_disabled_ s = true
  ∨ (position_controller_running_ s = false ∧ velocity_controller_running_ s = false) →
  (∀ i, cell (joint_commands_ (read now s).2) i j = cell (joint_commands_ s) i j)
  ∧ (j ∉ followers s →
     ∀ i, (i < 2)%nat →
       cell (joint_states_ (read now s).2) i j = cell (joint_states_ s) i j).
Proof.
  intros Hrun Hj Hgate.
  destruct (running_invariant _ _ Hrun) as [Hinv Hinfo].
  pose proof Hrun as [Hstd _]. rewrite <- Hinfo in Hj.
  split.
  - intros i. rewrite (read_joint_command_cell now s i j Hinv Hj).
    assert (Hva : velocity_active s j = false).
    { unfold velocity_active. destruct Hgate as [->|[_ ->]];
        rewrite ?andb_false_r; reflexivity. }
    rewrite Hva. reflexivity.
  - intros Hnf i Hi.
    rewrite (read_joint_state_cell now s i j Hinv) by (assumption || lia).
    apply gated_propagation; assumption.
Qed.

(** X11: The standard rows after position and velocity (acceleration, effort,
    ...) are looped back in every cycle, whatever the mode flags and the
    propagation switch: for a joint that follows no other joint, the state
    takes the command when the command is set and stays otherwise. *)
Theorem read_loopback_rows (info : HardwareInfo) (s : GenericSystem)
    (now : Z) (i j : nat) :
  running info s →
  (2 ≤ i < length standard_interfaces_)%nat →
  (j < length (joints info))%nat →
  j ∉ followers s →
  cell (joint_states_ (read now s).2) i j
  = (if is_nan (cell (joint_commands_ s) i j)
     then cell (joint_states_ s) i j else cell (joint_commands_ s) i j)
  ∧ cell (joint_commands_ (read now s).2) i j = cell (joint_commands_ s) i j.
Proof.
  intros Hrun Hi Hj Hnf.
  destruct (running_invariant _ _ Hrun) as [Hinv Hinfo]. rewrite <- Hinfo in Hj.
  split.
  - rewrite (read_joint_state_cell now s i j Hinv) by (assumption || lia).
    unfold propagated_cell, POSITION_INTERFACE_INDEX, VELOCITY_INTERFACE_INDEX.
    rewrite !bool_decide_eq_false_2 by lia.
    destruct (is_nan (cell (joint_commands_ s) i j)); reflexivity.
  - rewrite (read_joint_command_cell now s i j Hinv Hj).
    unfold POSITION_INTERFACE_INDEX.
    rewrite (bool_decide_eq_false_2 (i = 0%nat)) by lia.
    rewrite andb_false_r. reflexivity.
Qed.

(** ** Sensors *)

(** X12: The sensor loop of a cycle: with fake sensor commands on, every cell of
    the sensor states takes its fake command when that one is set and stays
    otherwise; with fake sensor commands off the sensor states are not
    touched.  The fake commands themselves are never written by a cycle.
    The cells of a sensor row are indexed like the joints. *)
Theorem read_sensor_loopback (info : HardwareInfo) (s : GenericSystem) (now : Z) :
  running info s →
  sensor_fake_commands_ (read now s).2 = sensor_fake_commands_ s
  ∧ (fake_sensor_command_interfaces_ s = false →
     sensor_states_ (read now s).2 = sensor_states_ s)
  ∧ (fake_sensor_command_interfaces_ s = true →
     ∀ i j, (i < length (sensor_interfaces_ s))%nat → (j < length (joints info))%nat →
       cell (sensor_states_ (read now s).2) i j
       = if is_nan (cell (sensor_fake_commands_ s) i j)
         then cell (sensor_states_ s) i j
         else cell (sensor_fake_commands_ s) i j).
Proof.
  intros Hrun.
  destruct (running_configured _ _ Hrun) as (now0 & s0 & _ & _ & _ & [_ Hrect]).
  destruct (running_invariant _ _ Hrun) as [_ Hinfo]. rewrite Hinfo in Hrect.
  destruct (read_sensor_fields now s) as [Hfake Hstates].
  split; [exact Hfake|]. rewrite Hstates. split.
  - intros ->. reflexivity.
  - intros -> i j Hi Hj. apply read_sensors_cells.
    + rewrite (proj1 Hrect). exact Hi.
    + rewrite (rect_row_length _ _ _ _ Hrect Hi). exact Hj.
Qed.

(** X13: Without fake sensor commands nothing ever writes the sensor storage:
    through any sequence of cycles, mode switches and writes through
    exported handles, the sensor states and the fake sensor commands stay
    what they were. *)
Theorem sensors_frozen_without_fake_commands (s s' : GenericSystem) :
  operates s s' →
  fake_sensor_command_interfaces_ s = false →
  sensor_states_ s' = sensor_states_ s
  ∧ sensor_fake_commands_ s' = sensor_fake_commands_ s.
Proof.
  induction 1 as [s|s1 s2 s3 Hop _ IH]; intros Hflag; [split; reflexivity|].
  pose proof (operation_same_configuration _ _ Hop) as (_ & Hflag2 & _).
  rewrite Hflag in Hflag2. destruct (IH Hflag2) as [-> ->]. clear IH.
  destruct Hop as [now s|start stop s|start stop s|i joint interface v s _ _
                   |i sensor interface v s Hon _ _].
  - destruct (read_sensor_fields now s) as [-> ->]. rewrite Hflag. split; reflexivity.
  - split; reflexivity.
  - unfold perform_command_mode_switch.
    repeat (match goal with |- context [if ?b then _ else _] => destruct b end);
      split; reflexivity.
  - unfold write_command, get_interface.
    destruct (index_of standard_interfaces_ interface) as [j|]; simpl;
      [|destruct (index_of (other_interfaces_ s) interface) as [j|]; simpl];
      split; reflexivity.
  - rewrite Hflag in Hon. discriminate Hon.
Qed.

(** ** The clock *)

(** X14: The elapsed time is counted in whole milliseconds, truncated
    toward zero: a cycle that comes less than a millisecond after (or
    before) the previous one computes an elapsed time of exactly 0, and
    still replaces the time of the last cycle; so a second such cycle sees
    no time pass either, although it may come more than a millisecond after
    the cycle before the first. *)
Theorem read_sub_millisecond (s : GenericSystem) (now now' : Z) :
  (Z.abs (now - begin s) < 1000000)%Z →
  (Z.abs (now' - now) < 1000000)%Z →
  elapsed now s = 0.0
  ∧ period_ (read now s).2 = 0.0
  ∧ begin (read now s).2 = now
  ∧ elapsed now' (read now s).2 = 0.0.
Proof.
  assert (Hzero : ∀ d, (Z.abs d < 1000000)%Z →
            double_of_count (to_milliseconds d) / 1000.0 = 0.0).
  { intros d Hd. unfold to_milliseconds.
    assert (Hq : (d ÷ 1000000 = 0)%Z).
    { destruct (Z.le_gt_cases 0 d) as [Hpos|Hneg].
      - apply Z.quot_small. lia.
      - rewrite <- (Z.opp_involutive d), Z.quot_opp_l by lia.
        rewrite Z.quot_small by lia. reflexivity. }
    rewrite Hq. vm_compute. reflexivity. }
  intros Hd Hd'. destruct (read_period now s) as [Hperiod Hbegin].
  unfold elapsed at 1. rewrite Hzero by exact Hd.
  split; [reflexivity|]. split; [rewrite Hperiod; apply Hzero; exact Hd|].
  split; [exact Hbegin|]. unfold elapsed. rewrite Hbegin. apply Hzero. exact Hd'.
Qed.

(** ** CommandModeGate: the verdict of prepare *)

(** The list of modes that a request without duplicates collects passes
    the two checks exactly when the request neither mixes the modes nor
    names only part of the joint group. *)
Lemma collect_modes_accepted {M : Type} `{EqDecision M} (pos vel : M)
    (joints : list ComponentInfo) (keys : list string) :
  pos ≠ vel → NoDup keys →
  (length (collect_modes pos vel joints keys) = 0%nat
   ∨ (length (collect_modes pos vel joints keys) = length joints
      ∧ std_equal (tail (collect_modes pos vel joints keys))
          (collect_modes pos vel joints keys) = true))
  ↔ (¬ mixes_modes joints keys) ∧ ¬ names_partial_group joints keys.
Proof.
  intros Hne Hnodup. split.
  - intros Hok. split.
    + intros Hmix.
      destruct (collect_modes_mixed pos vel joints keys Hne Hmix) as [Hlen Heq].
      destruct Hok as [H0|[_ Htrue]]; [contradiction|congruence].
    + intros Hpart.
      destruct (collect_modes_partial pos vel joints keys Hne Hnodup Hpart)
        as [Hlen Hrej].
      destruct Hok as [H0|[Hn Htrue]]; [contradiction|].
      destruct Hrej as [Hn'|Hfalse]; [contradiction|congruence].
  - intros [Hmix Hpart].
    destruct (decide (Exists (joint_named keys) joints)) as [Hnamed|Hnone].
    + right.
      assert (Hall : ∀ joint, joint ∈ joints → joint_named keys joint).
      { intros joint Hjoint.
        destruct (decide (joint_named keys joint)) as [Hyes|Hno]; [exact Hyes|].
        exfalso. apply Hpart. split.
        - apply Exists_exists in Hnamed. exact Hnamed.
        - exists joint. split; assumption. }
      assert (Hone : ∀ joint, joint ∈ joints →
                ¬ (position_key joint ∈ keys ∧ velocity_key joint ∈ keys)).
      { intros joint Hjoint [Hp Hv]. apply Hmix.
        split; exists joint; split; assumption. }
      split.
      * clear Hmix Hpart Hnamed.
        induction joints as [|joint joints IH].
        { rewrite collect_modes_flat_map. clear.
          induction keys as [|k ks IHk]; simpl; [reflexivity|exact IHk]. }
        rewrite length_collect_modes_cons, length_collect_modes_one by exact Hnodup.
        rewrite IH.
        -- pose proof (Hall joint ltac:(left)) as Hj.
           pose proof (Hone joint ltac:(left)) as Hj'.
           unfold joint_named in Hj. simpl length.
           repeat case_bool_decide; try lia; tauto.
        -- intros j Hj. apply Hall. right. exact Hj.
        -- intros j Hj. apply Hone. right. exact Hj.
      * apply std_equal_tail. intros x y Hx Hy.
        apply elem_of_collect_modes in Hx as (jx & Hjx & Hx).
        apply elem_of_collect_modes in Hy as (jy & Hjy & Hy).
        destruct Hx as [[-> Hxk]|[-> Hxk]], Hy as [[-> Hyk]|[-> Hyk]];
          try reflexivity; exfalso; apply Hmix; split; eauto.
    + left.
      destruct (collect_modes pos vel joints keys) as [|x modes] eqn:Hmodes;
        [reflexivity|].
      exfalso. apply Hnone. apply Exists_exists.
      assert (Hx : x ∈ collect_modes pos vel joints keys)
        by (rewrite Hmodes; left).
      apply elem_of_collect_modes in Hx as (joint & Hjoint & Hx).
      exists joint. split; [exact Hjoint|]. unfold joint_named. tauto.
Qed.

(** The verdict of [prepare], from the two lists of modes it collects. *)
Lemma prepare_command_mode_switch_checks
    (start_interfaces stop_interfaces : list string) (s : GenericSystem) :
  let start_modes :=
    collect_modes HW_IF_POSITION HW_IF_VELOCITY (joints (info_ s)) start_interfaces in
  let stop_modes :=
    collect_modes STOP_POSITION STOP_VELOCITY (joints (info_ s)) stop_interfaces in
  (prepare_command_mode_switch start_interfaces stop_interfaces s).1 = OK
  ↔ (length start_modes = 0%nat
     ∨ (length start_modes = length (joints (info_ s))
        ∧ std_equal (tail start_modes) start_modes = true))
    ∧ (length stop_modes = 0%nat
       ∨ (length stop_modes = length (joints (info_ s))
          ∧ std_equal (tail stop_modes) stop_modes = true)).
Proof.
  cbv zeta. unfold prepare_command_mode_switch. cbn [fst].
  set (start_modes := collect_modes HW_IF_POSITION HW_IF_VELOCITY _ _).
  set (stop_modes := collect_modes STOP_POSITION STOP_VELOCITY _ _).
  destruct (Nat.eqb_spec (length start_modes) 0) as [Ha|Ha];
    destruct (Nat.eqb_spec (length start_modes) (length (joints (info_ s)))) as [Hb|Hb];
    destruct (std_equal (tail start_modes) start_modes);
    destruct (Nat.eqb_spec (length stop_modes) 0) as [Hc|Hc];
    destruct (Nat.eqb_spec (length stop_modes) (length (joints (info_ s)))) as [Hd|Hd];
    destruct (std_equal (tail stop_modes) stop_modes);
    simpl; split; intros H; try discriminate H; try reflexivity;
    try (split; [first [left; assumption | right; split; [assumption|reflexivity]]
                |first [left; assumption | right; split; [assumption|reflexivity]]]);
    exfalso; destruct H as [[H1|[H1 H1']] [H2|[H2 H2']]]; congruence.
Qed.

(** X15: For requests that hold no interface name twice, [prepare] returns OK
    exactly when neither the start request nor the stop request mixes the
    two control modes among the joints or names some joint of the group and
    leaves another out: an accepted request names no joint at all, or names
    every joint in one and the same mode.  Keys that belong to no joint are
    ignored. *)
Theorem prepare_command_mode_switch_verdict
    (start_interfaces stop_interfaces : list string) (s : GenericSystem) :
  NoDup start_interfaces → NoDup stop_interfaces →
  ((prepare_command_mode_switch start_interfaces stop_interfaces s).1 = OK
   ↔ (¬ mixes_modes (joints (info_ s)) start_interfaces)
     ∧ (¬ names_partial_group (joints (info_ s)) start_interfaces)
     ∧ (¬ mixes_modes (joints (info_ s)) stop_interfaces)
     ∧ ¬ names_partial_group (joints (info_ s)) stop_interfaces).
Proof.
  intros Hstart Hstop.
  rewrite prepare_command_mode_switch_checks.
  rewrite (collect_modes_accepted HW_IF_POSITION HW_IF_VELOCITY _ _
             HW_IF_modes_differ Hstart).
  rewrite (collect_modes_accepted STOP_POSITION STOP_VELOCITY _ _
             ltac:(discriminate) Hstop).
  clear. tauto.
Qed.

(** ** CommandModeGate: prepare, then perform *)

(** The flags that [perform] leaves, from the modes that were collected. *)
Lemma perform_command_mode_switch_flags
    (start_interfaces stop_interfaces : list string) (s : GenericSystem) :
  position_controller_running_
    (perform_command_mode_switch start_interfaces stop_interfaces s).2
  = contains (start_modes_ s) HW_IF_POSITION
  ∧ velocity_controller_running_
      (perform_command_mode_switch start_interfaces stop_interfaces s).2
    = negb (contains (start_modes_ s) HW_IF_POSITION)
      && contains (start_modes_ s) HW_IF_VELOCITY.
Proof.
  unfold perform_command_mode_switch. rewrite !contains_nonempty.
  destruct (contains (start_modes_ s) HW_IF_POSITION);
    [|destruct (contains (start_modes_ s) HW_IF_VELOCITY)]; split; reflexivity.
Qed.

(** X16: [perform] acts on the modes that the last [prepare] collected, whatever
    verdict that call returned and whatever its own arguments are: after
    prepare and perform the position controller runs exactly when the start
    request named the position interface of some joint, and the velocity
    controller runs exactly when it named no position interface but the
    velocity interface of some joint.  A request that mixes the modes, which
    prepare rejects, switches to position control when performed. *)
Theorem perform_after_prepare
    (start_interfaces stop_interfaces start_interfaces' stop_interfaces' : list string)
    (s : GenericSystem) :
  let s' :=
    (perform_command_mode_switch start_interfaces' stop_interfaces'
       (prepare_command_mode_switch start_interfaces stop_interfaces s).2).2 in
  (position_controller_running_ s' = true
   ↔ ∃ joint, joint ∈ joints (info_ s) ∧ position_key joint ∈ start_interfaces)
  ∧ (velocity_controller_running_ s' = true
     ↔ (¬ ∃ joint, joint ∈ joints (info_ s) ∧ position_key joint ∈ start_interfaces)
       ∧ ∃ joint, joint ∈ joints (info_ s) ∧ velocity_key joint ∈ start_interfaces).
Proof.
  cbv zeta.
  destruct (perform_command_mode_switch_flags start_interfaces' stop_interfaces'
              (prepare_command_mode_switch start_interfaces stop_interfaces s).2)
    as [-> ->].
  cbn [prepare_command_mode_switch snd start_modes_].
  assert (Hpos : contains
            (collect_modes HW_IF_POSITION HW_IF_VELOCITY (joints (info_ s)) start_interfaces)
            HW_IF_POSITION = true
          ↔ ∃ joint, joint ∈ joints (info_ s) ∧ position_key joint ∈ start_interfaces).
  { unfold contains. rewrite bool_decide_eq_true, elem_of_collect_modes.
    split; intros (joint & Hjoint & H); exists joint; (split; [exact Hjoint|]).
    - destruct H as [[_ H]|[H _]]; [exact H|discriminate H].
    - left. split; [reflexivity|exact H]. }
  assert (Hvel : contains
            (collect_modes HW_IF_POSITION HW_IF_VELOCITY (joints (info_ s)) start_interfaces)
            HW_IF_VELOCITY = true
          ↔ ∃ joint, joint ∈ joints (info_ s) ∧ velocity_key joint ∈ start_interfaces).
  { unfold contains. rewrite bool_decide_eq_true, elem_of_collect_modes.
    split; intros (joint & Hjoint & H); exists joint; (split; [exact Hjoint|]).
    - destruct H as [[H _]|[_ H]]; [discriminate H|exact H].
    - right. split; [reflexivity|exact H]. }
  split; [exact Hpos|].
  rewrite andb_true_iff, negb_true_iff, <- Hvel, <- Hpos.
  destruct (contains _ HW_IF_POSITION); clear; intuition congruence.
Qed.

Lemma contains_collect_modes_position (joints : list ComponentInfo) (keys : list string) :
  contains (collect_modes HW_IF_POSITION HW_IF_VELOCITY joints keys) HW_IF_POSITION = true
  ↔ ∃ joint, joint ∈ joints ∧ position_key joint ∈ keys.
Proof.
  unfold contains. rewrite bool_decide_eq_true, elem_of_collect_modes.
  split; intros (joint & Hjoint & H); exists joint; (split; [exact Hjoint|]).
  - destruct H as [[_ H]|[H _]]; [exact H|discriminate H].
  - left. split; [reflexivity|exact H].
Qed.

Lemma running_operates (info : HardwareInfo) (s s' : GenericSystem) :
  running info s → operates s s' → running info s'.
Proof.
  intros (Hstd & now & s0 & Hconf & Hops) Hstep. split; [exact Hstd|].
  exists now, s0. split; [exact Hconf|]. unfold operates in *.
  eapply rtc_trans; eassumption.
Qed.

Lemma running_operation (info : HardwareInfo) (s s' : GenericSystem) :
  running info s → operation s s' → running info s'.
Proof.
  intros Hrun Hop. eapply running_operates; [exact Hrun|]. apply rtc_once. exact Hop.
Qed.

(** X18: Switching to position control holds the joints where they are: after a
    start request that names the position interface of a joint has been
    prepared and performed on a running backend with propagation enabled,
    the position command of every joint is its position state, and the next
    cycle leaves the position state of a joint that follows no other joint
    at its former value plus the following offset (in binary64 arithmetic;
    the offset is 0.0 when a custom interface takes it), the command
    staying. *)
Theorem switch_to_position_holds (info : HardwareInfo) (s : GenericSystem) (now : Z)
    (start_interfaces stop_interfaces : list string) (j : nat) :
  running info s →
  (j < length (joints info))%nat →
  j ∉ followers s →
  (∃ joint, joint ∈ joints info ∧ position_key joint ∈ start_interfaces) →
  command_propagation_disabled_ s = false →
  is_nan (cell (joint_states_ s) POSITION_INTERFACE_INDEX j) = false →
  let s' :=
    (perform_command_mode_switch start_interfaces stop_interfaces
       (prepare_command_mode_switch start_interfaces stop_interfaces s).2).2 in
  cell (joint_commands_ s') POSITION_INTERFACE_INDEX j
  = cell (joint_states_ s) POSITION_INTERFACE_INDEX j
  ∧ cell (joint_states_ (read now s').2) POSITION_INTERFACE_INDEX j
    = cell (joint_states_ s) POSITION_INTERFACE_INDEX j + position_offset s
  ∧ cell (joint_commands_ (read now s').2) POSITION_INTERFACE_INDEX j
    = cell (joint_states_ s) POSITION_INTERFACE_INDEX j.
Proof.
  intros Hrun Hj Hnf Hreq Hprop Hnan. cbv zeta.
  set (s1 := (prepare_command_mode_switch start_interfaces stop_interfaces s).2).
  set (s' := (perform_command_mode_switch start_interfaces stop_interfaces s1).2).
  assert (Hrun1 : running info s1) by (eapply running_operation; [exact Hrun|constructor]).
  assert (Hrun' : running info s') by (eapply running_operation; [exact Hrun1|constructor]).
  destruct (running_invariant _ _ Hrun) as [_ Hinfo].
  destruct (running_invariant _ _ Hrun1) as [Hinv1 Hinfo1].
  destruct (running_invariant _ _ Hrun') as [Hinv' Hinfo'].
  pose proof Hrun as [Hstd _].
  pose proof Hinv1 as (_ & Hwf1 & _).
  pose proof (perform_command_mode_switch_cells start_interfaces stop_interfaces s1 Hwf1)
    as (_ & Hstates & _ & Hmode).
  cbv zeta in Hstates, Hmode. fold s' in Hstates, Hmode.
  assert (Hpos : contains (start_modes_ s1) HW_IF_POSITION = true).
  { apply contains_collect_modes_position. rewrite Hinfo. exact Hreq. }
  rewrite Hpos in Hmode. destruct Hmode as (Hflag & Hvflag & Hcmd).
  rewrite Hinfo1 in Hcmd. specialize (Hcmd j Hj).
  change (joint_states_ s1) with (joint_states_ s) in Hcmd.
  pose proof (perform_same_configuration start_interfaces stop_interfaces s1)
    as ((_ & _ & Hdis & Hoff & Hcustom & _ & _ & _ & Hmimic) & _).
  fold s' in Hdis, Hoff, Hcustom, Hmimic.
  change (command_propagation_disabled_ s1) with (command_propagation_disabled_ s) in Hdis.
  change (position_state_following_offset_ s1)
    with (position_state_following_offset_ s) in Hoff.
  change (custom_interface_with_following_offset_ s1)
    with (custom_interface_with_following_offset_ s) in Hcustom.
  change (mimic_joints_ s1) with (mimic_joints_ s) in Hmimic.
  assert (Hpa : position_active s' j = true).
  { unfold position_active. rewrite Hcmd, Hnan, Hdis, Hprop, Hflag. reflexivity. }
  assert (Hva : velocity_active s' j = false).
  { unfold velocity_active. rewrite Hvflag, andb_false_r. reflexivity. }
  split; [exact Hcmd|]. split.
  - rewrite (read_joint_state_cell now s' POSITION_INTERFACE_INDEX j Hinv').
    + unfold propagated_cell, propagated_position.
      rewrite bool_decide_eq_true_2 by reflexivity.
      rewrite Hpa, Hva, Hcmd. unfold position_offset. rewrite Hoff, Hcustom.
      reflexivity.
    + unfold POSITION_INTERFACE_INDEX. lia.
    + rewrite Hinfo'. exact Hj.
    + unfold followers. rewrite Hmimic. exact Hnf.
  - rewrite (read_joint_command_cell now s' POSITION_INTERFACE_INDEX j Hinv')
      by (rewrite Hinfo'; exact Hj).
    rewrite Hva. exact Hcmd.
Qed.

(** X17: [configure] leaves six position entries in the list of start modes:
    a perform call that no prepare call precedes starts position control,
    stops velocity control, and copies every position state into the
    position command. *)
Theorem perform_without_prepare (now : Z) (info : HardwareInfo) (s : GenericSystem)
    (start_interfaces stop_interfaces : list string) :
  (2 ≤ length standard_interfaces_)%nat →
  configure now info = Returns (OK, s) →
  let r := perform_command_mode_switch start_interfaces stop_interfaces s in
  position_controller_running_ r.2 = true
  ∧ velocity_controller_running_ r.2 = false
  ∧ ∀ j, (j < length (joints info))%nat →
      cell (joint_commands_ r.2) POSITION_INTERFACE_INDEX j
      = cell (joint_states_ s) POSITION_INTERFACE_INDEX j.
Proof.
  intros Hstd Hconf. cbv zeta.
  pose proof (configure_invariant _ _ _ _ Hstd Hconf) as (_ & Hwf & _).
  destruct (configure_sensor_fields _ _ _ _ Hconf) as (_ & _ & _ & _ & Hmodes).
  apply configure_inv in Hconf
    as (? & ? & ? & ? & ? & ? & ? & ? & ? & _ & _ & _ & _ & _ & _ & Hinfo & _).
  pose proof (perform_command_mode_switch_cells start_interfaces stop_interfaces s Hwf)
    as (_ & _ & _ & Hmode).
  cbv zeta in Hmode. rewrite Hmodes in Hmode.
  change (contains (replicate 6 HW_IF_POSITION) HW_IF_POSITION) with true in Hmode.
  rewrite Hinfo in Hmode. exact Hmode.
Qed.

(** ** Writes through exported command handles *)

Lemma index_of_inj (v : list string) (x y : string) (j : nat) :
  index_of v x = Some j → index_of v y = Some j → x = y.
Proof.
  intros Hx Hy. apply index_of_Some in Hx, Hy. congruence.
Qed.

(** The slot of joint [i] for an interface, over storage of the right
    shape: the cell of the interface's row, in the standard matrix when the
    name is standard and in the other matrix when it was discovered; no
    slot for a name in neither list, nor for an index that is no joint. *)
Lemma joint_slot_cell (s : GenericSystem) (standard_values other_values : matrix)
    (cols i : nat) (interface : string) :
  rect (length standard_interfaces_) cols standard_values →
  rect (length (other_interfaces_ s)) cols other_values →
  joint_slot s standard_values other_values i interface
  = if decide (i < cols)%nat then
      match index_of standard_interfaces_ interface with
      | Some row => Some (cell standard_values row i)
      | None =>
          match index_of (other_interfaces_ s) interface with
          | Some row => Some (cell other_values row i)
          | None => None
          end
      end
    else None.
Proof.
  assert (Hout : ∀ (names : list string) (values : matrix) (row : nat),
            rect (length names) cols values → ¬ (i < cols)%nat →
            values !! row ≫= (fun r => r !! i) = None).
  { intros names values row [Hlen Hrows] Hi.
    destruct (values !! row) as [r|] eqn:Hrow; [|reflexivity]. simpl.
    apply lookup_ge_None. rewrite Forall_forall in Hrows.
    rewrite (Hrows r) by (eapply list_elem_of_lookup_2; exact Hrow). lia. }
  intros Hstd Hother. unfold joint_slot, get_interface.
  destruct (index_of standard_interfaces_ interface) as [row|] eqn:Hrow; simpl.
  - case_decide as Hi.
    + apply (lookup_cell_rect _ _ _ _ _ _ Hstd Hi Hrow).
    + apply (Hout _ _ _ Hstd Hi).
  - destruct (index_of (other_interfaces_ s) interface) as [row|] eqn:Hrow'; simpl.
    + case_decide as Hi.
      * apply (lookup_cell_rect _ _ _ _ _ _ Hother Hi Hrow').
      * apply (Hout _ _ _ Hother Hi).
    + case_decide; reflexivity.
Qed.

(** The slots of a backend that satisfies the invariant. *)
Lemma slots_cells (s : GenericSystem) (i : nat) (interface : string) :
  backend_invariant s →
  command_slot s i interface
  = (if decide (i < length (joints (info_ s)))%nat then
       match index_of standard_interfaces_ interface with
       | Some row => Some (cell (joint_commands_ s) row i)
       | None =>
           match index_of (other_interfaces_ s) interface with
           | Some row => Some (cell (other_commands_ s) row i)
           | None => None
           end
       end
     else None)
  ∧ state_slot s i interface
    = (if decide (i < length (joints (info_ s)))%nat then
         match index_of standard_interfaces_ interface with
         | Some row => Some (cell (joint_states_ s) row i)
         | None =>
             match index_of (other_interfaces_ s) interface with
             | Some row => Some (cell (other_states_ s) row i)
             | None => None
             end
         end
       else None).
Proof.
  intros (Hrows & (_ & Hst & Hcmd & _) & [Hoc Hos] & _).
  rewrite Hrows in Hst, Hcmd.
  split; apply joint_slot_cell; assumption.
Qed.

(** What a running backend knows of the interfaces that were declared. *)
Lemma running_interfaces (info : HardwareInfo) (s : GenericSystem) :
  running info s →
  info_ s = info
  ∧ other_interfaces_ s = find_other_interfaces (joints info) []
  ∧ sensor_interfaces_ s = find_sensor_interfaces (sensors info) []
  ∧ fake_sensor_command_interfaces_ s
    = match hardware_parameters info !! "fake_sensor_commands" with
      | Some text => is_true_text text
      | None => false
      end.
Proof.
  intros Hrun.
  destruct (running_configured _ _ Hrun)
    as (now & s0 & Hconf & _ & (Hinfo & Hfake & _ & _ & _ & _ & Hoi & Hsi & _) & _).
  destruct (configure_sensor_fields _ _ _ _ Hconf) as (Hsi0 & _ & Hfake0 & _).
  apply configure_inv in Hconf
    as (? & ? & ? & ? & ? & ? & ? & ? & ? & _ & _ & _ & _ & _ & _ & Hinfo0 & _ & _ & _
        & _ & _ & _ & Hoi0 & _).
  rewrite Hinfo, Hoi, Hsi, Hfake, Hinfo0, Hoi0, Hsi0, Hfake0. repeat split.
Qed.

(** Every interface that a joint declares has a row: in the standard list,
    or else in the list of other interfaces. *)
Lemma declared_interface_row (info : HardwareInfo) (s : GenericSystem)
    (joint : ComponentInfo) (interface : string) :
  running info s → joint ∈ joints info →
  interface ∈ declared_commands joint ∨ interface ∈ declared_states joint →
  interface ∈ standard_interfaces_
  ∨ ((interface ∉ standard_interfaces_) ∧ interface ∈ other_interfaces_ s).
Proof.
  intros Hrun Hjoint Hdecl.
  destruct (running_interfaces _ _ Hrun) as (_ & -> & _).
  destruct (decide (interface ∈ standard_interfaces_)) as [Hstd|Hstd]; [left; exact Hstd|].
  right. split; [exact Hstd|]. apply elem_of_find_other_interfaces.
  split; [exact Hstd|]. exists joint. split; assumption.
Qed.

(** X20: A value written through the handle of a command interface that joint
    [i] declares is what that handle reads afterwards; the write changes no
    other command slot, of this joint or of another, and no state slot. *)
Theorem write_command_slot (info : HardwareInfo) (s : GenericSystem) (i : nat)
    (joint : ComponentInfo) (interface : string) (v : float) :
  running info s →
  joints info !! i = Some joint →
  interface ∈ declared_commands joint →
  command_slot (write_command i interface v s) i interface = Some v
  ∧ (∀ i' interface', (i', interface') ≠ (i, interface) →
       command_slot (write_command i interface v s) i' interface'
       = command_slot s i' interface')
  ∧ (∀ i' interface',
       state_slot (write_command i interface v s) i' interface'
       = state_slot s i' interface').
Proof.
  intros Hrun Hjoint Hdecl.
  destruct (running_invariant _ _ Hrun) as [Hinv Hinfo].
  assert (Hop : operation s (write_command i interface v s)).
  { econstructor; [rewrite Hinfo; exact Hjoint|exact Hdecl]. }
  destruct (running_invariant _ _ (running_operation _ _ _ Hrun Hop)) as [Hinv' Hinfo'].
  assert (Hi : (i < length (joints (info_ s)))%nat).
  { rewrite Hinfo. eapply lookup_lt_Some. exact Hjoint. }
  pose proof Hinv as (Hrows & (_ & _ & Hcmd & _) & [Hoc _] & _).
  rewrite Hrows in Hcmd.
  pose proof (write_command_fields i interface v s)
    as ((_ & _ & _ & _ & _ & _ & Hoi & _) & Hjs & _ & _ & _ & Hos & _).
  assert (Hstate : ∀ i' interface',
            state_slot (write_command i interface v s) i' interface'
            = state_slot s i' interface').
  { intros i' interface'.
    rewrite (proj2 (slots_cells _ i' interface' Hinv')),
      (proj2 (slots_cells _ i' interface' Hinv)).
    rewrite Hinfo', Hinfo, Hoi, Hjs, Hos. reflexivity. }
  assert (Hcells : ∀ i' interface',
            command_slot (write_command i interface v s) i' interface'
            = if decide (i' < length (joints (info_ s)))%nat then
                match index_of standard_interfaces_ interface' with
                | Some row =>
                    Some (cell (joint_commands_ (write_command i interface v s)) row i')
                | None =>
                    match index_of (other_interfaces_ s) interface' with
                    | Some row =>
                        Some (cell (other_commands_ (write_command i interface v s)) row i')
                    | None => None
                    end
                end
              else None).
  { intros i' interface'. rewrite (proj1 (slots_cells _ i' interface' Hinv')).
    rewrite Hinfo', Hinfo, Hoi. reflexivity. }
  assert (Hknown : interface ∈ standard_interfaces_
                   ∨ ((interface ∉ standard_interfaces_) ∧ interface ∈ other_interfaces_ s)).
  { eapply declared_interface_row; [exact Hrun| |left; exact Hdecl].
    eapply list_elem_of_lookup_2. exact Hjoint. }
  split; [|split; [|exact Hstate]].
  - rewrite Hcells. rewrite decide_True by exact Hi.
    unfold write_command, get_interface.
    destruct Hknown as [Hstd|[Hstd Hother]].
    + apply index_of_is_Some in Hstd as [row Hrow]. rewrite Hrow. simpl.
      f_equal. apply cell_set_cell_eq.
      * rewrite (proj1 Hcmd). apply index_of_Some in Hrow.
        eapply lookup_lt_Some. exact Hrow.
      * rewrite (rect_row_length _ _ _ _ Hcmd); [exact Hi|].
        apply index_of_Some in Hrow. eapply lookup_lt_Some. exact Hrow.
    + apply index_of_None in Hstd. rewrite Hstd.
      apply index_of_is_Some in Hother as [row Hrow]. rewrite Hrow. simpl.
      f_equal. apply cell_set_cell_eq.
      * rewrite (proj1 Hoc). apply index_of_Some in Hrow.
        eapply lookup_lt_Some. exact Hrow.
      * rewrite (rect_row_length _ _ _ _ Hoc); [exact Hi|].
        apply index_of_Some in Hrow. eapply lookup_lt_Some. exact Hrow.
  - intros i' interface' Hne. rewrite Hcells.
    rewrite (proj1 (slots_cells _ i' interface' Hinv)).
    case_decide as Hi'; [|reflexivity].
    unfold write_command, get_interface.
    destruct (index_of standard_interfaces_ interface) as [row|] eqn:Hrow; simpl.
    + destruct (index_of standard_interfaces_ interface') as [row'|] eqn:Hrow';
        [|reflexivity].
      f_equal. apply cell_set_cell_ne. intros [-> ->]. apply Hne.
      f_equal. eapply index_of_inj; eassumption.
    + destruct (index_of (other_interfaces_ s) interface) as [row|] eqn:Hrow2; simpl;
        [|reflexivity].
      destruct (index_of standard_interfaces_ interface') as [row'|] eqn:Hrow';
        [reflexivity|].
      destruct (index_of (other_interfaces_ s) interface') as [row'|] eqn:Hrow2';
        [|reflexivity].
      f_equal. apply cell_set_cell_ne. intros [-> ->]. apply Hne.
      f_equal. eapply index_of_inj; eassumption.
Qed.

(** X21: A value written to a non-standard command interface of a joint shows
    up as the state of that interface after the next cycle, unless the
    interface is the one bound to the following offset and the joint's
    position command is set, in which case the state is that position
    command plus the offset. *)
Theorem write_command_read_other (info : HardwareInfo) (s : GenericSystem) (now : Z)
    (i : nat) (joint : ComponentInfo) (interface : string) (v : float) :
  running info s →
  joints info !! i = Some joint →
  interface ∈ declared_commands joint →
  interface ∉ standard_interfaces_ →
  is_nan v = false →
  let s' := read now (write_command i interface v s) in
  ∃ row, index_of (other_interfaces_ s) interface = Some row
    ∧ state_slot s'.2 i interface
      = Some (if (Z.of_nat row =? index_custom_interface_with_following_offset_ s)%Z
                 && negb (is_nan (cell (joint_commands_ s'.2) POSITION_INTERFACE_INDEX i))
              then cell (joint_commands_ s'.2) POSITION_INTERFACE_INDEX i
                   + position_state_following_offset_ s
              else v).
Proof.
  intros Hrun Hjoint Hdecl Hstd Hnan. cbv zeta.
  destruct (running_invariant _ _ Hrun) as [Hinv Hinfo].
  set (s1 := write_command i interface v s).
  assert (Hop : operation s s1).
  { econstructor; [rewrite Hinfo; exact Hjoint|exact Hdecl]. }
  pose proof (running_operation _ _ _ Hrun Hop) as Hrun1.
  assert (Hrun2 : running info (read now s1).2)
    by (eapply running_operation; [exact Hrun1|constructor]).
  destruct (running_invariant _ _ Hrun1) as [Hinv1 Hinfo1].
  destruct (running_invariant _ _ Hrun2) as [Hinv2 Hinfo2].
  assert (Hi : (i < length (joints info))%nat) by (eapply lookup_lt_Some; exact Hjoint).
  assert (Hother : interface ∈ other_interfaces_ s).
  { destruct (declared_interface_row info s joint interface Hrun) as [H|[_ H]];
      [eapply list_elem_of_lookup_2; exact Hjoint|left; exact Hdecl|contradiction|exact H]. }
  apply index_of_is_Some in Hother as [row Hrow]. exists row. split; [exact Hrow|].
  pose proof (operation_same_configuration _ _ Hop)
    as (_ & _ & _ & Hoff & _ & Hidx & Hoi & _).
  pose proof (read_same_configuration now s1) as ((_ & _ & _ & _ & _ & _ & Hoi2 & _) & _).
  rewrite (proj2 (slots_cells _ i interface Hinv2)).
  rewrite Hinfo2, decide_True by exact Hi.
  apply index_of_None in Hstd. rewrite Hstd, Hoi2, Hoi, Hrow. f_equal.
  pose proof Hinv1 as (_ & _ & [Hoc1 Hos1] & _). rewrite Hoi, Hinfo1 in Hoc1, Hos1.
  pose proof Hrow as Hlt. apply index_of_Some, lookup_lt_Some in Hlt.
  rewrite read_other_states, <- read_joint_commands.
  rewrite (proj2 (read_other_cells s1 _ (other_states_ s1))).
  - rewrite Hidx, Hoff.
    assert (Hv : cell (other_commands_ s1) row i = v).
    { unfold s1, write_command, get_interface. rewrite Hstd, Hrow. simpl.
      pose proof Hinv as (_ & _ & [Hoc _] & _). rewrite Hinfo in Hoc.
      apply cell_set_cell_eq.
      - rewrite (proj1 Hoc). exact Hlt.
      - rewrite (rect_row_length _ _ _ _ Hoc Hlt). exact Hi. }
    rewrite Hv, Hnan. reflexivity.
  - rewrite (proj1 Hos1). exact Hlt.
  - rewrite (rect_row_length _ _ _ _ Hos1 Hlt). exact Hi.
Qed.

(** ** The interface lists *)

(** The sensor interfaces that [configure] discovers are the state
    interface names that some sensor declares. *)
Lemma elem_of_find_sensor_interfaces (sensors : list ComponentInfo) (x : string) :
  x ∈ find_sensor_interfaces sensors []
  ↔ ∃ sensor, sensor ∈ sensors ∧ x ∈ declared_states sensor.
Proof.
  clear stod. unfold find_sensor_interfaces.
  set (P := fun (done : list ComponentInfo) (acc : list string) =>
    x ∈ acc ↔ ∃ sensor, sensor ∈ done ∧ x ∈ declared_states sensor).
  apply (for_each_ind P); unfold P; clear P.
  - split; [intros H; apply elem_of_nil in H; contradiction|].
    intros (sensor & H & _). apply elem_of_nil in H. contradiction.
  - intros done sensor acc IH.
    set (Q := fun (seen : list InterfaceInfo) (acc' : list string) =>
      x ∈ acc' ↔ x ∈ acc ∨ x ∈ (interface_name <$> seen)).
    assert (HQ : Q (state_interfaces sensor)
              (for_each (state_interfaces sensor) (fun interface sensor_interfaces =>
                 if negb (contains sensor_interfaces (interface_name interface))
                 then sensor_interfaces ++ [interface_name interface]
                 else sensor_interfaces) acc)).
    { apply (for_each_ind Q); unfold Q; clear Q.
      - simpl. split; [auto|]. intros [H|H]; [exact H|].
        apply elem_of_nil in H. contradiction.
      - intros seen interface acc' IH'. unfold contains.
        rewrite fmap_app, elem_of_app. simpl. rewrite list_elem_of_singleton.
        destruct (decide (interface_name interface ∈ acc')) as [Hacc|Hacc].
        + rewrite (bool_decide_eq_true_2 _ Hacc). simpl.
          split; [rewrite IH'; tauto|]. intros [H|[H|Heq]].
          * apply IH'. tauto.
          * apply IH'. tauto.
          * subst x. exact Hacc.
        + rewrite (bool_decide_eq_false_2 _ Hacc). simpl.
          rewrite elem_of_app, list_elem_of_singleton, IH'. tauto. }
    unfold Q in HQ. rewrite HQ, IH. unfold declared_states. split.
    + intros [(j & Hj & Hd)|Hd].
      * exists j. split; [apply elem_of_app; left; exact Hj|exact Hd].
      * exists sensor. split; [apply elem_of_app; right; left|exact Hd].
    + intros (j & Hj & Hd). apply elem_of_app in Hj as [Hj|Hj].
      * left. exists j. split; assumption.
      * apply list_elem_of_singleton in Hj. subst j. right. exact Hd.
Qed.

Lemma NoDup_find_other_interfaces (joints : list ComponentInfo) :
  NoDup (find_other_interfaces joints []).
Proof.
  clear stod.
  assert (Hadd : ∀ (interfaces : list InterfaceInfo) (acc : list string),
            NoDup acc → NoDup (for_each interfaces add_other_interface acc)).
  { intros interfaces acc Hacc.
    apply (for_each_ind (fun _ acc' => NoDup acc')); [exact Hacc|].
    intros _ interface acc' Hacc'. unfold add_other_interface, contains.
    destruct (bool_decide (interface_name interface ∈ standard_interfaces_));
      [exact Hacc'|]. simpl.
    case_bool_decide as Hin; [exact Hacc'|]. simpl.
    apply NoDup_app. split; [exact Hacc'|]. split; [|apply NoDup_singleton].
    intros y Hy Hy'. apply list_elem_of_singleton in Hy'. subst y. contradiction. }
  unfold find_other_interfaces.
  apply (for_each_ind (fun _ acc => NoDup acc)); [constructor|].
  intros _ joint acc Hacc. apply Hadd, Hadd, Hacc.
Qed.

Lemma NoDup_find_sensor_interfaces (sensors : list ComponentInfo) :
  NoDup (find_sensor_interfaces sensors []).
Proof.
  clear stod. unfold find_sensor_interfaces.
  apply (for_each_ind (fun _ acc => NoDup acc)); [constructor|].
  intros _ sensor acc Hacc.
  apply (for_each_ind (fun _ acc' => NoDup acc')); [exact Hacc|].
  intros _ interface acc' Hacc'. unfold contains.
  case_bool_decide as Hin; [exact Hacc'|]. simpl.
  apply NoDup_app. split; [exact Hacc'|]. split; [|apply NoDup_singleton].
  intros y Hy Hy'. apply list_elem_of_singleton in Hy'. subst y. contradiction.
Qed.

Lemma index_of_lookup_NoDup (v : list string) (x : string) (j : nat) :
  NoDup v → v !! j = Some x → index_of v x = Some j.
Proof.
  intros Hnodup Hj.
  destruct (index_of v x) as [j'|] eqn:Hfound.
  - apply index_of_Some in Hfound. f_equal.
    eapply NoDup_lookup; eassumption.
  - apply index_of_None in Hfound. exfalso. apply Hfound.
    eapply list_elem_of_lookup_2. exact Hj.
Qed.

(** X4: Every interface name has one storage row.  On a running backend the
    list of other interfaces and the list of sensor interfaces hold no name
    twice, no other interface is a standard one, the sensor interfaces are
    the state interface names that the sensors declare, and the row of a
    listed name is the place of the name in its list. *)
Theorem interface_rows_unique (info : HardwareInfo) (s : GenericSystem) :
  running info s →
  NoDup (other_interfaces_ s)
  ∧ NoDup (sensor_interfaces_ s)
  ∧ (∀ x, x ∈ other_interfaces_ s → x ∉ standard_interfaces_)
  ∧ (∀ x, x ∈ sensor_interfaces_ s
       ↔ ∃ sensor, sensor ∈ sensors info ∧ x ∈ declared_states sensor)
  ∧ (∀ j x, other_interfaces_ s !! j = Some x → index_of (other_interfaces_ s) x = Some j)
  ∧ (∀ j x, sensor_interfaces_ s !! j = Some x → index_of (sensor_interfaces_ s) x = Some j).
Proof.
  intros Hrun. destruct (running_interfaces _ _ Hrun) as (_ & -> & -> & _).
  pose proof (NoDup_find_other_interfaces (joints info)) as Ho.
  pose proof (NoDup_find_sensor_interfaces (sensors info)) as Hs.
  split; [exact Ho|]. split; [exact Hs|]. split; [|split; [|split]].
  - intros x Hx. apply elem_of_find_other_interfaces in Hx. apply Hx.
  - intros x. apply elem_of_find_sensor_interfaces.
  - intros j x. apply index_of_lookup_NoDup. exact Ho.
  - intros j x. apply index_of_lookup_NoDup. exact Hs.
Qed.

(** ** Export *)

(** A loop over a range whose body appends one handle per element. *)
Lemma for_each_M_emplace {A : Type} (xs : list A)
    (body : A → list Handle → result (list Handle))
    (key : A → string * string * nat) (Q : Handle → Prop) (init : list Handle) :
  (∀ x, x ∈ xs →
     ∃ h, (∀ acc, body x acc = Returns (acc ++ [h])) ∧ handle_key h = key x ∧ Q h) →
  ∃ handles, for_each_M xs body init = Returns (init ++ handles)
    ∧ handle_key <$> handles = key <$> xs
    ∧ Forall Q handles.
Proof.
  induction xs as [|x xs IH] using rev_ind; intros Hbody.
  - exists []. rewrite app_nil_r. repeat split. constructor.
  - destruct IH as (handles & Hrun & Hkeys & HQ).
    { intros y Hy. apply Hbody. apply elem_of_app. left. exact Hy. }
    destruct (Hbody x) as (h & Hx & Hkey & Hh).
    { apply elem_of_app. right. left. }
    exists (handles ++ [h]). split; [|split].
    + unfold for_each_M in *. rewrite fold_left_app. simpl. rewrite Hrun. simpl.
      rewrite Hx, app_assoc. reflexivity.
    + rewrite !fmap_app, Hkeys. simpl. rewrite Hkey. reflexivity.
    + apply Forall_app. split; [exact HQ|]. constructor; [exact Hh|constructor].
Qed.

(** The loop over the components, each with the loop over its interfaces. *)
Lemma for_loop_M_emplace {A : Type} (n : nat) (sel : nat → list A)
    (body : nat → A → list Handle → result (list Handle))
    (key : nat → A → string * string * nat) (Q : Handle → Prop) (init : list Handle) :
  (∀ i x, (i < n)%nat → x ∈ sel i →
     ∃ h, (∀ acc, body i x acc = Returns (acc ++ [h])) ∧ handle_key h = key i x ∧ Q h) →
  ∃ handles,
    for_loop_M n (fun i acc => for_each_M (sel i) (body i) acc) init
    = Returns (init ++ handles)
    ∧ handle_key <$> handles = flat_map (fun i => key i <$> sel i) (seq 0 n)
    ∧ Forall Q handles.
Proof.
  induction n as [|n IH]; intros Hbody.
  - exists []. rewrite app_nil_r. repeat split. constructor.
  - destruct IH as (handles & Hrun & Hkeys & HQ).
    { intros i x Hi. apply Hbody. lia. }
    destruct (for_each_M_emplace (sel n) (body n) (key n) Q (init ++ handles))
      as (handles' & Hrun' & Hkeys' & HQ').
    { intros x Hx. apply Hbody; [lia|exact Hx]. }
    exists (handles ++ handles'). split; [|split].
    + rewrite for_loop_M_S, Hrun. simpl. rewrite Hrun', app_assoc. reflexivity.
    + rewrite seq_S, flat_map_app, fmap_app, Hkeys, Hkeys'. simpl.
      rewrite app_nil_r. reflexivity.
    + apply Forall_app. split; assumption.
Qed.

Lemma declared_keys_fmap (components : list ComponentInfo)
    (sel : ComponentInfo → list InterfaceInfo) :
  flat_map (fun i =>
      (fun interface : InterfaceInfo =>
         (name (components !!! i), interface_name interface, i)) <$> sel (components !!! i))
    (seq 0 (length components))
  = declared_keys components (fun component => interface_name <$> sel component).
Proof.
  unfold declared_keys. apply flat_map_ext. intros i.
  rewrite <- list_fmap_compose. reflexivity.
Qed.

(** A cell outside the columns of a matrix does not exist. *)
Lemma lookup_cell_outside (rows cols : nat) (values : matrix) (row i : nat) :
  rect rows cols values → ¬ (i < cols)%nat →
  values !! row ≫= (fun r => r !! i) = None.
Proof.
  intros [Hlen Hrows] Hi.
  destruct (values !! row) as [r|] eqn:Hrow; [|reflexivity]. simpl.
  apply lookup_ge_None. rewrite Forall_forall in Hrows.
  rewrite (Hrows r) by (eapply list_elem_of_lookup_2; exact Hrow). lia.
Qed.

(** The handle that one joint interface is exported with. *)
Lemma export_joint_interface_handle (s : GenericSystem) (joint : ComponentInfo)
    (i cols : nat) (standard_values other_values : storage) (interface : InterfaceInfo) :
  names_of s standard_values = standard_interfaces_ →
  names_of s other_values = other_interfaces_ s →
  rect (length standard_interfaces_) cols (values_of s standard_values) →
  rect (length (other_interfaces_ s)) cols (values_of s other_values) →
  (i < cols)%nat →
  interface_name interface ∈ standard_interfaces_
  ∨ ((interface_name interface ∉ standard_interfaces_)
     ∧ interface_name interface ∈ other_interfaces_ s) →
  ∃ h,
    (∀ acc, export_joint_interface s joint i standard_values other_values interface acc
            = Returns (acc ++ [h]))
    ∧ handle_key h = (name joint, interface_name interface, i)
    ∧ handle_resolved s h
    ∧ (handle_values h = standard_values ∨ handle_values h = other_values)
    ∧ dereference s h
      = joint_slot s (values_of s standard_values) (values_of s other_values)
          (handle_column h) (handle_interface_name h)
    ∧ is_Some (dereference s h).
Proof.
  intros Hnstd Hnother Hstd Hother Hi Hknown.
  unfold export_joint_interface, get_interface_handle.
  destruct Hknown as [Hin|[Hout Hin]].
  - apply index_of_is_Some in Hin as [row Hrow]. rewrite Hrow.
    eexists. split; [intros acc; reflexivity|]. split; [reflexivity|].
    unfold handle_resolved, dereference, joint_slot, get_interface. simpl.
    rewrite Hnstd, Hrow. simpl.
    split; [reflexivity|]. split; [left; reflexivity|]. split; [reflexivity|].
    rewrite (proj1 (lookup_cell_rect _ _ _ _ _ _ Hstd Hi Hrow)). eexists; reflexivity.
  - apply index_of_None in Hout. rewrite Hout.
    apply index_of_is_Some in Hin as [row Hrow]. rewrite Hrow.
    eexists. split; [intros acc; reflexivity|]. split; [reflexivity|].
    unfold handle_resolved, dereference, joint_slot, get_interface. simpl.
    rewrite Hnother, Hout, Hrow. simpl.
    split; [reflexivity|]. split; [right; reflexivity|]. split; [reflexivity|].
    rewrite (proj1 (lookup_cell_rect _ _ _ _ _ _ Hother Hi Hrow)). eexists; reflexivity.
Qed.

(** The handle that one sensor interface is exported with. *)
Lemma export_sensor_interface_handle (s : GenericSystem) (sensor : ComponentInfo)
    (i cols : nat) (values : storage) (interface : InterfaceInfo) :
  names_of s values = sensor_interfaces_ s →
  rect (length (sensor_interfaces_ s)) cols (values_of s values) →
  interface_name interface ∈ sensor_interfaces_ s →
  ∃ h,
    (∀ acc, export_sensor_interface s sensor i values interface acc
            = Returns (acc ++ [h]))
    ∧ handle_key h = (name sensor, interface_name interface, i)
    ∧ handle_resolved s h
    ∧ handle_values h = values
    ∧ (is_Some (dereference s h) ↔ (handle_column h < cols)%nat).
Proof.
  intros Hnames Hrect Hin.
  unfold export_sensor_interface, get_interface_handle.
  apply index_of_is_Some in Hin as [row Hrow]. rewrite Hrow.
  eexists. split; [intros acc; reflexivity|]. split; [reflexivity|].
  unfold handle_resolved, dereference. simpl. rewrite Hnames.
  split; [exact Hrow|]. split; [reflexivity|].
  destruct (decide (i < cols)%nat) as [Hi|Hi].
  - rewrite (proj1 (lookup_cell_rect _ _ _ _ _ _ Hrect Hi Hrow)).
    split; [intros _; exact Hi|intros _; eexists; reflexivity].
  - rewrite (lookup_cell_outside _ _ _ row i Hrect Hi).
    split; [intros [x Hx]; discriminate Hx|intros H; contradiction].
Qed.

(** The loop over the joints of an export. *)
Lemma export_joints (info : HardwareInfo) (s : GenericSystem)
    (sel : ComponentInfo → list InterfaceInfo) (standard_values other_values : storage) :
  running info s →
  (∀ joint interface, interface ∈ sel joint →
     interface_name interface ∈ declared_commands joint
     ∨ interface_name interface ∈ declared_states joint) →
  names_of s standard_values = standard_interfaces_ →
  names_of s other_values = other_interfaces_ s →
  rect (length standard_interfaces_) (length (joints info)) (values_of s standard_values) →
  rect (length (other_interfaces_ s)) (length (joints info)) (values_of s other_values) →
  ∃ handles,
    for_loop_M (length (joints info)) (fun i acc =>
      for_each_M (sel (joints info !!! i))
        (export_joint_interface s (joints info !!! i) i standard_values other_values)
        acc) []
    = Returns handles
    ∧ handle_key <$> handles
      = declared_keys (joints info) (fun joint => interface_name <$> sel joint)
    ∧ Forall (fun h =>
        handle_resolved s h
        ∧ (handle_values h = standard_values ∨ handle_values h = other_values)
        ∧ dereference s h
          = joint_slot s (values_of s standard_values) (values_of s other_values)
              (handle_column h) (handle_interface_name h)
        ∧ is_Some (dereference s h)) handles.
Proof.
  intros Hrun Hsel Hnstd Hnother Hstd Hother.
  rewrite <- declared_keys_fmap.
  apply (for_loop_M_emplace (length (joints info))
           (fun i => sel (joints info !!! i))
           (fun i => export_joint_interface s (joints info !!! i) i
                       standard_values other_values)
           (fun i interface => (name (joints info !!! i), interface_name interface, i))
           _ []).
  intros i interface Hi Hin.
  apply (export_joint_interface_handle s (joints info !!! i) i (length (joints info)));
    try assumption.
  eapply (declared_interface_row info s (joints info !!! i)); [exact Hrun| |].
  - apply list_elem_of_lookup_total_2. exact Hi.
  - apply Hsel. exact Hin.
Qed.

(** The loop over the sensors of an export. *)
Lemma export_sensors (info : HardwareInfo) (s : GenericSystem) (values : storage)
    (init : list Handle) :
  running info s →
  names_of s values = sensor_interfaces_ s →
  rect (length (sensor_interfaces_ s)) (length (joints info)) (values_of s values) →
  ∃ handles,
    for_loop_M (length (sensors info)) (fun i acc =>
      for_each_M (state_interfaces (sensors info !!! i))
        (export_sensor_interface s (sensors info !!! i) i values) acc) init
    = Returns (init ++ handles)
    ∧ handle_key <$> handles = declared_keys (sensors info) declared_states
    ∧ Forall (fun h =>
        handle_resolved s h
        ∧ handle_values h = values
        ∧ (is_Some (dereference s h) ↔ (handle_column h < length (joints info))%nat))
        handles.
Proof.
  intros Hrun Hnames Hrect.
  change declared_states
    with (fun sensor => interface_name <$> state_interfaces sensor).
  rewrite <- declared_keys_fmap.
  apply (for_loop_M_emplace (length (sensors info))
           (fun i => state_interfaces (sensors info !!! i))
           (fun i => export_sensor_interface s (sensors info !!! i) i values)
           (fun i interface => (name (sensors info !!! i), interface_name interface, i))
           _ init).
  intros i interface Hi Hin.
  apply (export_sensor_interface_handle s (sensors info !!! i) i (length (joints info)));
    try assumption.
  destruct (running_interfaces _ _ Hrun) as (_ & _ & -> & _).
  apply elem_of_find_sensor_interfaces. exists (sensors info !!! i). split.
  - apply list_elem_of_lookup_total_2. exact Hi.
  - unfold declared_states. apply list_elem_of_fmap. exists interface. split; [reflexivity|exact Hin].
Qed.

(** The storage of a running backend. *)
Lemma running_storage (info : HardwareInfo) (s : GenericSystem) :
  running info s →
  rect (length standard_interfaces_) (length (joints info)) (joint_states_ s)
  ∧ rect (length standard_interfaces_) (length (joints info)) (joint_commands_ s)
  ∧ rect (length (other_interfaces_ s)) (length (joints info)) (other_states_ s)
  ∧ rect (length (other_interfaces_ s)) (length (joints info)) (other_commands_ s)
  ∧ rect (length (sensor_interfaces_ s)) (length (joints info)) (sensor_states_ s)
  ∧ rect (length (sensor_interfaces_ s)) (length (joints info)) (sensor_fake_commands_ s).
Proof.
  intros Hrun.
  destruct (running_invariant _ _ Hrun)
    as [(Hrows & (_ & Hst & Hcmd & _) & [Hoc Hos] & _) Hinfo].
  destruct (running_configured _ _ Hrun) as (_ & _ & _ & _ & _ & [Hsf Hss]).
  rewrite Hrows in Hst, Hcmd. rewrite Hinfo in Hst, Hcmd, Hoc, Hos, Hsf, Hss.
  split; [exact Hst|]. split; [exact Hcmd|]. split; [exact Hos|].
  split; [exact Hoc|]. split; [exact Hss|exact Hsf].
Qed.

(** X1: [export_state_interfaces] on a running backend returns: the error
    that "should never happen" does not happen.  It returns one handle per
    declared state interface, those of the joints first and those of the
    sensors next, each in the order of the resource description and under
    the name of its component.  A joint handle points into the joint states
    or the other states, at the row of its interface name and the column of
    its joint; the cell exists and is the joint's state slot.  A sensor
    handle points into the sensor states, at the row of its interface name
    and the column of its sensor; that cell exists exactly when the index
    of the sensor is smaller than the number of joints, the sensor rows
    having one cell per joint. *)
Theorem export_state_interfaces_handles (info : HardwareInfo) (s : GenericSystem) :
  running info s →
  ∃ joint_handles sensor_handles,
    export_state_interfaces s = Returns (joint_handles ++ sensor_handles)
    ∧ handle_key <$> joint_handles = declared_keys (joints info) declared_states
    ∧ handle_key <$> sensor_handles = declared_keys (sensors info) declared_states
    ∧ Forall (fun h =>
        handle_resolved s h
        ∧ (handle_values h = joint_states_storage ∨ handle_values h = other_states_storage)
        ∧ dereference s h = state_slot s (handle_column h) (handle_interface_name h)
        ∧ is_Some (dereference s h)) joint_handles
    ∧ Forall (fun h =>
        handle_resolved s h
        ∧ handle_values h = sensor_states_storage
        ∧ (is_Some (dereference s h) ↔ (handle_column h < length (joints info))%nat))
        sensor_handles.
Proof.
  intros Hrun.
  destruct (running_storage _ _ Hrun) as (Hjs & Hjc & Hos & Hoc & Hss & Hsf).
  destruct (running_interfaces _ _ Hrun) as (Hinfo & _).
  destruct (export_joints info s state_interfaces joint_states_storage
              other_states_storage Hrun) as (joint_handles & Hjoints & Hjkeys & Hjall);
    try reflexivity; try assumption.
  { intros joint interface Hin. right. unfold declared_states.
    apply list_elem_of_fmap. exists interface. split; [reflexivity|exact Hin]. }
  destruct (export_sensors info s sensor_states_storage joint_handles Hrun)
    as (sensor_handles & Hsensors & Hskeys & Hsall);
    try reflexivity; try assumption.
  exists joint_handles, sensor_handles.
  split; [|split; [exact Hjkeys|split; [exact Hskeys|split; [exact Hjall|exact Hsall]]]].
  unfold export_state_interfaces. cbv zeta. rewrite Hinfo, Hjoints. simpl.
  rewrite Hsensors. reflexivity.
Qed.

(** X2: [export_command_interfaces] on a running backend returns as well: one
    handle per declared command interface of the joints, in order, each
    pointing at an existing cell of the joint commands or the other
    commands, which is the joint's command slot.  Handles on the fake
    sensor commands follow exactly when fake sensor commands are on: one
    per declared state interface of the sensors; without them no sensor
    handle is exported. *)
Theorem export_command_interfaces_handles (info : HardwareInfo) (s : GenericSystem) :
  running info s →
  ∃ joint_handles sensor_handles,
    export_command_interfaces s = Returns (joint_handles ++ sensor_handles)
    ∧ handle_key <$> joint_handles = declared_keys (joints info) declared_commands
    ∧ handle_key <$> sensor_handles
      = (if fake_sensor_command_interfaces_ s
         then declared_keys (sensors info) declared_states else [])
    ∧ Forall (fun h =>
        handle_resolved s h
        ∧ (handle_values h = joint_commands_storage
           ∨ handle_values h = other_commands_storage)
        ∧ dereference s h = command_slot s (handle_column h) (handle_interface_name h)
        ∧ is_Some (dereference s h)) joint_handles
    ∧ Forall (fun h =>
        handle_resolved s h
        ∧ handle_values h = sensor_fake_commands_storage
        ∧ (is_Some (dereference s h) ↔ (handle_column h < length (joints info))%nat))
        sensor_handles.
Proof.
  intros Hrun.
  destruct (running_storage _ _ Hrun) as (Hjs & Hjc & Hos & Hoc & Hss & Hsf).
  destruct (running_interfaces _ _ Hrun) as (Hinfo & _).
  destruct (export_joints info s command_interfaces joint_commands_storage
              other_commands_storage Hrun) as (joint_handles & Hjoints & Hjkeys & Hjall);
    try reflexivity; try assumption.
  { intros joint interface Hin. left. unfold declared_commands.
    apply list_elem_of_fmap. exists interface. split; [reflexivity|exact Hin]. }
  unfold export_command_interfaces. cbv zeta. rewrite Hinfo, Hjoints. simpl.
  destruct (fake_sensor_command_interfaces_ s).
  - destruct (export_sensors info s sensor_fake_commands_storage joint_handles Hrun)
      as (sensor_handles & Hsensors & Hskeys & Hsall);
      try reflexivity; try assumption.
    exists joint_handles, sensor_handles. rewrite Hsensors.
    split; [reflexivity|]. repeat split; assumption.
  - exists joint_handles, []. rewrite app_nil_r.
    split; [reflexivity|]. repeat split; try assumption. constructor.
Qed.

(** The exports read the members that only [configure] writes. *)
Lemma exports_same_configuration (s s' : GenericSystem) :
  same_configuration s s' →
  export_state_interfaces s' = export_state_interfaces s
  ∧ export_command_interfaces s' = export_command_interfaces s.
Proof.
  intros (Hinfo & Hfake & _ & _ & _ & _ & Hoi & Hsi & _).
  unfold export_state_interfaces, export_command_interfaces,
    export_joint_interface, export_sensor_interface.
  rewrite Hinfo, Hfake, Hoi, Hsi. split; reflexivity.
Qed.

(** A cell of a matrix exists exactly when its row and its column do. *)
Lemma lookup_cell_is_Some (rows cols : nat) (values : matrix) (row i : nat) :
  rect rows cols values →
  is_Some (values !! row ≫= (fun r => r !! i)) ↔ (row < rows)%nat ∧ (i < cols)%nat.
Proof.
  intros [Hlen Hrows]. rewrite Forall_forall in Hrows.
  destruct (values !! row) as [r|] eqn:Hrow; simpl.
  - pose proof (lookup_lt_Some _ _ _ Hrow) as Hlt.
    rewrite lookup_lt_is_Some.
    rewrite (Hrows r) by (eapply list_elem_of_lookup_2; exact Hrow). lia.
  - apply lookup_ge_None in Hrow. split; [intros [x Hx]; discriminate Hx|lia].
Qed.

(** The cell of a handle exists exactly when its row is a row of the
    interface list of its matrix and its column is the index of a joint. *)
Lemma dereference_is_Some (info : HardwareInfo) (s : GenericSystem) (h : Handle) :
  running info s →
  is_Some (dereference s h)
  ↔ (handle_row h < length (names_of s (handle_values h)))%nat
    ∧ (handle_column h < length (joints info))%nat.
Proof.
  intros Hrun.
  destruct (running_storage _ _ Hrun) as (Hjs & Hjc & Hos & Hoc & Hss & Hsf).
  unfold dereference.
  destruct (handle_values h); simpl; apply lookup_cell_is_Some; assumption.
Qed.

(** X3: The handles that the two exports return on a running backend stay
    the right ones through every later sequence of cycles, mode switches
    and writes.  Later calls of the exports return the same handles; the
    cell of a handle exists later exactly when it existed at the export
    (no matrix is ever resized, so a handle that points at a cell keeps
    pointing at one, and a sensor handle that points outside its row keeps
    doing so); and reading a joint handle later gives the value that the
    joint's slot for the handle's interface holds then. *)
Theorem exported_handles_stay_valid (info : HardwareInfo) (s s' : GenericSystem)
    (state_handles command_handles : list Handle) :
  running info s →
  operates s s' →
  export_state_interfaces s = Returns state_handles →
  export_command_interfaces s = Returns command_handles →
  export_state_interfaces s' = Returns state_handles
  ∧ export_command_interfaces s' = Returns command_handles
  ∧ Forall (fun h =>
      (is_Some (dereference s' h) ↔ is_Some (dereference s h))
      ∧ (handle_values h = joint_states_storage
         ∨ handle_values h = other_states_storage →
         dereference s' h = state_slot s' (handle_column h) (handle_interface_name h)))
      state_handles
  ∧ Forall (fun h =>
      (is_Some (dereference s' h) ↔ is_Some (dereference s h))
      ∧ (handle_values h = joint_commands_storage
         ∨ handle_values h = other_commands_storage →
         dereference s' h
         = command_slot s' (handle_column h) (handle_interface_name h)))
      command_handles.
Proof.
  intros Hrun Hops Hstate Hcommand.
  pose proof (running_operates _ _ _ Hrun Hops) as Hrun'.
  pose proof (operates_same_configuration _ _ Hops) as Hsame.
  destruct (exports_same_configuration _ _ Hsame) as [Hstate' Hcommand'].
  rewrite Hstate in Hstate'. rewrite Hcommand in Hcommand'.
  assert (Hexists : ∀ h, is_Some (dereference s' h) ↔ is_Some (dereference s h)).
  { intros h.
    rewrite (dereference_is_Some info s' h Hrun'), (dereference_is_Some info s h Hrun).
    destruct Hsame as (_ & _ & _ & _ & _ & _ & Hoi & Hsi & _).
    unfold names_of. rewrite Hoi, Hsi. reflexivity. }
  destruct (running_storage _ _ Hrun') as (Hjs & Hjc & Hos & Hoc & Hss & Hsf).
  destruct (running_interfaces _ _ Hrun') as (Hinfo & _).
  split; [exact Hstate'|]. split; [exact Hcommand'|]. split.
  - destruct (export_joints info s' state_interfaces joint_states_storage
                other_states_storage Hrun') as (joint_handles & Hjoints & _ & Hjall);
      try reflexivity; try assumption.
    { intros joint interface Hin. right. unfold declared_states.
      apply list_elem_of_fmap. exists interface. split; [reflexivity|exact Hin]. }
    destruct (export_sensors info s' sensor_states_storage joint_handles Hrun')
      as (sensor_handles & Hsensors & _ & Hsall);
      try reflexivity; try assumption.
    assert (Hall : export_state_interfaces s' = Returns (joint_handles ++ sensor_handles)).
    { unfold export_state_interfaces. cbv zeta. rewrite Hinfo, Hjoints. simpl.
      rewrite Hsensors. reflexivity. }
    rewrite Hstate' in Hall. injection Hall as ->.
    apply Forall_app. split.
    + eapply Forall_impl; [exact Hjall|]. simpl.
      intros h (_ & _ & Hslot & _). split; [apply Hexists|]. intros _. exact Hslot.
    + eapply Forall_impl; [exact Hsall|]. simpl.
      intros h (_ & Hvalues & _). split; [apply Hexists|].
      rewrite Hvalues. intros [H|H]; discriminate H.
  - destruct (export_joints info s' command_interfaces joint_commands_storage
                other_commands_storage Hrun') as (joint_handles & Hjoints & _ & Hjall);
      try reflexivity; try assumption.
    { intros joint interface Hin. left. unfold declared_commands.
      apply list_elem_of_fmap. exists interface. split; [reflexivity|exact Hin]. }
    assert (Hall : ∃ sensor_handles,
              export_command_interfaces s' = Returns (joint_handles ++ sensor_handles)
              ∧ Forall (fun h => handle_values h = sensor_fake_commands_storage)
                  sensor_handles).
    { unfold export_command_interfaces. cbv zeta. rewrite Hinfo, Hjoints. simpl.
      destruct (fake_sensor_command_interfaces_ s').
      - destruct (export_sensors info s' sensor_fake_commands_storage joint_handles Hrun')
          as (sensor_handles & Hsensors & _ & Hsall);
          try reflexivity; try assumption.
        exists sensor_handles. rewrite Hsensors. split; [reflexivity|].
        eapply Forall_impl; [exact Hsall|]. simpl. intros h (_ & Hvalues & _).
        exact Hvalues.
      - exists []. rewrite app_nil_r. split; [reflexivity|constructor]. }
    destruct Hall as (sensor_handles & Hall & Hsall).
    rewrite Hcommand' in Hall. injection Hall as ->.
    apply Forall_app. split.
    + eapply Forall_impl; [exact Hjall|]. simpl.
      intros h (_ & _ & Hslot & _). split; [apply Hexists|]. intros _. exact Hslot.
    + eapply Forall_impl; [exact Hsall|]. simpl.
      intros h Hvalues. split; [apply Hexists|].
      rewrite Hvalues. intros [H|H]; discriminate H.
Qed.

(** ** When configure returns *)

(** A counted loop returns when its body always does. *)
Lemma for_loop_M_returns {S : Type} (n : nat) (body : nat → S → result S) (s : S) :
  (∀ k acc, (k < n)%nat → ∃ acc', body k acc = Returns acc') →
  ∃ s', for_loop_M n body s = Returns s'.
Proof.
  induction n as [|n IH]; intros Hbody.
  - exists s. reflexivity.
  - destruct IH as [acc Hacc]; [intros k a Hk; apply Hbody; lia|].
    destruct (Hbody n acc) as [acc' Hacc']; [lia|].
    exists acc'. rewrite for_loop_M_S, Hacc. exact Hacc'.
Qed.

(** [initialize_storage_vectors] returns when every initial value that it
    reads converts. *)
Lemma initialize_storage_vectors_returns (joints : list ComponentInfo)
    (interfaces : list string) :
  (∀ i j text, (i < length joints)%nat → (j < length interfaces)%nat →
     parameters (joints !!! i) !! ("initial_" +:+ interfaces !!! j) = Some text →
     is_Some (stod text)) →
  ∃ commands states,
    initialize_storage_vectors joints [] [] interfaces = Returns (commands, states).
Proof.
  intros Hconv. unfold initialize_storage_vectors. rewrite allocate_storage.
  match goal with
  | |- ∃ _ _, (?loop ≫= _) = _ => assert (∃ st, loop = Returns st) as [st Hst]
  end.
  { apply for_loop_M_returns. intros i acc Hi.
    apply for_loop_M_returns. intros j acc' Hj.
    destruct (parameters (joints !!! i) !! ("initial_" +:+ interfaces !!! j))
      as [text|] eqn:Hp; [|eexists; reflexivity].
    destruct (Hconv i j text Hi Hj Hp) as [x Hx].
    unfold stod_or_throw. rewrite Hx. eexists. reflexivity. }
  rewrite Hst. eexists _, _. reflexivity.
Qed.

(** The mimic relations that [configure] finds. *)
Lemma find_mimic_joints_relations (joints : list ComponentInfo)
    (mimics : list MimicJoint) :
  find_mimic_joints joints [] = Returns mimics →
  joint_index <$> mimics
  = filter (fun i => is_Some (parameters (joints !!! i) !! "mimic"))
      (seq 0 (length joints))
  ∧ (∀ r, r ∈ mimics →
       ∃ mimicked, parameters (joints !!! joint_index r) !! "mimic" = Some mimicked
         ∧ joints !! mimicked_joint_index r
           = Some (joints !!! mimicked_joint_index r)
         ∧ name (joints !!! mimicked_joint_index r) = mimicked
         ∧ (∀ k, (k < mimicked_joint_index r)%nat → name (joints !!! k) ≠ mimicked)
         ∧ ∀ text, parameters (joints !!! joint_index r) !! "multiplier" = Some text →
             stod text = Some (multiplier r))
  ∧ (∀ i mimicked, (i < length joints)%nat →
       parameters (joints !!! i) !! "mimic" = Some mimicked →
       (∃ leader, leader ∈ joints ∧ name leader = mimicked)
       ∧ ∀ text, parameters (joints !!! i) !! "multiplier" = Some text →
           is_Some (stod text)).
Proof.
  intros Hrun.
  set (R := fun r : MimicJoint =>
    ∃ mimicked, parameters (joints !!! joint_index r) !! "mimic" = Some mimicked
      ∧ joints !! mimicked_joint_index r = Some (joints !!! mimicked_joint_index r)
      ∧ name (joints !!! mimicked_joint_index r) = mimicked
      ∧ (∀ k, (k < mimicked_joint_index r)%nat → name (joints !!! k) ≠ mimicked)
      ∧ ∀ text, parameters (joints !!! joint_index r) !! "multiplier" = Some text →
          stod text = Some (multiplier r)).
  set (P := fun (k : nat) (acc : list MimicJoint) =>
    joint_index <$> acc
    = filter (fun i => is_Some (parameters (joints !!! i) !! "mimic")) (seq 0 k)
    ∧ (∀ r, r ∈ acc → R r)
    ∧ (∀ i mimicked, (i < k)%nat →
         parameters (joints !!! i) !! "mimic" = Some mimicked →
         (∃ leader, leader ∈ joints ∧ name leader = mimicked)
         ∧ ∀ text, parameters (joints !!! i) !! "multiplier" = Some text →
             is_Some (stod text))).
  apply (for_loop_M_ind P _ _ _ _ Hrun); unfold P; clear P.
  - split; [reflexivity|]. split.
    + intros r Hr. apply elem_of_nil in Hr. contradiction.
    + intros i mimicked Hi. lia.
  - intros k acc acc' Hk (Hidx & Hrel & Hall) Hbody.
    rewrite seq_S, filter_app. simpl.
    destruct (parameters (joints !!! k) !! "mimic") as [mimicked|] eqn:Hmimic.
    + destruct (list_find _ joints) as [[idx found]|] eqn:Hfind; [|discriminate].
      apply list_find_Some in Hfind as (Hlookup & Hname & Hfirst).
      assert (Hfound : joints !!! idx = found).
      { apply list_lookup_total_correct. exact Hlookup. }
      assert (Hmult : ∃ mult,
                match parameters (joints !!! k) !! "multiplier" with
                | Some text => stod text = Some mult
                | None => True
                end
                ∧ acc' = acc ++ [ {| joint_index := k; mimicked_joint_index := idx;
                                     multiplier := mult |} ]).
      { destruct (parameters (joints !!! k) !! "multiplier") as [text|].
        - unfold stod_or_throw in Hbody.
          destruct (stod text) as [x|]; [|discriminate].
          simpl in Hbody. injection Hbody as <-. exists x. split; reflexivity.
        - simpl in Hbody. injection Hbody as <-. exists 1.0. split; [exact I|reflexivity]. }
      destruct Hmult as (mult & Hmult & ->).
      split; [|split].
      * rewrite fmap_app, Hidx. simpl. rewrite filter_cons_True, filter_nil.
        -- reflexivity.
        -- rewrite Hmimic. eexists. reflexivity.
      * intros r Hr. apply elem_of_app in Hr as [Hr|Hr]; [apply Hrel; exact Hr|].
        apply list_elem_of_singleton in Hr. subst r. unfold R. simpl.
        exists mimicked. split; [exact Hmimic|]. rewrite Hfound.
        split; [exact Hlookup|]. split; [exact Hname|]. split.
        -- intros k' Hk'.
           assert (Hk'' : (k' < length joints)%nat).
           { apply lookup_lt_Some in Hlookup. lia. }
           apply (Hfirst k' (joints !!! k')); [|exact Hk'].
           apply list_lookup_lookup_total_lt. exact Hk''.
        -- intros text Htext. rewrite Htext in Hmult. exact Hmult.
      * intros i mimicked' Hi Hmimic'.
        destruct (decide (i = k)) as [->|Hne]; [|apply Hall; [lia|exact Hmimic']].
        rewrite Hmimic in Hmimic'. injection Hmimic' as <-. split.
        -- exists found. split; [eapply list_elem_of_lookup_2; exact Hlookup|exact Hname].
        -- intros text Htext. rewrite Htext in Hmult. rewrite Hmult. eexists. reflexivity.
    + injection Hbody as <-. split; [|split].
      * rewrite filter_cons_False, filter_nil, app_nil_r; [exact Hidx|].
        rewrite Hmimic. intros [x Hx]. discriminate Hx.
      * exact Hrel.
      * intros i mimicked' Hi Hmimic'.
        destruct (decide (i = k)) as [->|Hne]; [|apply Hall; [lia|exact Hmimic']].
        rewrite Hmimic in Hmimic'. discriminate Hmimic'.
Qed.

(** [find_mimic_joints] returns when every reference resolves and every
    multiplier converts. *)
Lemma find_mimic_joints_returns (joints : list ComponentInfo) :
  (∀ i mimicked, (i < length joints)%nat →
     parameters (joints !!! i) !! "mimic" = Some mimicked →
     (∃ leader, leader ∈ joints ∧ name leader = mimicked)
     ∧ ∀ text, parameters (joints !!! i) !! "multiplier" = Some text →
         is_Some (stod text)) →
  ∃ mimics, find_mimic_joints joints [] = Returns mimics.
Proof.
  intros Hok. apply for_loop_M_returns. intros i acc Hi. cbv beta zeta.
  destruct (parameters (joints !!! i) !! "mimic") as [mimicked|] eqn:Hmimic;
    [|eexists; reflexivity].
  destruct (Hok i mimicked Hi Hmimic) as [(leader & Hin & Hname) Hmult].
  destruct (list_find _ joints) as [[idx found]|] eqn:Hfind.
  - destruct (parameters (joints !!! i) !! "multiplier") as [text|].
    + destruct (Hmult text eq_refl) as [x Hx].
      unfold stod_or_throw. rewrite Hx. eexists. reflexivity.
    + eexists. reflexivity.
  - exfalso. apply list_find_None in Hfind. rewrite Forall_forall in Hfind.
    apply (Hfind leader Hin). exact Hname.
Qed.

(** X5: [configure] returns exactly when every text it converts is a number
    and every mimic reference resolves: the following offset, when given;
    for every joint, the initial value given under the name of any
    standard interface, of any interface that a joint declares, and of any
    state interface that a sensor declares; and, for every joint with a
    "mimic" parameter, a joint of that name and the multiplier, when given.
    In every other case it throws. *)
Theorem configure_returns (now : Z) (info : HardwareInfo) :
  (∃ s, configure now info = Returns (OK, s))
  ↔ (∀ text, hardware_parameters info !! "position_state_following_offset" = Some text →
       is_Some (stod text))
    ∧ (∀ joint interface text, joint ∈ joints info →
         interface ∈ standard_interfaces_
         ∨ (∃ joint', joint' ∈ joints info
              ∧ (interface ∈ declared_commands joint' ∨ interface ∈ declared_states joint'))
         ∨ (∃ sensor, sensor ∈ sensors info ∧ interface ∈ declared_states sensor) →
         parameters joint !! ("initial_" +:+ interface) = Some text →
         is_Some (stod text))
    ∧ (∀ joint mimicked, joint ∈ joints info →
         parameters joint !! "mimic" = Some mimicked →
         (∃ leader, leader ∈ joints info ∧ name leader = mimicked)
         ∧ ∀ text, parameters joint !! "multiplier" = Some text → is_Some (stod text)).
Proof.
  split.
  - intros [s Hrun].
    apply configure_inv in Hrun
      as (offset & custom & jc & js & mimics & oc & os & sc & ss
          & Hparams & Hjoint & Hmimic & Hother & Hsensor & _).
    assert (Hinit : ∀ (interfaces : list string) (c st : matrix)
              (joint : ComponentInfo) (interface text : string),
              initialize_storage_vectors (joints info) [] [] interfaces = Returns (c, st) →
              joint ∈ joints info → interface ∈ interfaces →
              parameters joint !! ("initial_" +:+ interface) = Some text →
              is_Some (stod text)).
    { intros interfaces c st joint interface text Hinit Hj Hi Htext.
      apply initialize_storage_vectors_spec in Hinit as (_ & _ & Hcells).
      apply list_elem_of_lookup_1 in Hj as [i Hjoint'].
      apply list_elem_of_lookup_1 in Hi as [j Hinterface].
      destruct (Hcells j i) as [_ Hconv].
      - eapply lookup_lt_Some. exact Hinterface.
      - eapply lookup_lt_Some. exact Hjoint'.
      - apply (Hconv text).
        rewrite (list_lookup_total_correct _ _ _ Hjoint'),
          (list_lookup_total_correct _ _ _ Hinterface). exact Htext. }
    split; [|split].
    + intros text Htext. unfold following_parameters in Hparams.
      rewrite Htext in Hparams. unfold stod_or_throw in Hparams.
      destruct (stod text) as [x|]; [eexists; reflexivity|discriminate].
    + intros joint interface text Hj Hknown Htext.
      destruct (decide (interface ∈ standard_interfaces_)) as [Hstd|Hstd].
      { eapply (Hinit _ _ _ _ _ _ Hjoint); eassumption. }
      destruct Hknown as [Hs|[Hdecl|Hsens]]; [contradiction| |].
      * eapply (Hinit _ _ _ _ _ _ Hother); [exact Hj| |exact Htext].
        apply elem_of_find_other_interfaces. split; assumption.
      * eapply (Hinit _ _ _ _ _ _ Hsensor); [exact Hj| |exact Htext].
        apply elem_of_find_sensor_interfaces. exact Hsens.
    + intros joint mimicked Hj Hm.
      apply find_mimic_joints_relations in Hmimic as (_ & _ & Hall).
      apply list_elem_of_lookup_1 in Hj as [i Hjoint'].
      pose proof (list_lookup_total_correct _ _ _ Hjoint') as Heq.
      rewrite <- Heq in Hm. rewrite <- Heq.
      apply (Hall i mimicked); [eapply lookup_lt_Some; exact Hjoint'|exact Hm].
  - intros (Hoffset & Hinitial & Hmimic).
    assert (Hinit : ∀ interfaces : list string,
              (∀ interface, interface ∈ interfaces →
                 interface ∈ standard_interfaces_
                 ∨ (∃ joint', joint' ∈ joints info
                      ∧ (interface ∈ declared_commands joint'
                         ∨ interface ∈ declared_states joint'))
                 ∨ (∃ sensor, sensor ∈ sensors info ∧ interface ∈ declared_states sensor)) →
              ∃ c st, initialize_storage_vectors (joints info) [] [] interfaces
                      = Returns (c, st)).
    { intros interfaces Hknown. apply initialize_storage_vectors_returns.
      intros i j text Hi Hj Htext.
      apply (Hinitial (joints info !!! i) (interfaces !!! j) text).
      - apply list_elem_of_lookup_total_2. exact Hi.
      - apply Hknown. apply list_elem_of_lookup_total_2. exact Hj.
      - exact Htext. }
    destruct (Hinit standard_interfaces_) as (jc & js & Hjoint); [intros x Hx; left; exact Hx|].
    destruct (Hinit (find_other_interfaces (joints info) [])) as (oc & os & Hother).
    { intros x Hx. apply elem_of_find_other_interfaces in Hx as [_ Hx]. right. left. exact Hx. }
    destruct (Hinit (find_sensor_interfaces (sensors info) [])) as (sc & ss & Hsensor).
    { intros x Hx. apply elem_of_find_sensor_interfaces in Hx. right. right. exact Hx. }
    destruct (find_mimic_joints_returns (joints info)) as [mimics Hmimics].
    { intros i mimicked Hi Hm. apply (Hmimic (joints info !!! i)); [|exact Hm].
      apply list_elem_of_lookup_total_2. exact Hi. }
    unfold configure, configure_default.
    rewrite bool_decide_eq_false_2 by (intros H; apply H; reflexivity).
    rewrite Hjoint, Hmimics, Hother, Hsensor.
    destruct (hardware_parameters info !! "position_state_following_offset")
      as [text|] eqn:Htext.
    + destruct (Hoffset text eq_refl) as [x Hx]. unfold stod_or_throw. rewrite Hx.
      destruct (hardware_parameters info !! "custom_interface_with_following_offset");
        eexists; reflexivity.
    + eexists. reflexivity.
Qed.

(** X6: The mimic relations after [configure]: one relation for each joint
    that has a "mimic" parameter, in the order of the joints; its leader is
    the first joint whose name is the value of that parameter (which may be
    the joint itself, or a joint that follows another one), and its
    multiplier is the converted "multiplier" parameter when the joint has
    one. *)
Theorem configure_mimic_joints (now : Z) (info : HardwareInfo) (s : GenericSystem) :
  configure now info = Returns (OK, s) →
  followers s
  = filter (fun i => is_Some (parameters (joints info !!! i) !! "mimic"))
      (seq 0 (length (joints info)))
  ∧ ∀ r, r ∈ mimic_joints_ s →
      ∃ mimicked,
        parameters (joints info !!! joint_index r) !! "mimic" = Some mimicked
        ∧ joints info !! mimicked_joint_index r
          = Some (joints info !!! mimicked_joint_index r)
        ∧ name (joints info !!! mimicked_joint_index r) = mimicked
        ∧ (∀ k, (k < mimicked_joint_index r)%nat → name (joints info !!! k) ≠ mimicked)
        ∧ ∀ text, parameters (joints info !!! joint_index r) !! "multiplier" = Some text →
            stod text = Some (multiplier r).
Proof.
  intros Hrun.
  apply configure_inv in Hrun
    as (offset & custom & jc & js & mimics & oc & os & sc & ss
        & _ & _ & Hmimic & _ & _ & _ & _ & _ & _ & _ & _ & _ & _ & _ & _ & _ & Hmj & _).
  apply find_mimic_joints_relations in Hmimic as (Hidx & Hrel & _).
  unfold followers. rewrite Hmj. split; [exact Hidx|exact Hrel].
Qed.

(** X7: The sensor storage after [configure] is sized and filled like the
    joint storage: every row of the sensor states and of the fake sensor
    commands has one cell per joint, whatever the number of sensors; every
    fake command is the unset sentinel; and the sensor state in row j,
    column i is the initial value that joint i gives under the name of the
    sensor interface j, the unset sentinel when it gives none (sensor
    states are not zeroed). *)
Theorem configure_sensor_cells (now : Z) (info : HardwareInfo) (s : GenericSystem) :
  configure now info = Returns (OK, s) →
  rect (length (sensor_interfaces_ s)) (length (joints info)) (sensor_states_ s)
  ∧ rect (length (sensor_interfaces_ s)) (length (joints info)) (sensor_fake_commands_ s)
  ∧ ∀ j i, (j < length (sensor_interfaces_ s))%nat → (i < length (joints info))%nat →
      cell (sensor_fake_commands_ s) j i = quiet_NaN
      ∧ cell (sensor_states_ s) j i
        = initial_value (joints info !!! i) (sensor_interfaces_ s !!! j).
Proof.
  intros Hrun.
  destruct (configure_sensor_fields _ _ _ _ Hrun) as (Hsi & Hinit & _).
  apply initialize_storage_vectors_spec in Hinit as (Hfake & Hrect & Hcells).
  rewrite Hsi, Hfake. split; [exact Hrect|]. split; [apply rect_replicate|].
  intros j i Hj Hi. split; [apply cell_replicate; assumption|].
  apply Hcells; assumption.
Qed.

(** ** What a run keeps *)

(** X9: Through every sequence of cycles, mode switches and writes that
    follows [configure], the resource description stays the configured one,
    each of the six value matrices keeps one row per name of its interface
    list and one cell per joint in every row, the remembered position
    commands keep one entry per joint, and the position and the velocity
    controller never run at the same time. *)
Theorem running_storage_shape (info : HardwareInfo) (s : GenericSystem) :
  running info s →
  info_ s = info
  ∧ rect (length standard_interfaces_) (length (joints info)) (joint_states_ s)
  ∧ rect (length standard_interfaces_) (length (joints info)) (joint_commands_ s)
  ∧ rect (length (other_interfaces_ s)) (length (joints info)) (other_states_ s)
  ∧ rect (length (other_interfaces_ s)) (length (joints info)) (other_commands_ s)
  ∧ rect (length (sensor_interfaces_ s)) (length (joints info)) (sensor_states_ s)
  ∧ rect (length (sensor_interfaces_ s)) (length (joints info)) (sensor_fake_commands_ s)
  ∧ length (joint_pos_commands_old_ s) = length (joints info)
  ∧ (position_controller_running_ s && velocity_controller_running_ s = false).
Proof.
  intros Hrun.
  destruct (running_storage _ _ Hrun) as (Hjs & Hjc & Hos & Hoc & Hss & Hsf).
  destruct (running_invariant _ _ Hrun)
    as [(_ & (_ & _ & _ & Hold) & _ & _ & _ & Hflags & _) Hinfo].
  rewrite Hinfo in Hold.
  split; [exact Hinfo|]. split; [exact Hjs|]. split; [exact Hjc|].
  split; [exact Hos|]. split; [exact Hoc|]. split; [exact Hss|].
  split; [exact Hsf|]. split; [exact Hold|exact Hflags].
Qed.

Lemma contains_collect_modes_velocity (joints : list ComponentInfo) (keys : list string) :
  contains (collect_modes HW_IF_POSITION HW_IF_VELOCITY joints keys) HW_IF_VELOCITY = true
  ↔ ∃ joint, joint ∈ joints ∧ velocity_key joint ∈ keys.
Proof.
  unfold contains. rewrite bool_decide_eq_true, elem_of_collect_modes.
  split; intros (joint & Hjoint & H); exists joint; (split; [exact Hjoint|]).
  - destruct H as [[H _]|[_ H]]; [discriminate H|exact H].
  - right. split; [reflexivity|exact H].
Qed.

(** X19: Switching to velocity control stops the joints: after a start request
    that names the velocity interface of a joint, and the position
    interface of none, has been prepared and performed on a running backend
    with propagation enabled, every velocity command is 0.0, and the next
    cycle leaves a joint that follows no other joint with velocity state
    0.0 and position state = former position state + 0.0 * elapsed time (in
    binary64 arithmetic), which it also writes back as the position
    command. *)
Theorem switch_to_velocity_stops (info : HardwareInfo) (s : GenericSystem) (now : Z)
    (start_interfaces stop_interfaces : list string) (j : nat) :
  running info s →
  (j < length (joints info))%nat →
  j ∉ followers s →
  (∃ joint, joint ∈ joints info ∧ velocity_key joint ∈ start_interfaces) →
  (¬ ∃ joint, joint ∈ joints info ∧ position_key joint ∈ start_interfaces) →
  command_propagation_disabled_ s = false →
  let s' :=
    (perform_command_mode_switch start_interfaces stop_interfaces
       (prepare_command_mode_switch start_interfaces stop_interfaces s).2).2 in
  cell (joint_commands_ s') VELOCITY_INTERFACE_INDEX j = 0.0
  ∧ cell (joint_states_ (read now s').2) VELOCITY_INTERFACE_INDEX j = 0.0
  ∧ cell (joint_states_ (read now s').2) POSITION_INTERFACE_INDEX j
    = cell (joint_states_ s) POSITION_INTERFACE_INDEX j + 0.0 * elapsed now s'
  ∧ cell (joint_commands_ (read now s').2) POSITION_INTERFACE_INDEX j
    = cell (joint_states_ (read now s').2) POSITION_INTERFACE_INDEX j.
Proof.
  intros Hrun Hj Hnf Hvreq Hnopos Hprop. cbv zeta.
  set (s1 := (prepare_command_mode_switch start_interfaces stop_interfaces s).2).
  set (s' := (perform_command_mode_switch start_interfaces stop_interfaces s1).2).
  assert (Hrun1 : running info s1) by (eapply running_operation; [exact Hrun|constructor]).
  assert (Hrun' : running info s') by (eapply running_operation; [exact Hrun1|constructor]).
  destruct (running_invariant _ _ Hrun) as [_ Hinfo].
  destruct (running_invariant _ _ Hrun1) as [Hinv1 Hinfo1].
  destruct (running_invariant _ _ Hrun') as [Hinv' Hinfo'].
  pose proof Hrun as [Hstd _].
  pose proof Hinv1 as (_ & Hwf1 & _).
  pose proof (perform_command_mode_switch_cells start_interfaces stop_interfaces s1 Hwf1)
    as (_ & Hstates & _ & Hmode).
  cbv zeta in Hstates, Hmode. fold s' in Hstates, Hmode.
  assert (Hpos : contains (start_modes_ s1) HW_IF_POSITION = false).
  { destruct (contains (start_modes_ s1) HW_IF_POSITION) eqn:Hc; [|reflexivity].
    exfalso. apply Hnopos. rewrite <- Hinfo.
    apply contains_collect_modes_position. exact Hc. }
  assert (Hvel : contains (start_modes_ s1) HW_IF_VELOCITY = true).
  { apply contains_collect_modes_velocity. rewrite Hinfo. exact Hvreq. }
  rewrite Hpos, Hvel in Hmode. destruct Hmode as (Hflag & Hvflag & Hcmd).
  rewrite Hinfo1 in Hcmd. specialize (Hcmd j Hj).
  change (joint_states_ s1) with (joint_states_ s) in Hstates.
  pose proof (perform_same_configuration start_interfaces stop_interfaces s1)
    as ((_ & _ & Hdis & _ & _ & _ & _ & _ & Hmimic) & _).
  fold s' in Hdis, Hmimic.
  change (command_propagation_disabled_ s1) with (command_propagation_disabled_ s) in Hdis.
  change (mimic_joints_ s1) with (mimic_joints_ s) in Hmimic.
  assert (Hpa : position_active s' j = false).
  { unfold position_active. rewrite Hflag, andb_false_r. reflexivity. }
  assert (Hva : velocity_active s' j = true).
  { unfold velocity_active. rewrite Hcmd, Hdis, Hprop, Hvflag. reflexivity. }
  assert (Hnf' : j ∉ followers s') by (unfold followers; rewrite Hmimic; exact Hnf).
  assert (Hj' : (j < length (joints (info_ s')))%nat) by (rewrite Hinfo'; exact Hj).
  assert (Hposition : cell (joint_states_ (read now s').2) POSITION_INTERFACE_INDEX j
            = cell (joint_states_ s) POSITION_INTERFACE_INDEX j + 0.0 * elapsed now s').
  { rewrite (read_joint_state_cell now s' POSITION_INTERFACE_INDEX j Hinv');
      [|unfold POSITION_INTERFACE_INDEX; lia|exact Hj'|exact Hnf'].
    unfold propagated_cell, propagated_position.
    rewrite bool_decide_eq_true_2 by reflexivity.
    rewrite Hpa, Hva, Hcmd, Hstates. reflexivity. }
  split; [exact Hcmd|]. split; [|split; [exact Hposition|]].
  - rewrite (read_joint_state_cell now s' VELOCITY_INTERFACE_INDEX j Hinv');
      [|unfold VELOCITY_INTERFACE_INDEX; lia|exact Hj'|exact Hnf'].
    unfold propagated_cell, propagated_velocity.
    rewrite bool_decide_eq_false_2 by discriminate.
    rewrite bool_decide_eq_true_2 by reflexivity.
    rewrite Hva. exact Hcmd.
  - rewrite Hposition.
    rewrite (read_joint_command_cell now s' POSITION_INTERFACE_INDEX j Hinv' Hj').
    rewrite Hva, bool_decide_eq_true_2 by reflexivity. simpl.
    unfold propagated_position. rewrite Hpa, Hva, Hcmd, Hstates. reflexivity.
Qed.

(** X8: The hardware parameters, as [configure] reads them: fake sensor
    commands and the propagation switch are on only for the texts "true"
    and "True" (any other text, and a missing parameter, turn them off);
    the following offset is the converted text of its parameter, and the
    name of the custom interface is read only when the offset is given:
    without an offset parameter the offset is 0.0, no custom interface is
    bound, and the parameter that names one is ignored. *)
Theorem configure_hardware_parameters (now : Z) (info : HardwareInfo)
    (s : GenericSystem) :
  configure now info = Returns (OK, s) →
  (fake_sensor_command_interfaces_ s = true
   ↔ hardware_parameters info !! "fake_sensor_commands" = Some "true"
     ∨ hardware_parameters info !! "fake_sensor_commands" = Some "True")
  ∧ (command_propagation_disabled_ s = true
     ↔ hardware_parameters info !! "disable_commands" = Some "true"
       ∨ hardware_parameters info !! "disable_commands" = Some "True")
  ∧ match hardware_parameters info !! "position_state_following_offset" with
    | Some text =>
        stod text = Some (position_state_following_offset_ s)
        ∧ custom_interface_with_following_offset_ s
          = default ""
              (hardware_parameters info !! "custom_interface_with_following_offset")
    | None =>
        position_state_following_offset_ s = 0.0
        ∧ custom_interface_with_following_offset_ s = ""
        ∧ index_custom_interface_with_following_offset_ s = SIZE_MAX
    end.
Proof.
  intros Hrun.
  assert (Htext : ∀ found : option string,
            match found with Some text => is_true_text text | None => false end = true
            ↔ found = Some "true" ∨ found = Some "True").
  { intros [text|]; unfold is_true_text.
    - rewrite orb_true_iff, !bool_decide_eq_true.
      split; (intros [H|H]; [left|right]); congruence.
    - split; [discriminate|]. intros [H|H]; discriminate H. }
  destruct (configure_sensor_fields _ _ _ _ Hrun) as (_ & _ & -> & -> & _).
  apply configure_inv in Hrun
    as (offset & custom & jc & js & mimics & oc & os & sc & ss
        & Hparams & _ & _ & _ & _ & _ & _ & Hoff & Hcustom & Hindex & _).
  split; [apply Htext|]. split; [apply Htext|].
  unfold following_parameters in Hparams.
  destruct (hardware_parameters info !! "position_state_following_offset") as [text|].
  - unfold stod_or_throw in Hparams. destruct (stod text) as [x|]; [|discriminate].
    simpl in Hparams. rewrite Hoff, Hcustom.
    destruct (hardware_parameters info !! "custom_interface_with_following_offset");
      injection Hparams as <- <-; split; reflexivity.
  - injection Hparams as <- <-. rewrite Hoff, Hcustom, Hindex.
    split; [reflexivity|]. split; reflexivity.
Qed.

End Backend.

(** * Scenarios

    The model evaluated on the scenario inputs: each theorem above that has
    a premise is applied to a concrete backend, and each statement that
    does not survive the code is refuted on one. *)

Ltac decide_closed := apply (bool_decide_unpack _); vm_compute; exact I.

Lemma float_neq (a b : float) :
  (a =? b)%float = false → (b =? b)%float = true → a ≠ b.
Proof. intros Hab Hbb Heq. rewrite Heq, Hbb in Hab. discriminate Hab. Qed.

(** J1 and J2 (J2 mimicking J1 with multiplier -1.0) switched to velocity
    control, each with a velocity command of 2.0. *)
Abbreviation velocity_scenario :=
  (run scenario_standard_interfaces
     [call_prepare ["J1/velocity"; "J2/velocity"] []; call_perform [] [];
      call_write_command 0 "velocity" 2.0; call_write_command 1 "velocity" 2.0]
     (configured scenario_standard_interfaces scenario_stod 0 scenario_mimic)).

(** The same joints switched to position control, J1 with a gain command
    of 0.5. *)
Abbreviation position_scenario :=
  (run scenario_standard_interfaces
     [call_prepare ["J1/position"; "J2/position"] []; call_perform [] [];
      call_write_command 0 "gain" 0.5]
     (configured scenario_standard_interfaces scenario_stod 0 scenario_mimic)).

(** A single joint in position control, after cycles at 100 ms and 200 ms
    and a position command of 5.0. *)
Abbreviation moving_scenario :=
  (run scenario_standard_interfaces
     [call_prepare ["J1/position"] []; call_perform [] []; call_read 100000000;
      call_read 200000000; call_write_command 0 "position" 5.0]
     (configured scenario_standard_interfaces scenario_stod 0 scenario_single)).

(** A joint in position control whose custom interface is bound to its
    "gain" row, with a gain command of 5.0. *)
Abbreviation bound_scenario :=
  (run scenario_standard_interfaces
     [call_prepare ["J1/position"] []; call_perform [] [];
      call_write_command 0 "gain" 5.0]
     (configured scenario_standard_interfaces scenario_stod 0 scenario_bound_custom)).

Lemma scenario_standard_two : (2 ≤ length scenario_standard_interfaces)%nat.
Proof. simpl. lia. Qed.

Lemma scenario_running (info : HardwareInfo) (calls : list call) :
  (∃ s, configure scenario_standard_interfaces scenario_stod 0 info = Returns (OK, s)) →
  running scenario_standard_interfaces scenario_stod info
    (run scenario_standard_interfaces calls
       (configured scenario_standard_interfaces scenario_stod 0 info)).
Proof. apply run_running, scenario_standard_two. Qed.

(** ** Velocity control *)

(** The follower J2 of the velocity scenario: the velocity controller runs,
    propagation is enabled, its velocity command is 2.0 and 0.1 s elapse,
    but its position state after the cycle is -3.2 (minus the leader's),
    not 5.0 + 2.0 * 0.1, its velocity state is -2.0, and its position
    command (5.2) is not its position state. *)
Lemma read_velocity_follower_counterexample :
  running scenario_standard_interfaces scenario_stod scenario_mimic velocity_scenario
  ∧ velocity_controller_running_ velocity_scenario = true
  ∧ command_propagation_disabled_ velocity_scenario = false
  ∧ is_nan (cell (joint_commands_ velocity_scenario) VELOCITY_INTERFACE_INDEX 1) = false
  ∧ (0 <? elapsed 100000000 velocity_scenario)%float = true
  ∧ cell (joint_states_ (read scenario_standard_interfaces 100000000 velocity_scenario).2)
      POSITION_INTERFACE_INDEX 1
    ≠ cell (joint_states_ velocity_scenario) POSITION_INTERFACE_INDEX 1
      + cell (joint_commands_ velocity_scenario) VELOCITY_INTERFACE_INDEX 1
        * elapsed 100000000 velocity_scenario
  ∧ cell (joint_states_ (read scenario_standard_interfaces 100000000 velocity_scenario).2)
      VELOCITY_INTERFACE_INDEX 1
    ≠ cell (joint_commands_ velocity_scenario) VELOCITY_INTERFACE_INDEX 1
  ∧ cell (joint_commands_ (read scenario_standard_interfaces 100000000 velocity_scenario).2)
      POSITION_INTERFACE_INDEX 1
    ≠ cell (joint_states_ (read scenario_standard_interfaces 100000000 velocity_scenario).2)
        POSITION_INTERFACE_INDEX 1.
Proof.
  split; [apply scenario_running; eexists; vm_compute; reflexivity|].
  repeat split; try (vm_compute; reflexivity);
    apply float_neq; vm_compute; reflexivity.
Qed.

(** The leader J1 of the velocity scenario, through the theorem. *)
Lemma read_velocity_joint_witness :
  period_ (read scenario_standard_interfaces 100000000 velocity_scenario).2
  = elapsed 100000000 velocity_scenario
  ∧ cell (joint_states_ (read scenario_standard_interfaces 100000000 velocity_scenario).2)
      POSITION_INTERFACE_INDEX 0
    = cell (joint_states_ velocity_scenario) POSITION_INTERFACE_INDEX 0
      + cell (joint_commands_ velocity_scenario) VELOCITY_INTERFACE_INDEX 0
        * elapsed 100000000 velocity_scenario
  ∧ cell (joint_states_ (read scenario_standard_interfaces 100000000 velocity_scenario).2)
      VELOCITY_INTERFACE_INDEX 0
    = cell (joint_commands_ velocity_scenario) VELOCITY_INTERFACE_INDEX 0
  ∧ cell (joint_commands_ (read scenario_standard_interfaces 100000000 velocity_scenario).2)
      POSITION_INTERFACE_INDEX 0
    = cell (joint_states_ (read scenario_standard_interfaces 100000000 velocity_scenario).2)
        POSITION_INTERFACE_INDEX 0.
Proof.
  apply (read_velocity_joint scenario_standard_interfaces scenario_stod scenario_mimic).
  - apply scenario_running. eexists. vm_compute. reflexivity.
  - vm_compute. lia.
  - decide_closed.
  - vm_compute. reflexivity.
  - vm_compute. reflexivity.
  - vm_compute. reflexivity.
Defined.

(** The values of that cycle: 3.0 + 2.0 * 0.1 in binary64 arithmetic. *)
Example velocity_scenario_values :
  cell (joint_states_ (read scenario_standard_interfaces 100000000 velocity_scenario).2)
    POSITION_INTERFACE_INDEX 0 = 0x1.999999999999ap+1
  ∧ elapsed 100000000 velocity_scenario = 0x1.999999999999ap-4.
Proof. split; vm_compute; reflexivity. Qed.


(** ** A cycle without elapsed time *)

(** The joint of the moving scenario, read again at the time of its last
    cycle: the elapsed time is 0, the position controller runs, the
    position command 5.0 is set, and the velocity state, 0.0 before the
    cycle, is (5.0 - 0.0) / 0 = infinity after it: the derivation is not
    skipped. *)
Lemma read_zero_period_counterexample :
  running scenario_standard_interfaces scenario_stod scenario_single moving_scenario
  ∧ begin moving_scenario = 200000000%Z
  ∧ elapsed 200000000 moving_scenario = 0
  ∧ position_controller_running_ moving_scenario = true
  ∧ command_propagation_disabled_ moving_scenario = false
  ∧ cell (joint_commands_ moving_scenario) POSITION_INTERFACE_INDEX 0 = 5
  ∧ joint_pos_commands_old_ moving_scenario !!! 0%nat = 0
  ∧ cell (joint_states_ moving_scenario) VELOCITY_INTERFACE_INDEX 0 = 0
  ∧ cell (joint_states_ (read scenario_standard_interfaces 200000000 moving_scenario).2)
      VELOCITY_INTERFACE_INDEX 0 = infinity.
Proof.
  split; [apply scenario_running; eexists; vm_compute; reflexivity|].
  repeat split; vm_compute; reflexivity.
Qed.

Lemma read_velocity_derivation_unguarded_witness :
  cell (joint_states_ (read scenario_standard_interfaces 200000000 moving_scenario).2)
    VELOCITY_INTERFACE_INDEX 0
  = (cell (joint_commands_ moving_scenario) POSITION_INTERFACE_INDEX 0
     - joint_pos_commands_old_ moving_scenario !!! 0%nat)
    / elapsed 200000000 moving_scenario
  ∧ cell (joint_states_ (read scenario_standard_interfaces 200000000 moving_scenario).2)
      POSITION_INTERFACE_INDEX 0
    = cell (joint_commands_ moving_scenario) POSITION_INTERFACE_INDEX 0
      + position_offset moving_scenario
  ∧ joint_pos_commands_old_
      (read scenario_standard_interfaces 200000000 moving_scenario).2 !!! 0%nat
    = cell (joint_commands_ moving_scenario) POSITION_INTERFACE_INDEX 0
  ∧ elapsed (begin moving_scenario) moving_scenario = 0.
Proof.
  apply (read_velocity_derivation_unguarded scenario_standard_interfaces scenario_stod
           scenario_single).
  - apply scenario_running. eexists. vm_compute. reflexivity.
  - vm_compute. lia.
  - decide_closed.
  - vm_compute. reflexivity.
  - vm_compute. reflexivity.
  - vm_compute. reflexivity.
Defined.

(** ** Position control *)

(** The follower J2 of the position scenario: the position controller runs,
    propagation is enabled, its position command 5.0 is set and no offset
    is configured, but its position state after the cycle is -3.0 (minus
    the leader's), not 5.0. *)
Lemma read_position_follower_counterexample :
  running scenario_standard_interfaces scenario_stod scenario_mimic position_scenario
  ∧ position_controller_running_ position_scenario = true
  ∧ command_propagation_disabled_ position_scenario = false
  ∧ is_nan (cell (joint_commands_ position_scenario) POSITION_INTERFACE_INDEX 1) = false
  ∧ custom_interface_with_following_offset_ position_scenario = ""
  ∧ cell (joint_states_ (read scenario_standard_interfaces 100000000 position_scenario).2)
      POSITION_INTERFACE_INDEX 1
    ≠ cell (joint_commands_ position_scenario) POSITION_INTERFACE_INDEX 1
      + position_state_following_offset_ position_scenario.
Proof.
  split; [apply scenario_running; eexists; vm_compute; reflexivity|].
  repeat split; try (vm_compute; reflexivity).
  apply float_neq; vm_compute; reflexivity.
Qed.

(** The joint of the bound scenario: its position state is its command
    3.0 with no offset, and the state of the bound "gain" row is
    3.0 + 0.5 rather than the gain command 5.0. *)
Lemma read_position_joint_witness :
  cell (joint_states_ (read scenario_standard_interfaces 100000000 bound_scenario).2)
    POSITION_INTERFACE_INDEX 0 = 3 + 0
  ∧ custom_interface_with_following_offset_ bound_scenario ≠ ""
  ∧ cell (other_states_ (read scenario_standard_interfaces 100000000 bound_scenario).2) 0 0
    = 3 + 0.5.
Proof.
  destruct (read_position_joint scenario_standard_interfaces scenario_stod
              scenario_bound_custom bound_scenario 100000000 0)
    as (Hposition & Hbinding & Hbound).
  - apply scenario_running. eexists. vm_compute. reflexivity.
  - vm_compute. lia.
  - split; [|split].
    + destruct Hposition as [Hstate _].
      * decide_closed.
      * vm_compute. reflexivity.
      * vm_compute. reflexivity.
      * vm_compute. reflexivity.
      * rewrite Hstate. vm_compute. reflexivity.
    + apply Hbinding. vm_compute. discriminate.
    + rewrite (Hbound 0%nat).
      * vm_compute. reflexivity.
      * vm_compute. lia.
      * vm_compute. reflexivity.
Defined.

(** ** Mimic coupling *)

(** The relation of the mimic scenario. *)
Abbreviation scenario_relation :=
  {| joint_index := 1; mimicked_joint_index := 0; multiplier := -1 |}.

(** The "gain" row of the position scenario: after the cycle the follower's
    state (5.0) is not the multiplier times the leader's (0.5). *)
Lemma read_mimic_other_row_counterexample :
  running scenario_standard_interfaces scenario_stod scenario_mimic position_scenario
  ∧ mimic_joints_ position_scenario = [scenario_relation]
  ∧ other_interfaces_ position_scenario = ["gain"]
  ∧ cell (other_states_ (read scenario_standard_interfaces 100000000 position_scenario).2)
      0 (joint_index scenario_relation)
    ≠ multiplier scenario_relation
      * cell (other_states_ (read scenario_standard_interfaces 100000000 position_scenario).2)
          0 (mimicked_joint_index scenario_relation).
Proof.
  split; [apply scenario_running; eexists; vm_compute; reflexivity|].
  repeat split; try (vm_compute; reflexivity).
  apply float_neq; vm_compute; reflexivity.
Qed.

Lemma read_mimic_law_witness :
  (∀ i, (i < length scenario_standard_interfaces)%nat →
     cell (joint_states_ (read scenario_standard_interfaces 100000000 position_scenario).2)
       i (joint_index scenario_relation)
     = multiplier scenario_relation
       * cell (joint_states_ (read scenario_standard_interfaces 100000000 position_scenario).2)
           i (mimicked_joint_index scenario_relation))
  ∧ joint_states_ (read scenario_standard_interfaces 100000000 position_scenario).2
    = read_mimic (mimic_joints_ position_scenario)
        (read_propagate scenario_standard_interfaces position_scenario
           (elapsed 100000000 position_scenario)).1
  ∧ other_states_ (read scenario_standard_interfaces 100000000 position_scenario).2
    = read_other position_scenario
        (joint_commands_ (read scenario_standard_interfaces 100000000 position_scenario).2)
        (other_states_ position_scenario).
Proof.
  apply (read_mimic_law scenario_standard_interfaces scenario_stod scenario_mimic).
  - apply scenario_running. eexists. vm_compute. reflexivity.
  - vm_compute. apply list_elem_of_here.
  - intros _. vm_compute. lia.
Defined.


(** ** Storage after configuration *)



(** ** The mode gate *)

(** Two requests that name J1 only, a proper part of the group of two
    joints, and for which prepare returns OK.  The first holds the position
    interface of J1 twice: the check counts the matches, and two matches
    equal the number of joints.  The second holds the "gain" command
    interface of J1, which J1 declares, and no interface of J2: prepare
    compares the names with the position and velocity interfaces only, so
    this request collects no mode. *)
Lemma prepare_partial_group_counterexample :
  joints (info_ (configured scenario_standard_interfaces scenario_stod 0 scenario_mimic))
  = joints scenario_mimic
  ∧ names_partial_group (joints scenario_mimic) ["J1/position"; "J1/position"]
  ∧ (prepare_command_mode_switch ["J1/position"; "J1/position"] []
       (configured scenario_standard_interfaces scenario_stod 0 scenario_mimic)).1 = OK
  ∧ (∃ joint, joint ∈ joints scenario_mimic
       ∧ "gain" ∈ declared_commands joint
       ∧ (name joint +:+ "/") +:+ "gain" ∈ ["J1/gain"])
  ∧ (∃ joint, joint ∈ joints scenario_mimic
       ∧ ∀ interface, (name joint +:+ "/") +:+ interface ∉ ["J1/gain"])
  ∧ (prepare_command_mode_switch ["J1/gain"] []
       (configured scenario_standard_interfaces scenario_stod 0 scenario_mimic)).1 = OK.
Proof.
  split; [vm_compute; reflexivity|].
  split; [|split; [vm_compute; reflexivity|split; [|split; [|vm_compute; reflexivity]]]].
  - split.
    + exists (joints scenario_mimic !!! 0%nat).
      split; [apply list_elem_of_lookup_total_2; vm_compute; lia|].
      left. decide_closed.
    + exists (joints scenario_mimic !!! 1%nat).
      split; [apply list_elem_of_lookup_total_2; vm_compute; lia|].
      unfold joint_named. decide_closed.
  - exists (joints scenario_mimic !!! 0%nat).
    split; [apply list_elem_of_lookup_total_2; vm_compute; lia|].
    split; decide_closed.
  - exists (joints scenario_mimic !!! 1%nat).
    split; [apply list_elem_of_lookup_total_2; vm_compute; lia|].
    intros interface Hin. apply list_elem_of_singleton in Hin.
    vm_compute in Hin. discriminate Hin.
Qed.

(** On the same scenario: a request that mixes the modes is rejected
    although it holds a name twice; requests that name J1 only, once, are
    rejected as start and as stop request; and the position flag stays. *)
Lemma prepare_command_mode_switch_validates_witness :
  (prepare_command_mode_switch ["J1/position"; "J2/velocity"; "J1/position"] []
     (configured scenario_standard_interfaces scenario_stod 0 scenario_mimic)).1 = ERROR
  ∧ (prepare_command_mode_switch ["J1/position"] []
       (configured scenario_standard_interfaces scenario_stod 0 scenario_mimic)).1 = ERROR
  ∧ (prepare_command_mode_switch [] ["J1/velocity"]
       (configured scenario_standard_interfaces scenario_stod 0 scenario_mimic)).1 = ERROR
  ∧ position_controller_running_
      (prepare_command_mode_switch ["J1/position"] []
         (configured scenario_standard_interfaces scenario_stod 0 scenario_mimic)).2
    = position_controller_running_
        (configured scenario_standard_interfaces scenario_stod 0 scenario_mimic).
Proof.
  assert (Hfirst : joints scenario_mimic !!! 0%nat ∈ joints scenario_mimic)
    by (apply list_elem_of_lookup_total_2; vm_compute; lia).
  assert (Hsecond : joints scenario_mimic !!! 1%nat ∈ joints scenario_mimic)
    by (apply list_elem_of_lookup_total_2; vm_compute; lia).
  assert (Hinfo :
      joints (info_ (configured scenario_standard_interfaces scenario_stod 0
                       scenario_mimic)) = joints scenario_mimic)
    by (vm_compute; reflexivity).
  split; [|split; [|split]].
  - destruct (prepare_command_mode_switch_validates
                ["J1/position"; "J2/velocity"; "J1/position"] []
                (configured scenario_standard_interfaces scenario_stod 0 scenario_mimic))
      as (Hmixed & _).
    apply Hmixed. rewrite Hinfo. split.
    + exists (joints scenario_mimic !!! 0%nat). split; [exact Hfirst|decide_closed].
    + exists (joints scenario_mimic !!! 1%nat). split; [exact Hsecond|decide_closed].
  - destruct (prepare_command_mode_switch_validates ["J1/position"] []
                (configured scenario_standard_interfaces scenario_stod 0 scenario_mimic))
      as (_ & Hstart & _).
    apply Hstart; [decide_closed|]. rewrite Hinfo. split.
    + exists (joints scenario_mimic !!! 0%nat).
      split; [exact Hfirst|]. left. decide_closed.
    + exists (joints scenario_mimic !!! 1%nat).
      split; [exact Hsecond|]. unfold joint_named. decide_closed.
  - destruct (prepare_command_mode_switch_validates [] ["J1/velocity"]
                (configured scenario_standard_interfaces scenario_stod 0 scenario_mimic))
      as (_ & _ & Hstop & _).
    apply Hstop; [decide_closed|]. rewrite Hinfo. split.
    + exists (joints scenario_mimic !!! 0%nat).
      split; [exact Hfirst|]. right. decide_closed.
    + exists (joints scenario_mimic !!! 1%nat).
      split; [exact Hsecond|]. unfold joint_named. decide_closed.
  - destruct (prepare_command_mode_switch_validates ["J1/position"] []
                (configured scenario_standard_interfaces scenario_stod 0 scenario_mimic))
      as (_ & _ & _ & Hposition & _).
    exact Hposition.
Defined.

(** After configuration the start modes hold position: perform copies the
    position states 3.0 and 5.0 into the position commands. *)
Lemma perform_command_mode_switch_spec_witness :
  position_controller_running_
    (perform_command_mode_switch [] []
       (configured scenario_standard_interfaces scenario_stod 0 scenario_mimic)).2 = true
  ∧ velocity_controller_running_
      (perform_command_mode_switch [] []
         (configured scenario_standard_interfaces scenario_stod 0 scenario_mimic)).2 = false
  ∧ cell (joint_commands_
            (perform_command_mode_switch [] []
               (configured scenario_standard_interfaces scenario_stod 0 scenario_mimic)).2)
      POSITION_INTERFACE_INDEX 1 = 5.
Proof.
  destruct (perform_command_mode_switch_spec scenario_standard_interfaces scenario_stod
              scenario_mimic [] []
              (run scenario_standard_interfaces []
                 (configured scenario_standard_interfaces scenario_stod 0 scenario_mimic)))
    as (_ & _ & _ & Hmode).
  - apply scenario_running. eexists. vm_compute. reflexivity.
  - change (run scenario_standard_interfaces []
              (configured scenario_standard_interfaces scenario_stod 0 scenario_mimic))
      with (configured scenario_standard_interfaces scenario_stod 0 scenario_mimic)
      in Hmode.
    assert (Hcontains :
      contains (start_modes_
                  (configured scenario_standard_interfaces scenario_stod 0 scenario_mimic))
        HW_IF_POSITION = true) by (vm_compute; reflexivity).
    rewrite Hcontains in Hmode. destruct Hmode as (Hposition & Hvelocity & Hcells).
    split; [exact Hposition|]. split; [exact Hvelocity|].
    rewrite (Hcells 1%nat) by (vm_compute; lia). vm_compute. reflexivity.
Defined.

(** ** A custom interface that no joint declares *)

Lemma configure_absent_custom_interface_witness :
  ∃ s, configure scenario_standard_interfaces scenario_stod 0 scenario_absent_custom
       = Returns (OK, s)
    ∧ index_custom_interface_with_following_offset_ s = SIZE_MAX
    ∧ (is_Some (hardware_parameters scenario_absent_custom
                 !! "position_state_following_offset") →
       custom_interface_with_following_offset_ s = "actual_position")
    ∧ ∀ s' now' j,
        operates scenario_standard_interfaces s s' →
        (j < length (joints scenario_absent_custom))%nat →
        position_offset s' = 0
        ∧ (j ∉ followers s' →
           position_controller_running_ s' = true →
           command_propagation_disabled_ s' = false →
           is_nan (cell (joint_commands_ s') POSITION_INTERFACE_INDEX j) = false →
           cell (joint_states_ (read scenario_standard_interfaces now' s').2)
             POSITION_INTERFACE_INDEX j
           = cell (joint_commands_ s') POSITION_INTERFACE_INDEX j + 0)
        ∧ ∀ i, (i < length (other_interfaces_ s'))%nat →
            cell (other_states_ (read scenario_standard_interfaces now' s').2) i j
            = if is_nan (cell (other_commands_ s') i j)
              then cell (other_states_ s') i j
              else cell (other_commands_ s') i j.
Proof.
  apply (configure_absent_custom_interface scenario_standard_interfaces scenario_stod 0
           scenario_absent_custom "actual_position"
           (configured scenario_standard_interfaces scenario_stod 0
              (without_custom_interface scenario_absent_custom))).
  - apply scenario_standard_two.
  - vm_compute. reflexivity.
  - discriminate.
  - decide_closed.
  - vm_compute. discriminate.
  - vm_compute. reflexivity.
Defined.
(** * The double-buffered controller list *)

Module RTControllerListWrapperFacts.
Import RTControllerListWrapper.

Lemma get_other_list_differs (index : Z) :
  (index = 0 ∨ index = 1)%Z →
  get_other_list index ≠ index
  ∧ get_other_list index ≠ (-1)%Z
  ∧ (get_other_list index = 0 ∨ get_other_list index = 1)%Z.
Proof.
  unfold get_other_list. intros [->| ->]; repeat split; (discriminate || auto).
Qed.

(** Every step of either thread keeps the relation between the indices and
    what the threads hold. *)
Lemma step_consistent {ControllerSpec : Type} (st st' : system ControllerSpec)
    (e : event) :
  step st e st' → consistent st → consistent st'.
Proof.
  intros Hstep (Hupd & Hrt & Hheld & Hused & Hloaded).
  destruct (get_other_list_differs _ Hupd) as (Hne & Hunset & Hother).
  destruct Hstep as [st Hr|st index Hr|st Hr|st index Huses|st Hw|st index Hw Hu
                     |st index Hw Hu|st index controllers Hw|st Hw|st Hw Hu|st Hw Hu];
    unfold consistent; simpl.
  - (* the index is read *)
    split; [exact Hupd|]. split; [exact Hrt|]. split; [exact Hheld|].
    split; [exact Hused|]. intros _ index [= <-]. reflexivity.
  - (* the index is written *)
    split; [exact Hupd|]. split; [intros i Hi; discriminate Hi|].
    split; [exact Hheld|]. split.
    + intros Hw. right. apply Hloaded; [left; exact Hw|exact Hr].
    + intros _ i Hi. discriminate Hi.
  - (* the list is returned *)
    split; [exact Hupd|]. split; [intros i [= <-]; reflexivity|].
    split; [exact Hheld|]. split; [exact Hused|]. intros _ i Hi. discriminate Hi.
  - (* the real-time thread reads its list *)
    split; [exact Hupd|]. split; [exact Hrt|]. split; [exact Hheld|].
    split; [exact Hused|exact Hloaded].
  - (* get_unused_list is called *)
    split; [exact Hupd|]. split; [exact Hrt|]. split.
    + intros i [[= <-]|Hi]; [reflexivity|discriminate Hi].
    + split.
      * intros _. apply Hused. rewrite Hw. discriminate.
      * intros _. apply Hloaded. left. rewrite Hw. discriminate.
  - (* get_unused_list sleeps *)
    split; [exact Hupd|]. split; [exact Hrt|]. split; [exact Hheld|].
    split; [exact Hused|exact Hloaded].
  - (* get_unused_list returns *)
    split; [exact Hupd|]. split; [exact Hrt|]. split.
    + intros i [Hi|[= <-]]; [discriminate Hi|]. apply Hheld. left. exact Hw.
    + split.
      * intros _. apply Hused. rewrite Hw. discriminate.
      * intros _. apply Hloaded. left. rewrite Hw. discriminate.
  - (* the writer modifies its list *)
    split; [exact Hupd|]. split; [exact Hrt|]. split; [exact Hheld|].
    split; [exact Hused|exact Hloaded].
  - (* switch_updated_list flips the index *)
    assert (Hnot : writer st ≠ writer_switching).
    { destruct Hw as [Hw|[i Hw]]; rewrite Hw; discriminate. }
    split; [exact Hother|]. split; [exact Hrt|].
    split; [intros i [Hi|Hi]; discriminate Hi|].
    split; [intros Hw'; exfalso; apply Hw'; reflexivity|].
    intros [Hw'|Hnew]; [exfalso; apply Hw'; reflexivity|].
    exfalso. destruct (Hused Hnot) as [Hu|Hu]; congruence.
  - (* switch_updated_list sleeps *)
    split; [exact Hupd|]. split; [exact Hrt|]. split; [exact Hheld|].
    split; [exact Hused|exact Hloaded].
  - (* switch_updated_list returns *)
    split; [exact Hupd|]. split; [exact Hrt|].
    split; [intros i [Hi|Hi]; discriminate Hi|].
    split; [intros _; right; exact Hu|].
    intros _. apply Hloaded. right. exact Hu.
Qed.

Lemma reachable_consistent {ControllerSpec : Type} (st : system ControllerSpec) :
  reachable st → consistent st.
Proof.
  induction 1 as [|st e st' _ IH Hstep].
  - unfold consistent, initial. simpl. split; [left; reflexivity|].
    split; [intros i Hi; discriminate Hi|].
    split; [intros i [Hi|Hi]; discriminate Hi|].
    split; [intros _; left; reflexivity|]. intros _ i Hi. discriminate Hi.
  - eapply step_consistent; eassumption.
Qed.

(** While the writer holds a list for modification, the real-time thread
    uses another one. *)
Lemma editing_not_used {ControllerSpec : Type} (st : system ControllerSpec)
    (index : Z) :
  consistent st → writer st = writer_editing index → rt_uses st ≠ Some index.
Proof.
  intros (Hupd & Hrt & Hheld & Hused & _) Hw Huses.
  destruct (get_other_list_differs _ Hupd) as (Hne & Hunset & _).
  pose proof (Hheld index (or_intror Hw)) as Hindex.
  apply Hrt in Huses.
  destruct Hused as [Hu|Hu]; [rewrite Hw; discriminate|congruence|congruence].
Qed.


(** The real-time thread, in the given phase of its accessor, and the
    writer, in the given phase, with the given used index and list in
    use; list 0 is the updated one. *)
Abbreviation on_list_0 used phase uses held :=
  {| wrapper := {| controllers_lists_ := [[]; []] : list (list string);
                   updated_controllers_index_ := 0;
                   used_by_realtime_controllers_index_ := used |};
     reader := phase;
     rt_uses := uses;
     writer := held |}.


(** The state in which the second list has the given content, the indices
    have the given values, and the two threads are in the given phases. *)
Abbreviation threads second updated used phase uses held :=
  {| wrapper := {| controllers_lists_ := [[]; second] : list (list string);
                   updated_controllers_index_ := updated;
                   used_by_realtime_controllers_index_ := used |};
     reader := phase;
     rt_uses := uses;
     writer := held |}.

(** The real-time thread read the updated index 0 and was overtaken: the
    writer filled list 1 and flipped the updated index to 1. *)
Abbreviation overtaken :=
  (threads ["joint_trajectory_controller"] 1%Z (-1)%Z (reader_loaded 0) None
     writer_switching).

(** The interleaving in which the real-time thread is overtaken between its
    index read and its index write is reached, and there the writer is held
    inside [switch_updated_list]: its only steps are to sleep, so it gets no
    list to modify before the real-time thread has written an index and
    taken the new updated list. *)
Lemma overtaken_reader_holds_writer :
  reachable overtaken
  ∧ ∀ e st', step overtaken e st' →
      writer st' = writer_switching ∧ e ≠ writer_mutates 0 ∧ e ≠ writer_mutates 1.
Proof.
  split.
  - assert (H1 : reachable (threads [] 0%Z (-1)%Z (reader_loaded 0) None writer_idle)).
    { exact (reachable_step initial silent _ reachable_initial
               (step_rt_load initial eq_refl)). }
    assert (H2 : reachable
              (threads [] 0%Z (-1)%Z (reader_loaded 0) None (writer_waiting 1))).
    { exact (reachable_step _ silent _ H1
               (step_get_unused_list_call
                  (threads [] 0%Z (-1)%Z (reader_loaded 0) None writer_idle) eq_refl)). }
    assert (H3 : reachable
              (threads [] 0%Z (-1)%Z (reader_loaded 0) None (writer_editing 1))).
    { refine (reachable_step _ silent _ H2
                (step_get_unused_list_return
                   (threads [] 0%Z (-1)%Z (reader_loaded 0) None (writer_waiting 1))
                   1 eq_refl _)).
      simpl. discriminate. }
    assert (H4 : reachable
              (threads ["joint_trajectory_controller"] 0%Z (-1)%Z (reader_loaded 0)
                 None (writer_editing 1))).
    { exact (reachable_step _ (writer_mutates 1) _ H3
               (step_writer_edit
                  (threads [] 0%Z (-1)%Z (reader_loaded 0) None (writer_editing 1))
                  1 ["joint_trajectory_controller"] eq_refl)). }
    refine (reachable_step _ silent _ H4
              (step_switch_updated_list
                 (threads ["joint_trajectory_controller"] 0%Z (-1)%Z (reader_loaded 0)
                    None (writer_editing 1)) _)).
    right. exists 1%Z. reflexivity.
  - intros e st' Hstep.
    inversion Hstep as [st Hr|st index Hr|st Hr|st index Huses|st Hw|st index Hw Hu
                        |st index Hw Hu|st index controllers Hw|st Hw|st Hw Hu|st Hw Hu];
      subst; simpl in *;
      try discriminate;
      repeat split; discriminate.
Qed.

End RTControllerListWrapperFacts.

(** * Further scenarios *)

(** J1 and J2 right after [configure]: no controller runs. *)
Abbreviation idle_scenario :=
  (configured scenario_standard_interfaces scenario_stod 0 scenario_mimic).

(** The two joints and two sensors right after [configure]. *)
Abbreviation sensors_configured :=
  (configured scenario_standard_interfaces scenario_stod 0 scenario_sensors).

(** The same backend with an effort command of 5.0 for J1. *)
Abbreviation effort_scenario :=
  (run scenario_standard_interfaces [call_write_command 0 "effort" 5.0]
     (configured scenario_standard_interfaces scenario_stod 0 scenario_sensors)).

(** The same backend with a fake command of 5.0 for the force of S1. *)
Abbreviation fake_force_scenario :=
  (write_fake_sensor_command 0 "force" 5.0
     (configured scenario_standard_interfaces scenario_stod 0 scenario_sensors)).

(** One joint and two sensors without fake sensor commands, right after
    [configure], and after two cycles, a switch and a write. *)
Abbreviation two_sensors_configured :=
  (configured scenario_standard_interfaces scenario_stod 0 scenario_two_sensors).

Abbreviation two_sensors_later :=
  (run scenario_standard_interfaces
     [call_read 100000000; call_prepare ["J1/position"] []; call_perform [] [];
      call_write_command 0 "position" 5.0; call_read 200000000]
     (configured scenario_standard_interfaces scenario_stod 0 scenario_two_sensors)).

(** J1 and J2 after a switch to position control, and to velocity
    control. *)
Abbreviation held_scenario :=
  (perform_command_mode_switch ["J1/position"; "J2/position"] []
     (prepare_command_mode_switch ["J1/position"; "J2/position"] []
        (configured scenario_standard_interfaces scenario_stod 0 scenario_mimic)).2).2.

Abbreviation stopped_scenario :=
  (perform_command_mode_switch ["J1/velocity"; "J2/velocity"] []
     (prepare_command_mode_switch ["J1/velocity"; "J2/velocity"] []
        (configured scenario_standard_interfaces scenario_stod 0 scenario_mimic)).2).2.

Lemma scenario_configured (info : HardwareInfo) :
  (∃ s, configure scenario_standard_interfaces scenario_stod 0 info = Returns (OK, s)) →
  running scenario_standard_interfaces scenario_stod info
    (configured scenario_standard_interfaces scenario_stod 0 info).
Proof. apply (scenario_running info []). Qed.

Lemma fake_force_running :
  running scenario_standard_interfaces scenario_stod scenario_sensors fake_force_scenario.
Proof.
  eapply running_operation.
  - apply scenario_configured. eexists. vm_compute. reflexivity.
  - apply (op_write_fake_sensor_command scenario_standard_interfaces 0
             (sensors scenario_sensors !!! 0%nat) "force" 5.0).
    + vm_compute. reflexivity.
    + vm_compute. reflexivity.
    + decide_closed.
Qed.

(** ** Cycles *)

Lemma read_without_propagation_witness :
  (∀ i, cell (joint_commands_
               (read scenario_standard_interfaces 100000000 idle_scenario).2) i 0
        = cell (joint_commands_ idle_scenario) i 0)
  ∧ (0%nat ∉ followers idle_scenario →
     ∀ i, (i < 2)%nat →
       cell (joint_states_
               (read scenario_standard_interfaces 100000000 idle_scenario).2) i 0
       = cell (joint_states_ idle_scenario) i 0).
Proof.
  apply (read_without_propagation scenario_standard_interfaces scenario_stod
           scenario_mimic).
  - apply scenario_configured. eexists. vm_compute. reflexivity.
  - vm_compute. lia.
  - right. split; vm_compute; reflexivity.
Defined.

(** J1's effort command 5.0 becomes its effort state although no controller
    runs. *)
Lemma read_loopback_rows_witness :
  cell (joint_states_ (read scenario_standard_interfaces 100000000 effort_scenario).2) 3 0
  = (if is_nan (cell (joint_commands_ effort_scenario) 3 0)
     then cell (joint_states_ effort_scenario) 3 0
     else cell (joint_commands_ effort_scenario) 3 0)
  ∧ cell (joint_commands_ (read scenario_standard_interfaces 100000000 effort_scenario).2)
      3 0
    = cell (joint_commands_ effort_scenario) 3 0.
Proof.
  apply (read_loopback_rows scenario_standard_interfaces scenario_stod scenario_sensors).
  - apply scenario_running. eexists. vm_compute. reflexivity.
  - vm_compute. lia.
  - vm_compute. lia.
  - decide_closed.
Defined.

Example effort_scenario_values :
  position_controller_running_ effort_scenario = false
  ∧ velocity_controller_running_ effort_scenario = false
  ∧ cell (joint_states_ effort_scenario) 3 0 = 0
  ∧ cell (joint_states_ (read scenario_standard_interfaces 100000000 effort_scenario).2)
      3 0 = 5.
Proof. repeat split; vm_compute; reflexivity. Qed.

Lemma read_sensor_loopback_witness :
  sensor_fake_commands_ (read scenario_standard_interfaces 100000000 fake_force_scenario).2
  = sensor_fake_commands_ fake_force_scenario
  ∧ (fake_sensor_command_interfaces_ fake_force_scenario = false →
     sensor_states_ (read scenario_standard_interfaces 100000000 fake_force_scenario).2
     = sensor_states_ fake_force_scenario)
  ∧ (fake_sensor_command_interfaces_ fake_force_scenario = true →
     ∀ i j, (i < length (sensor_interfaces_ fake_force_scenario))%nat →
       (j < length (joints scenario_sensors))%nat →
       cell (sensor_states_
               (read scenario_standard_interfaces 100000000 fake_force_scenario).2) i j
       = if is_nan (cell (sensor_fake_commands_ fake_force_scenario) i j)
         then cell (sensor_states_ fake_force_scenario) i j
         else cell (sensor_fake_commands_ fake_force_scenario) i j).
Proof.
  apply (read_sensor_loopback scenario_standard_interfaces scenario_stod scenario_sensors).
  apply fake_force_running.
Defined.

(** The force of S1 was 3.0, the initial value that the joint J1 gives
    under the name "force"; the cycle replaces it by the fake command. *)
Example fake_force_scenario_values :
  cell (sensor_states_ fake_force_scenario) 0 0 = 3
  ∧ cell (sensor_states_
            (read scenario_standard_interfaces 100000000 fake_force_scenario).2) 0 0 = 5.
Proof. split; vm_compute; reflexivity. Qed.

Lemma sensors_frozen_without_fake_commands_witness :
  sensor_states_ two_sensors_later = sensor_states_ two_sensors_configured
  ∧ sensor_fake_commands_ two_sensors_later = sensor_fake_commands_ two_sensors_configured.
Proof.
  apply (sensors_frozen_without_fake_commands scenario_standard_interfaces).
  - apply run_operates.
  - vm_compute. reflexivity.
Defined.

(** Cycles at 0.6 ms and 1.2 ms after [configure]: both see no time pass. *)
Lemma read_sub_millisecond_witness :
  elapsed 600000
    (configured scenario_standard_interfaces scenario_stod 0 scenario_single) = 0
  ∧ period_
      (read scenario_standard_interfaces 600000
         (configured scenario_standard_interfaces scenario_stod 0 scenario_single)).2 = 0
  ∧ begin
      (read scenario_standard_interfaces 600000
         (configured scenario_standard_interfaces scenario_stod 0 scenario_single)).2
    = 600000%Z
  ∧ elapsed 1200000
      (read scenario_standard_interfaces 600000
         (configured scenario_standard_interfaces scenario_stod 0 scenario_single)).2 = 0.
Proof.
  apply (read_sub_millisecond scenario_standard_interfaces).
  - vm_compute. reflexivity.
  - vm_compute. reflexivity.
Defined.

(** ** The mode gate *)

Lemma prepare_command_mode_switch_verdict_witness :
  (prepare_command_mode_switch ["J1/position"; "J2/position"] [] idle_scenario).1 = OK
  ↔ (¬ mixes_modes (joints (info_ idle_scenario)) ["J1/position"; "J2/position"])
    ∧ (¬ names_partial_group (joints (info_ idle_scenario)) ["J1/position"; "J2/position"])
    ∧ (¬ mixes_modes (joints (info_ idle_scenario)) [])
    ∧ ¬ names_partial_group (joints (info_ idle_scenario)) [].
Proof.
  apply prepare_command_mode_switch_verdict.
  - decide_closed.
  - decide_closed.
Defined.

(** A request that mixes the modes is rejected by prepare, and still
    switches to position control when performed. *)
Example perform_after_rejected_prepare :
  (prepare_command_mode_switch ["J1/position"; "J2/velocity"] [] idle_scenario).1 = ERROR
  ∧ position_controller_running_
      (perform_command_mode_switch [] []
         (prepare_command_mode_switch ["J1/position"; "J2/velocity"] []
            idle_scenario).2).2 = true.
Proof. split; vm_compute; reflexivity. Qed.

Lemma switch_to_position_holds_witness :
  cell (joint_commands_ held_scenario) POSITION_INTERFACE_INDEX 0
  = cell (joint_states_ idle_scenario) POSITION_INTERFACE_INDEX 0
  ∧ cell (joint_states_ (read scenario_standard_interfaces 100000000 held_scenario).2)
      POSITION_INTERFACE_INDEX 0
    = cell (joint_states_ idle_scenario) POSITION_INTERFACE_INDEX 0
      + position_offset idle_scenario
  ∧ cell (joint_commands_ (read scenario_standard_interfaces 100000000 held_scenario).2)
      POSITION_INTERFACE_INDEX 0
    = cell (joint_states_ idle_scenario) POSITION_INTERFACE_INDEX 0.
Proof.
  apply (switch_to_position_holds scenario_standard_interfaces scenario_stod
           scenario_mimic).
  - apply scenario_configured. eexists. vm_compute. reflexivity.
  - vm_compute. lia.
  - decide_closed.
  - rewrite <- Exists_exists. decide_closed.
  - vm_compute. reflexivity.
  - vm_compute. reflexivity.
Defined.

Lemma switch_to_velocity_stops_witness :
  cell (joint_commands_ stopped_scenario) VELOCITY_INTERFACE_INDEX 0 = 0
  ∧ cell (joint_states_ (read scenario_standard_interfaces 100000000 stopped_scenario).2)
      VELOCITY_INTERFACE_INDEX 0 = 0
  ∧ cell (joint_states_ (read scenario_standard_interfaces 100000000 stopped_scenario).2)
      POSITION_INTERFACE_INDEX 0
    = cell (joint_states_ idle_scenario) POSITION_INTERFACE_INDEX 0
      + 0 * elapsed 100000000 stopped_scenario
  ∧ cell (joint_commands_ (read scenario_standard_interfaces 100000000 stopped_scenario).2)
      POSITION_INTERFACE_INDEX 0
    = cell (joint_states_ (read scenario_standard_interfaces 100000000 stopped_scenario).2)
        POSITION_INTERFACE_INDEX 0.
Proof.
  apply (switch_to_velocity_stops scenario_standard_interfaces scenario_stod
           scenario_mimic).
  - apply scenario_configured. eexists. vm_compute. reflexivity.
  - vm_compute. lia.
  - decide_closed.
  - rewrite <- Exists_exists. decide_closed.
  - rewrite <- Exists_exists. decide_closed.
  - vm_compute. reflexivity.
Defined.

Lemma perform_without_prepare_witness :
  position_controller_running_ (perform_command_mode_switch [] [] idle_scenario).2 = true
  ∧ velocity_controller_running_ (perform_command_mode_switch [] [] idle_scenario).2
    = false
  ∧ ∀ j, (j < length (joints scenario_mimic))%nat →
      cell (joint_commands_ (perform_command_mode_switch [] [] idle_scenario).2)
        POSITION_INTERFACE_INDEX j
      = cell (joint_states_ idle_scenario) POSITION_INTERFACE_INDEX j.
Proof.
  apply (perform_without_prepare scenario_standard_interfaces scenario_stod 0).
  - apply scenario_standard_two.
  - vm_compute. reflexivity.
Defined.

(** ** Writes *)

Lemma write_command_slot_witness :
  command_slot scenario_standard_interfaces
    (write_command scenario_standard_interfaces 0 "gain" 0.5 idle_scenario) 0 "gain"
  = Some 0.5
  ∧ (∀ i' interface', (i', interface') ≠ (0%nat, "gain") →
       command_slot scenario_standard_interfaces
         (write_command scenario_standard_interfaces 0 "gain" 0.5 idle_scenario)
         i' interface'
       = command_slot scenario_standard_interfaces idle_scenario i' interface')
  ∧ (∀ i' interface',
       state_slot scenario_standard_interfaces
         (write_command scenario_standard_interfaces 0 "gain" 0.5 idle_scenario)
         i' interface'
       = state_slot scenario_standard_interfaces idle_scenario i' interface').
Proof.
  apply (write_command_slot scenario_standard_interfaces scenario_stod scenario_mimic
           idle_scenario 0 (joints scenario_mimic !!! 0%nat)).
  - apply scenario_configured. eexists. vm_compute. reflexivity.
  - vm_compute. reflexivity.
  - decide_closed.
Defined.

Lemma write_command_read_other_witness :
  ∃ row, index_of (other_interfaces_ idle_scenario) "gain" = Some row
    ∧ state_slot scenario_standard_interfaces
        (read scenario_standard_interfaces 100000000
           (write_command scenario_standard_interfaces 0 "gain" 0.5 idle_scenario)).2
        0 "gain"
      = Some (if (Z.of_nat row
                  =? index_custom_interface_with_following_offset_ idle_scenario)%Z
                 && negb (is_nan
                      (cell (joint_commands_
                         (read scenario_standard_interfaces 100000000
                            (write_command scenario_standard_interfaces 0 "gain" 0.5
                               idle_scenario)).2) POSITION_INTERFACE_INDEX 0))
              then cell (joint_commands_
                     (read scenario_standard_interfaces 100000000
                        (write_command scenario_standard_interfaces 0 "gain" 0.5
                           idle_scenario)).2) POSITION_INTERFACE_INDEX 0
                   + position_state_following_offset_ idle_scenario
              else 0.5).
Proof.
  apply (write_command_read_other scenario_standard_interfaces scenario_stod
           scenario_mimic idle_scenario 100000000 0 (joints scenario_mimic !!! 0%nat)).
  - apply scenario_configured. eexists. vm_compute. reflexivity.
  - vm_compute. reflexivity.
  - decide_closed.
  - decide_closed.
  - vm_compute. reflexivity.
Defined.

(** ** Interfaces and handles *)

Lemma interface_rows_unique_witness :
  NoDup (other_interfaces_ sensors_configured)
  ∧ NoDup (sensor_interfaces_ sensors_configured)
  ∧ (∀ x, x ∈ other_interfaces_ sensors_configured → x ∉ scenario_standard_interfaces)
  ∧ (∀ x, x ∈ sensor_interfaces_ sensors_configured
       ↔ ∃ sensor, sensor ∈ sensors scenario_sensors ∧ x ∈ declared_states sensor)
  ∧ (∀ j x, other_interfaces_ sensors_configured !! j = Some x →
       index_of (other_interfaces_ sensors_configured) x = Some j)
  ∧ (∀ j x, sensor_interfaces_ sensors_configured !! j = Some x →
       index_of (sensor_interfaces_ sensors_configured) x = Some j).
Proof.
  apply (interface_rows_unique scenario_standard_interfaces scenario_stod).
  apply scenario_configured. eexists. vm_compute. reflexivity.
Defined.

Lemma export_state_interfaces_handles_witness :
  ∃ joint_handles sensor_handles,
    export_state_interfaces scenario_standard_interfaces sensors_configured
    = Returns (joint_handles ++ sensor_handles)
    ∧ handle_key <$> joint_handles = declared_keys (joints scenario_sensors) declared_states
    ∧ handle_key <$> sensor_handles
      = declared_keys (sensors scenario_sensors) declared_states
    ∧ Forall (fun h =>
        handle_resolved scenario_standard_interfaces sensors_configured h
        ∧ (handle_values h = joint_states_storage ∨ handle_values h = other_states_storage)
        ∧ dereference sensors_configured h
          = state_slot scenario_standard_interfaces sensors_configured
              (handle_column h) (handle_interface_name h)
        ∧ is_Some (dereference sensors_configured h)) joint_handles
    ∧ Forall (fun h =>
        handle_resolved scenario_standard_interfaces sensors_configured h
        ∧ handle_values h = sensor_states_storage
        ∧ (is_Some (dereference sensors_configured h)
           ↔ (handle_column h < length (joints scenario_sensors))%nat))
        sensor_handles.
Proof.
  apply (export_state_interfaces_handles scenario_standard_interfaces scenario_stod).
  apply scenario_configured. eexists. vm_compute. reflexivity.
Defined.

(** With one joint and two sensors, the handle exported for the second
    sensor (column 1) points at no cell: the sensor rows have one cell. *)
Example export_sensor_handle_outside :
  (dereference two_sensors_configured <$>
   match export_state_interfaces scenario_standard_interfaces two_sensors_configured with
   | Returns handles => handles
   | Throws _ => []
   end)
  = [Some 0; Some 0; Some nan; None].
Proof. vm_compute. reflexivity. Qed.

Lemma export_command_interfaces_handles_witness :
  ∃ joint_handles sensor_handles,
    export_command_interfaces scenario_standard_interfaces sensors_configured
    = Returns (joint_handles ++ sensor_handles)
    ∧ handle_key <$> joint_handles
      = declared_keys (joints scenario_sensors) declared_commands
    ∧ handle_key <$> sensor_handles
      = (if fake_sensor_command_interfaces_ sensors_configured
         then declared_keys (sensors scenario_sensors) declared_states else [])
    ∧ Forall (fun h =>
        handle_resolved scenario_standard_interfaces sensors_configured h
        ∧ (handle_values h = joint_commands_storage
           ∨ handle_values h = other_commands_storage)
        ∧ dereference sensors_configured h
          = command_slot scenario_standard_interfaces sensors_configured
              (handle_column h) (handle_interface_name h)
        ∧ is_Some (dereference sensors_configured h)) joint_handles
    ∧ Forall (fun h =>
        handle_resolved scenario_standard_interfaces sensors_configured h
        ∧ handle_values h = sensor_fake_commands_storage
        ∧ (is_Some (dereference sensors_configured h)
           ↔ (handle_column h < length (joints scenario_sensors))%nat))
        sensor_handles.
Proof.
  apply (export_command_interfaces_handles scenario_standard_interfaces scenario_stod).
  apply scenario_configured. eexists. vm_compute. reflexivity.
Defined.

(** The handles exported right after [configure], two cycles, a switch
    and a write later. *)
Lemma exported_handles_stay_valid_witness :
  export_state_interfaces scenario_standard_interfaces two_sensors_later
  = Returns
      (match export_state_interfaces scenario_standard_interfaces two_sensors_configured
       with Returns handles => handles | Throws _ => [] end)
  ∧ export_command_interfaces scenario_standard_interfaces two_sensors_later
    = Returns
        (match
           export_command_interfaces scenario_standard_interfaces two_sensors_configured
         with Returns handles => handles | Throws _ => [] end)
  ∧ Forall (fun h =>
      (is_Some (dereference two_sensors_later h)
       ↔ is_Some (dereference two_sensors_configured h))
      ∧ (handle_values h = joint_states_storage
         ∨ handle_values h = other_states_storage →
         dereference two_sensors_later h
         = state_slot scenario_standard_interfaces two_sensors_later
             (handle_column h) (handle_interface_name h)))
      (match export_state_interfaces scenario_standard_interfaces two_sensors_configured
       with Returns handles => handles | Throws _ => [] end)
  ∧ Forall (fun h =>
      (is_Some (dereference two_sensors_later h)
       ↔ is_Some (dereference two_sensors_configured h))
      ∧ (handle_values h = joint_commands_storage
         ∨ handle_values h = other_commands_storage →
         dereference two_sensors_later h
         = command_slot scenario_standard_interfaces two_sensors_later
             (handle_column h) (handle_interface_name h)))
      (match export_command_interfaces scenario_standard_interfaces two_sensors_configured
       with Returns handles => handles | Throws _ => [] end).
Proof.
  apply (exported_handles_stay_valid scenario_standard_interfaces scenario_stod
           scenario_two_sensors).
  - apply scenario_configured. eexists. vm_compute. reflexivity.
  - apply run_operates.
  - vm_compute. reflexivity.
  - vm_compute. reflexivity.
Defined.

(** The position handle of J1, exported right after [configure], reads the
    position state that the later cycles produced. *)
Example exported_handle_reads_later_state :
  dereference two_sensors_later
    {| handle_name := "J1"; handle_interface_name := "position";
       handle_values := joint_states_storage; handle_row := 0; handle_column := 0 |}
  = Some 5.
Proof. vm_compute. reflexivity. Qed.

Lemma running_storage_shape_witness :
  info_ fake_force_scenario = scenario_sensors
  ∧ rect (length scenario_standard_interfaces) (length (joints scenario_sensors))
      (joint_states_ fake_force_scenario)
  ∧ rect (length scenario_standard_interfaces) (length (joints scenario_sensors))
      (joint_commands_ fake_force_scenario)
  ∧ rect (length (other_interfaces_ fake_force_scenario))
      (length (joints scenario_sensors)) (other_states_ fake_force_scenario)
  ∧ rect (length (other_interfaces_ fake_force_scenario))
      (length (joints scenario_sensors)) (other_commands_ fake_force_scenario)
  ∧ rect (length (sensor_interfaces_ fake_force_scenario))
      (length (joints scenario_sensors)) (sensor_states_ fake_force_scenario)
  ∧ rect (length (sensor_interfaces_ fake_force_scenario))
      (length (joints scenario_sensors)) (sensor_fake_commands_ fake_force_scenario)
  ∧ length (joint_pos_commands_old_ fake_force_scenario)
    = length (joints scenario_sensors)
  ∧ (position_controller_running_ fake_force_scenario
     && velocity_controller_running_ fake_force_scenario = false).
Proof.
  apply (running_storage_shape scenario_standard_interfaces scenario_stod).
  apply fake_force_running.
Defined.

(** ** Configuration *)

Lemma configure_returns_witness :
  (∀ text,
     hardware_parameters scenario_mimic !! "position_state_following_offset" = Some text →
     is_Some (scenario_stod text))
  ∧ (∀ joint interface text, joint ∈ joints scenario_mimic →
       interface ∈ scenario_standard_interfaces
       ∨ (∃ joint', joint' ∈ joints scenario_mimic
            ∧ (interface ∈ declared_commands joint' ∨ interface ∈ declared_states joint'))
       ∨ (∃ sensor, sensor ∈ sensors scenario_mimic ∧ interface ∈ declared_states sensor) →
       parameters joint !! ("initial_" +:+ interface) = Some text →
       is_Some (scenario_stod text))
  ∧ (∀ joint mimicked, joint ∈ joints scenario_mimic →
       parameters joint !! "mimic" = Some mimicked →
       (∃ leader, leader ∈ joints scenario_mimic ∧ name leader = mimicked)
       ∧ ∀ text, parameters joint !! "multiplier" = Some text →
           is_Some (scenario_stod text)).
Proof.
  apply (proj1 (configure_returns scenario_standard_interfaces scenario_stod 0
                  scenario_mimic)).
  eexists. vm_compute. reflexivity.
Defined.

(** A joint that mimics a joint that does not exist, and a joint whose
    initial position is no number: [configure] throws. *)
Example configure_throws :
  configure scenario_standard_interfaces scenario_stod 0
    {| hardware_parameters := ∅;
       joints := [ scenario_joint "J1" ["position"] ["position"] [("mimic", "J0")] ];
       sensors := [] |}
  = Throws (runtime_error "Mimicked joint 'J0' not found")
  ∧ configure scenario_standard_interfaces scenario_stod 0
      {| hardware_parameters := ∅;
         joints :=
           [ scenario_joint "J1" ["position"] ["position"] [("initial_position", "up")] ];
         sensors := [] |}
    = Throws (invalid_argument "stod").
Proof. split; vm_compute; reflexivity. Qed.

Lemma configure_mimic_joints_witness :
  followers idle_scenario
  = filter (fun i => is_Some (parameters (joints scenario_mimic !!! i) !! "mimic"))
      (seq 0 (length (joints scenario_mimic)))
  ∧ ∀ r, r ∈ mimic_joints_ idle_scenario →
      ∃ mimicked,
        parameters (joints scenario_mimic !!! joint_index r) !! "mimic" = Some mimicked
        ∧ joints scenario_mimic !! mimicked_joint_index r
          = Some (joints scenario_mimic !!! mimicked_joint_index r)
        ∧ name (joints scenario_mimic !!! mimicked_joint_index r) = mimicked
        ∧ (∀ k, (k < mimicked_joint_index r)%nat →
             name (joints scenario_mimic !!! k) ≠ mimicked)
        ∧ ∀ text,
            parameters (joints scenario_mimic !!! joint_index r) !! "multiplier"
            = Some text →
            scenario_stod text = Some (multiplier r).
Proof.
  apply (configure_mimic_joints scenario_standard_interfaces scenario_stod 0).
  vm_compute. reflexivity.
Defined.

Lemma configure_sensor_cells_witness :
  rect (length (sensor_interfaces_ sensors_configured)) (length (joints scenario_sensors))
    (sensor_states_ sensors_configured)
  ∧ rect (length (sensor_interfaces_ sensors_configured))
      (length (joints scenario_sensors)) (sensor_fake_commands_ sensors_configured)
  ∧ ∀ j i, (j < length (sensor_interfaces_ sensors_configured))%nat →
      (i < length (joints scenario_sensors))%nat →
      cell (sensor_fake_commands_ sensors_configured) j i = quiet_NaN
      ∧ cell (sensor_states_ sensors_configured) j i
        = initial_value scenario_stod (joints scenario_sensors !!! i)
            (sensor_interfaces_ sensors_configured !!! j).
Proof.
  apply (configure_sensor_cells scenario_standard_interfaces scenario_stod 0).
  vm_compute. reflexivity.
Defined.

Lemma configure_hardware_parameters_witness :
  (fake_sensor_command_interfaces_
     (configured scenario_standard_interfaces scenario_stod 0 scenario_bound_custom) = true
   ↔ hardware_parameters scenario_bound_custom !! "fake_sensor_commands" = Some "true"
     ∨ hardware_parameters scenario_bound_custom !! "fake_sensor_commands" = Some "True")
  ∧ (command_propagation_disabled_
       (configured scenario_standard_interfaces scenario_stod 0 scenario_bound_custom)
     = true
     ↔ hardware_parameters scenario_bound_custom !! "disable_commands" = Some "true"
       ∨ hardware_parameters scenario_bound_custom !! "disable_commands" = Some "True")
  ∧ match hardware_parameters scenario_bound_custom !! "position_state_following_offset"
    with
    | Some text =>
        scenario_stod text
        = Some (position_state_following_offset_
                  (configured scenario_standard_interfaces scenario_stod 0
                     scenario_bound_custom))
        ∧ custom_interface_with_following_offset_
            (configured scenario_standard_interfaces scenario_stod 0 scenario_bound_custom)
          = default ""
              (hardware_parameters scenario_bound_custom
                 !! "custom_interface_with_following_offset")
    | None =>
        position_state_following_offset_
          (configured scenario_standard_interfaces scenario_stod 0 scenario_bound_custom)
        = 0.0
        ∧ custom_interface_with_following_offset_
            (configured scenario_standard_interfaces scenario_stod 0 scenario_bound_custom)
          = ""
        ∧ index_custom_interface_with_following_offset_
            (configured scenario_standard_interfaces scenario_stod 0 scenario_bound_custom)
          = SIZE_MAX
    end.
Proof.
  apply (configure_hardware_parameters scenario_standard_interfaces scenario_stod 0).
  vm_compute. reflexivity.
Defined.
